(** * package-CRUD: value objects CPF, Email, FullName and EmployeeStatus

    A shallow embedding of [src/factories/cpf.ts], [src/factories/email.ts]
    and [src/factories/full-name.ts].

    - A JavaScript string is the list of its UTF-16 code units ([N]).
    - A constructor either returns the stored value or throws an [Error]
      carrying a message ([Completion]).
    - A zod string schema is the list of its checks in declaration order,
      each with its message; [safeParse] collects the messages of the
      checks that fail, in that order. *)

From Stdlib Require Import List NArith ZArith Lia Bool String Ascii.
From Stdlib Require FMapPositive.
Import ListNotations.
Open Scope N_scope.

(* ================================================================== *)
(** * JavaScript strings *)
(* ================================================================== *)

Abbreviation codeUnit := N (only parsing).
Abbreviation jsstring := (list N) (only parsing).

(** String literals of this file are UTF-8 text; [js] turns one into its
    code units (one, two and three byte sequences, i.e. the whole BMP). *)
Fixpoint utf16 (bs : list N) : jsstring :=
  match bs with
  | [] => []
  | b0 :: r0 =>
    if b0 <? 128 then b0 :: utf16 r0
    else
      match r0 with
      | [] => [b0]
      | b1 :: r1 =>
        if b0 <? 224 then ((b0 - 192) * 64 + (b1 - 128)) :: utf16 r1
        else
          match r1 with
          | [] => [b0; b1]
          | b2 :: r2 =>
            ((b0 - 224) * 4096 + (b1 - 128) * 64 + (b2 - 128)) :: utf16 r2
          end
      end
  end.

Definition js (s : string) : jsstring :=
  utf16 (map N_of_ascii (list_ascii_of_string s)).

Definition jsstring_eqb (a b : jsstring) : bool :=
  if list_eq_dec N.eq_dec a b then true else false.

(** [s.length] *)
Definition jslength (s : jsstring) : N := N.of_nat (List.length s).

(** The characters matched by [\d]: the ten ASCII digits. *)
Definition isDigit (c : codeUnit) : bool := (48 <=? c) && (c <=? 57).

(** [WhiteSpace] and [LineTerminator] of ECMAScript: what [\s] matches and
    what [trim] removes. *)
Definition isWhiteSpace (c : codeUnit) : bool :=
  ((9 <=? c) && (c <=? 13))          (* TAB LF VT FF CR *)
  || (c =? 32) || (c =? 160)         (* SPACE, NO-BREAK SPACE *)
  || (c =? 5760)                     (* U+1680 *)
  || ((8192 <=? c) && (c <=? 8202))  (* U+2000 .. U+200A *)
  || (c =? 8232) || (c =? 8233)      (* U+2028, U+2029 *)
  || (c =? 8239) || (c =? 8287)      (* U+202F, U+205F *)
  || (c =? 12288) || (c =? 65279).   (* U+3000, U+FEFF *)

Definition SPACE : codeUnit := 32.
Definition APOSTROPHE : codeUnit := 39.
Definition HYPHEN : codeUnit := 45.
Definition DOT : codeUnit := 46.
Definition AT : codeUnit := 64.

(** [s.includes(c)] for a one-character [c]. *)
Definition includes (c : codeUnit) (s : jsstring) : bool :=
  existsb (N.eqb c) s.

(** [s.split(c)] for a one-character separator [c]; the empty string
    splits into one empty piece. *)
Fixpoint split (sep : codeUnit) (s : jsstring) : list jsstring :=
  match s with
  | [] => [[]]
  | c :: s' =>
    if c =? sep then [] :: split sep s'
    else
      match split sep s' with
      | w :: ws => (c :: w) :: ws
      | [] => [[c]]
      end
  end.

(** [parts.join(c)] *)
Fixpoint join (sep : codeUnit) (parts : list jsstring) : jsstring :=
  match parts with
  | [] => []
  | [w] => w
  | w :: ws => w ++ sep :: join sep ws
  end.

(** [s.indexOf(c)] as a position, when [c] occurs. *)
Fixpoint indexOf (c : codeUnit) (s : jsstring) : nat :=
  match s with
  | [] => 0
  | d :: s' => if d =? c then 0%nat else S (indexOf c s')
  end.

(** [s.substring(0, n)] and [s.substring(n)] / [s.slice(n)], for [n] within
    the string. *)
Definition substringTo (n : nat) (s : jsstring) : jsstring := firstn n s.
Definition substringFrom (n : nat) (s : jsstring) : jsstring := skipn n s.

(** [s.charAt(0)]: the first code unit as a string, empty on the empty
    string. *)
Definition charAt0 (s : jsstring) : jsstring := firstn 1 s.

(** [s.trim()] *)
Fixpoint trimStart (s : jsstring) : jsstring :=
  match s with
  | [] => []
  | c :: s' => if isWhiteSpace c then trimStart s' else s
  end.

Fixpoint trimEnd (s : jsstring) : jsstring :=
  match s with
  | [] => []
  | c :: s' =>
    match trimEnd s' with
    | [] => if isWhiteSpace c then [] else [c]
    | t => c :: t
    end
  end.

Definition trim (s : jsstring) : jsstring := trimEnd (trimStart s).

(** [s.replace(/\s+/g, ' ')]: every maximal run of white space becomes one
    space; [inRun] tells that the previous character was white space. *)
Fixpoint collapseFrom (inRun : bool) (s : jsstring) : jsstring :=
  match s with
  | [] => []
  | c :: s' =>
    if isWhiteSpace c
    then if inRun then collapseFrom true s' else SPACE :: collapseFrom true s'
    else c :: collapseFrom false s'
  end.

Definition collapseWhiteSpace (s : jsstring) : jsstring := collapseFrom false s.

(** [s.split(/\s+/)]: the pieces between maximal runs of white space. *)
Fixpoint splitRunsFrom (inRun : bool) (s : jsstring) : list jsstring :=
  match s with
  | [] => [[]]
  | c :: s' =>
    if isWhiteSpace c
    then if inRun then splitRunsFrom true s' else [] :: splitRunsFrom true s'
    else
      match splitRunsFrom false s' with
      | w :: ws => (c :: w) :: ws
      | [] => [[c]]
      end
  end.

Definition splitWhiteSpace (s : jsstring) : list jsstring :=
  splitRunsFrom false s.

(** ** Case mapping

    [toUpperCase] and [toLowerCase], one code unit at a time, after the
    tables of Unicode 14.0 for the Basic Multilingual Plane: UnicodeData,
    and the mappings of SpecialCasing that hold in every context and
    language.  A range [(first, last, step, image)] says that the code
    units [first], [first + step], ..., [last] have the images [image],
    [image + step], ...; a code unit without an entry is its own upper and
    lower case.

    What the tables leave out:
    - the characters outside the Basic Multilingual Plane, which are two
      surrogates in a string (a surrogate is left as it is here, as a lone
      one is by the code);
    - the final-sigma rule: the code turns the capital sigma (U+03A3) into
      U+03C2 at the end of a word and into U+03C3 elsewhere, the table
      always into U+03C3;
    - the letters that got a case partner after Unicode 14.0, or may still
      get one, on which the engines differ.
    [inCaseTables] below tells the code units on which the tables are the
    conversion the code makes; the statements that depend on what a case
    conversion gives are about strings of such code units. *)
Definition CaseRange : Type := (codeUnit * codeUnit * N * codeUnit)%type.

(** The characters with a one-letter upper case. *)
Definition upperRanges : list CaseRange :=
  [(0x0061, 0x007A, 1, 0x0041); (0x00B5, 0x00B5, 1, 0x039C);
   (0x00E0, 0x00F6, 1, 0x00C0); (0x00F8, 0x00FE, 1, 0x00D8);
   (0x00FF, 0x00FF, 1, 0x0178); (0x0101, 0x012F, 2, 0x0100);
   (0x0131, 0x0131, 1, 0x0049); (0x0133, 0x0137, 2, 0x0132);
   (0x013A, 0x0148, 2, 0x0139); (0x014B, 0x0177, 2, 0x014A);
   (0x017A, 0x017E, 2, 0x0179); (0x017F, 0x017F, 1, 0x0053);
   (0x0180, 0x0180, 1, 0x0243); (0x0183, 0x0185, 2, 0x0182);
   (0x0188, 0x0188, 1, 0x0187); (0x018C, 0x018C, 1, 0x018B);
   (0x0192, 0x0192, 1, 0x0191); (0x0195, 0x0195, 1, 0x01F6);
   (0x0199, 0x0199, 1, 0x0198); (0x019A, 0x019A, 1, 0x023D);
   (0x019E, 0x019E, 1, 0x0220); (0x01A1, 0x01A5, 2, 0x01A0);
   (0x01A8, 0x01A8, 1, 0x01A7); (0x01AD, 0x01AD, 1, 0x01AC);
   (0x01B0, 0x01B0, 1, 0x01AF); (0x01B4, 0x01B6, 2, 0x01B3);
   (0x01B9, 0x01B9, 1, 0x01B8); (0x01BD, 0x01BD, 1, 0x01BC);
   (0x01BF, 0x01BF, 1, 0x01F7); (0x01C5, 0x01C5, 1, 0x01C4);
   (0x01C6, 0x01C6, 1, 0x01C4); (0x01C8, 0x01C8, 1, 0x01C7);
   (0x01C9, 0x01C9, 1, 0x01C7); (0x01CB, 0x01CB, 1, 0x01CA);
   (0x01CC, 0x01CC, 1, 0x01CA); (0x01CE, 0x01DC, 2, 0x01CD);
   (0x01DD, 0x01DD, 1, 0x018E); (0x01DF, 0x01EF, 2, 0x01DE);
   (0x01F2, 0x01F2, 1, 0x01F1); (0x01F3, 0x01F3, 1, 0x01F1);
   (0x01F5, 0x01F5, 1, 0x01F4); (0x01F9, 0x021F, 2, 0x01F8);
   (0x0223, 0x0233, 2, 0x0222); (0x023C, 0x023C, 1, 0x023B);
   (0x023F, 0x0240, 1, 0x2C7E); (0x0242, 0x0242, 1, 0x0241);
   (0x0247, 0x024F, 2, 0x0246); (0x0250, 0x0250, 1, 0x2C6F);
   (0x0251, 0x0251, 1, 0x2C6D); (0x0252, 0x0252, 1, 0x2C70);
   (0x0253, 0x0253, 1, 0x0181); (0x0254, 0x0254, 1, 0x0186);
   (0x0256, 0x0257, 1, 0x0189); (0x0259, 0x0259, 1, 0x018F);
   (0x025B, 0x025B, 1, 0x0190); (0x025C, 0x025C, 1, 0xA7AB);
   (0x0260, 0x0260, 1, 0x0193); (0x0261, 0x0261, 1, 0xA7AC);
   (0x0263, 0x0263, 1, 0x0194); (0x0265, 0x0265, 1, 0xA78D);
   (0x0266, 0x0266, 1, 0xA7AA); (0x0268, 0x0268, 1, 0x0197);
   (0x0269, 0x0269, 1, 0x0196); (0x026A, 0x026A, 1, 0xA7AE);
   (0x026B, 0x026B, 1, 0x2C62); (0x026C, 0x026C, 1, 0xA7AD);
   (0x026F, 0x026F, 1, 0x019C); (0x0271, 0x0271, 1, 0x2C6E);
   (0x0272, 0x0272, 1, 0x019D); (0x0275, 0x0275, 1, 0x019F);
   (0x027D, 0x027D, 1, 0x2C64); (0x0280, 0x0280, 1, 0x01A6);
   (0x0282, 0x0282, 1, 0xA7C5); (0x0283, 0x0283, 1, 0x01A9);
   (0x0287, 0x0287, 1, 0xA7B1); (0x0288, 0x0288, 1, 0x01AE);
   (0x0289, 0x0289, 1, 0x0244); (0x028A, 0x028B, 1, 0x01B1);
   (0x028C, 0x028C, 1, 0x0245); (0x0292, 0x0292, 1, 0x01B7);
   (0x029D, 0x029D, 1, 0xA7B2); (0x029E, 0x029E, 1, 0xA7B0);
   (0x0345, 0x0345, 1, 0x0399); (0x0371, 0x0373, 2, 0x0370);
   (0x0377, 0x0377, 1, 0x0376); (0x037B, 0x037D, 1, 0x03FD);
   (0x03AC, 0x03AC, 1, 0x0386); (0x03AD, 0x03AF, 1, 0x0388);
   (0x03B1, 0x03C1, 1, 0x0391); (0x03C2, 0x03C2, 1, 0x03A3);
   (0x03C3, 0x03CB, 1, 0x03A3); (0x03CC, 0x03CC, 1, 0x038C);
   (0x03CD, 0x03CE, 1, 0x038E); (0x03D0, 0x03D0, 1, 0x0392);
   (0x03D1, 0x03D1, 1, 0x0398); (0x03D5, 0x03D5, 1, 0x03A6);
   (0x03D6, 0x03D6, 1, 0x03A0); (0x03D7, 0x03D7, 1, 0x03CF);
   (0x03D9, 0x03EF, 2, 0x03D8); (0x03F0, 0x03F0, 1, 0x039A);
   (0x03F1, 0x03F1, 1, 0x03A1); (0x03F2, 0x03F2, 1, 0x03F9);
   (0x03F3, 0x03F3, 1, 0x037F); (0x03F5, 0x03F5, 1, 0x0395);
   (0x03F8, 0x03F8, 1, 0x03F7); (0x03FB, 0x03FB, 1, 0x03FA);
   (0x0430, 0x044F, 1, 0x0410); (0x0450, 0x045F, 1, 0x0400);
   (0x0461, 0x0481, 2, 0x0460); (0x048B, 0x04BF, 2, 0x048A);
   (0x04C2, 0x04CE, 2, 0x04C1); (0x04CF, 0x04CF, 1, 0x04C0);
   (0x04D1, 0x052F, 2, 0x04D0); (0x0561, 0x0586, 1, 0x0531);
   (0x10D0, 0x10FA, 1, 0x1C90); (0x10FD, 0x10FF, 1, 0x1CBD);
   (0x13F8, 0x13FD, 1, 0x13F0); (0x1C80, 0x1C80, 1, 0x0412);
   (0x1C81, 0x1C81, 1, 0x0414); (0x1C82, 0x1C82, 1, 0x041E);
   (0x1C83, 0x1C84, 1, 0x0421); (0x1C85, 0x1C85, 1, 0x0422);
   (0x1C86, 0x1C86, 1, 0x042A); (0x1C87, 0x1C87, 1, 0x0462);
   (0x1C88, 0x1C88, 1, 0xA64A); (0x1D79, 0x1D79, 1, 0xA77D);
   (0x1D7D, 0x1D7D, 1, 0x2C63); (0x1D8E, 0x1D8E, 1, 0xA7C6);
   (0x1E01, 0x1E95, 2, 0x1E00); (0x1E9B, 0x1E9B, 1, 0x1E60);
   (0x1EA1, 0x1EFF, 2, 0x1EA0); (0x1F00, 0x1F07, 1, 0x1F08);
   (0x1F10, 0x1F15, 1, 0x1F18); (0x1F20, 0x1F27, 1, 0x1F28);
   (0x1F30, 0x1F37, 1, 0x1F38); (0x1F40, 0x1F45, 1, 0x1F48);
   (0x1F51, 0x1F57, 2, 0x1F59); (0x1F60, 0x1F67, 1, 0x1F68);
   (0x1F70, 0x1F71, 1, 0x1FBA); (0x1F72, 0x1F75, 1, 0x1FC8);
   (0x1F76, 0x1F77, 1, 0x1FDA); (0x1F78, 0x1F79, 1, 0x1FF8);
   (0x1F7A, 0x1F7B, 1, 0x1FEA); (0x1F7C, 0x1F7D, 1, 0x1FFA);
   (0x1FB0, 0x1FB1, 1, 0x1FB8); (0x1FBE, 0x1FBE, 1, 0x0399);
   (0x1FD0, 0x1FD1, 1, 0x1FD8); (0x1FE0, 0x1FE1, 1, 0x1FE8);
   (0x1FE5, 0x1FE5, 1, 0x1FEC); (0x214E, 0x214E, 1, 0x2132);
   (0x2170, 0x217F, 1, 0x2160); (0x2184, 0x2184, 1, 0x2183);
   (0x24D0, 0x24E9, 1, 0x24B6); (0x2C30, 0x2C5F, 1, 0x2C00);
   (0x2C61, 0x2C61, 1, 0x2C60); (0x2C65, 0x2C65, 1, 0x023A);
   (0x2C66, 0x2C66, 1, 0x023E); (0x2C68, 0x2C6C, 2, 0x2C67);
   (0x2C73, 0x2C73, 1, 0x2C72); (0x2C76, 0x2C76, 1, 0x2C75);
   (0x2C81, 0x2CE3, 2, 0x2C80); (0x2CEC, 0x2CEE, 2, 0x2CEB);
   (0x2CF3, 0x2CF3, 1, 0x2CF2); (0x2D00, 0x2D25, 1, 0x10A0);
   (0x2D27, 0x2D27, 1, 0x10C7); (0x2D2D, 0x2D2D, 1, 0x10CD);
   (0xA641, 0xA66D, 2, 0xA640); (0xA681, 0xA69B, 2, 0xA680);
   (0xA723, 0xA72F, 2, 0xA722); (0xA733, 0xA76F, 2, 0xA732);
   (0xA77A, 0xA77C, 2, 0xA779); (0xA77F, 0xA787, 2, 0xA77E);
   (0xA78C, 0xA78C, 1, 0xA78B); (0xA791, 0xA793, 2, 0xA790);
   (0xA794, 0xA794, 1, 0xA7C4); (0xA797, 0xA7A9, 2, 0xA796);
   (0xA7B5, 0xA7C3, 2, 0xA7B4); (0xA7C8, 0xA7CA, 2, 0xA7C7);
   (0xA7D1, 0xA7D1, 1, 0xA7D0); (0xA7D7, 0xA7D9, 2, 0xA7D6);
   (0xA7F6, 0xA7F6, 1, 0xA7F5); (0xAB53, 0xAB53, 1, 0xA7B3);
   (0xAB70, 0xABBF, 1, 0x13A0); (0xFF41, 0xFF5A, 1, 0xFF21)].

(** The characters whose upper case is more than one code unit
    (SpecialCasing). *)
Definition upperSpecial : list (codeUnit * jsstring) :=
  [(0x00DF, [0x0053; 0x0053]); (0x0149, [0x02BC; 0x004E]);
   (0x01F0, [0x004A; 0x030C]); (0x0390, [0x0399; 0x0308; 0x0301]);
   (0x03B0, [0x03A5; 0x0308; 0x0301]); (0x0587, [0x0535; 0x0552]);
   (0x1E96, [0x0048; 0x0331]); (0x1E97, [0x0054; 0x0308]);
   (0x1E98, [0x0057; 0x030A]); (0x1E99, [0x0059; 0x030A]);
   (0x1E9A, [0x0041; 0x02BE]); (0x1F50, [0x03A5; 0x0313]);
   (0x1F52, [0x03A5; 0x0313; 0x0300]); (0x1F54, [0x03A5; 0x0313; 0x0301]);
   (0x1F56, [0x03A5; 0x0313; 0x0342]); (0x1F80, [0x1F08; 0x0399]);
   (0x1F81, [0x1F09; 0x0399]); (0x1F82, [0x1F0A; 0x0399]);
   (0x1F83, [0x1F0B; 0x0399]); (0x1F84, [0x1F0C; 0x0399]);
   (0x1F85, [0x1F0D; 0x0399]); (0x1F86, [0x1F0E; 0x0399]);
   (0x1F87, [0x1F0F; 0x0399]); (0x1F88, [0x1F08; 0x0399]);
   (0x1F89, [0x1F09; 0x0399]); (0x1F8A, [0x1F0A; 0x0399]);
   (0x1F8B, [0x1F0B; 0x0399]); (0x1F8C, [0x1F0C; 0x0399]);
   (0x1F8D, [0x1F0D; 0x0399]); (0x1F8E, [0x1F0E; 0x0399]);
   (0x1F8F, [0x1F0F; 0x0399]); (0x1F90, [0x1F28; 0x0399]);
   (0x1F91, [0x1F29; 0x0399]); (0x1F92, [0x1F2A; 0x0399]);
   (0x1F93, [0x1F2B; 0x0399]); (0x1F94, [0x1F2C; 0x0399]);
   (0x1F95, [0x1F2D; 0x0399]); (0x1F96, [0x1F2E; 0x0399]);
   (0x1F97, [0x1F2F; 0x0399]); (0x1F98, [0x1F28; 0x0399]);
   (0x1F99, [0x1F29; 0x0399]); (0x1F9A, [0x1F2A; 0x0399]);
   (0x1F9B, [0x1F2B; 0x0399]); (0x1F9C, [0x1F2C; 0x0399]);
   (0x1F9D, [0x1F2D; 0x0399]); (0x1F9E, [0x1F2E; 0x0399]);
   (0x1F9F, [0x1F2F; 0x0399]); (0x1FA0, [0x1F68; 0x0399]);
   (0x1FA1, [0x1F69; 0x0399]); (0x1FA2, [0x1F6A; 0x0399]);
   (0x1FA3, [0x1F6B; 0x0399]); (0x1FA4, [0x1F6C; 0x0399]);
   (0x1FA5, [0x1F6D; 0x0399]); (0x1FA6, [0x1F6E; 0x0399]);
   (0x1FA7, [0x1F6F; 0x0399]); (0x1FA8, [0x1F68; 0x0399]);
   (0x1FA9, [0x1F69; 0x0399]); (0x1FAA, [0x1F6A; 0x0399]);
   (0x1FAB, [0x1F6B; 0x0399]); (0x1FAC, [0x1F6C; 0x0399]);
   (0x1FAD, [0x1F6D; 0x0399]); (0x1FAE, [0x1F6E; 0x0399]);
   (0x1FAF, [0x1F6F; 0x0399]); (0x1FB2, [0x1FBA; 0x0399]);
   (0x1FB3, [0x0391; 0x0399]); (0x1FB4, [0x0386; 0x0399]);
   (0x1FB6, [0x0391; 0x0342]); (0x1FB7, [0x0391; 0x0342; 0x0399]);
   (0x1FBC, [0x0391; 0x0399]); (0x1FC2, [0x1FCA; 0x0399]);
   (0x1FC3, [0x0397; 0x0399]); (0x1FC4, [0x0389; 0x0399]);
   (0x1FC6, [0x0397; 0x0342]); (0x1FC7, [0x0397; 0x0342; 0x0399]);
   (0x1FCC, [0x0397; 0x0399]); (0x1FD2, [0x0399; 0x0308; 0x0300]);
   (0x1FD3, [0x0399; 0x0308; 0x0301]); (0x1FD6, [0x0399; 0x0342]);
   (0x1FD7, [0x0399; 0x0308; 0x0342]); (0x1FE2, [0x03A5; 0x0308; 0x0300]);
   (0x1FE3, [0x03A5; 0x0308; 0x0301]); (0x1FE4, [0x03A1; 0x0313]);
   (0x1FE6, [0x03A5; 0x0342]); (0x1FE7, [0x03A5; 0x0308; 0x0342]);
   (0x1FF2, [0x1FFA; 0x0399]); (0x1FF3, [0x03A9; 0x0399]);
   (0x1FF4, [0x038F; 0x0399]); (0x1FF6, [0x03A9; 0x0342]);
   (0x1FF7, [0x03A9; 0x0342; 0x0399]); (0x1FFC, [0x03A9; 0x0399]);
   (0xFB00, [0x0046; 0x0046]); (0xFB01, [0x0046; 0x0049]);
   (0xFB02, [0x0046; 0x004C]); (0xFB03, [0x0046; 0x0046; 0x0049]);
   (0xFB04, [0x0046; 0x0046; 0x004C]); (0xFB05, [0x0053; 0x0054]);
   (0xFB06, [0x0053; 0x0054]); (0xFB13, [0x0544; 0x0546]);
   (0xFB14, [0x0544; 0x0535]); (0xFB15, [0x0544; 0x053B]);
   (0xFB16, [0x054E; 0x0546]); (0xFB17, [0x0544; 0x053D])].

(** The characters with a one-letter lower case. *)
Definition lowerRanges : list CaseRange :=
  [(0x0041, 0x005A, 1, 0x0061); (0x00C0, 0x00D6, 1, 0x00E0);
   (0x00D8, 0x00DE, 1, 0x00F8); (0x0100, 0x012E, 2, 0x0101);
   (0x0132, 0x0136, 2, 0x0133); (0x0139, 0x0147, 2, 0x013A);
   (0x014A, 0x0176, 2, 0x014B); (0x0178, 0x0178, 1, 0x00FF);
   (0x0179, 0x017D, 2, 0x017A); (0x0181, 0x0181, 1, 0x0253);
   (0x0182, 0x0184, 2, 0x0183); (0x0186, 0x0186, 1, 0x0254);
   (0x0187, 0x0187, 1, 0x0188); (0x0189, 0x018A, 1, 0x0256);
   (0x018B, 0x018B, 1, 0x018C); (0x018E, 0x018E, 1, 0x01DD);
   (0x018F, 0x018F, 1, 0x0259); (0x0190, 0x0190, 1, 0x025B);
   (0x0191, 0x0191, 1, 0x0192); (0x0193, 0x0193, 1, 0x0260);
   (0x0194, 0x0194, 1, 0x0263); (0x0196, 0x0196, 1, 0x0269);
   (0x0197, 0x0197, 1, 0x0268); (0x0198, 0x0198, 1, 0x0199);
   (0x019C, 0x019C, 1, 0x026F); (0x019D, 0x019D, 1, 0x0272);
   (0x019F, 0x019F, 1, 0x0275); (0x01A0, 0x01A4, 2, 0x01A1);
   (0x01A6, 0x01A6, 1, 0x0280); (0x01A7, 0x01A7, 1, 0x01A8);
   (0x01A9, 0x01A9, 1, 0x0283); (0x01AC, 0x01AC, 1, 0x01AD);
   (0x01AE, 0x01AE, 1, 0x0288); (0x01AF, 0x01AF, 1, 0x01B0);
   (0x01B1, 0x01B2, 1, 0x028A); (0x01B3, 0x01B5, 2, 0x01B4);
   (0x01B7, 0x01B7, 1, 0x0292); (0x01B8, 0x01B8, 1, 0x01B9);
   (0x01BC, 0x01BC, 1, 0x01BD); (0x01C4, 0x01C4, 1, 0x01C6);
   (0x01C5, 0x01C5, 1, 0x01C6); (0x01C7, 0x01C7, 1, 0x01C9);
   (0x01C8, 0x01C8, 1, 0x01C9); (0x01CA, 0x01CA, 1, 0x01CC);
   (0x01CB, 0x01DB, 2, 0x01CC); (0x01DE, 0x01EE, 2, 0x01DF);
   (0x01F1, 0x01F1, 1, 0x01F3); (0x01F2, 0x01F4, 2, 0x01F3);
   (0x01F6, 0x01F6, 1, 0x0195); (0x01F7, 0x01F7, 1, 0x01BF);
   (0x01F8, 0x021E, 2, 0x01F9); (0x0220, 0x0220, 1, 0x019E);
   (0x0222, 0x0232, 2, 0x0223); (0x023A, 0x023A, 1, 0x2C65);
   (0x023B, 0x023B, 1, 0x023C); (0x023D, 0x023D, 1, 0x019A);
   (0x023E, 0x023E, 1, 0x2C66); (0x0241, 0x0241, 1, 0x0242);
   (0x0243, 0x0243, 1, 0x0180); (0x0244, 0x0244, 1, 0x0289);
   (0x0245, 0x0245, 1, 0x028C); (0x0246, 0x024E, 2, 0x0247);
   (0x0370, 0x0372, 2, 0x0371); (0x0376, 0x0376, 1, 0x0377);
   (0x037F, 0x037F, 1, 0x03F3); (0x0386, 0x0386, 1, 0x03AC);
   (0x0388, 0x038A, 1, 0x03AD); (0x038C, 0x038C, 1, 0x03CC);
   (0x038E, 0x038F, 1, 0x03CD); (0x0391, 0x03A1, 1, 0x03B1);
   (0x03A3, 0x03AB, 1, 0x03C3); (0x03CF, 0x03CF, 1, 0x03D7);
   (0x03D8, 0x03EE, 2, 0x03D9); (0x03F4, 0x03F4, 1, 0x03B8);
   (0x03F7, 0x03F7, 1, 0x03F8); (0x03F9, 0x03F9, 1, 0x03F2);
   (0x03FA, 0x03FA, 1, 0x03FB); (0x03FD, 0x03FF, 1, 0x037B);
   (0x0400, 0x040F, 1, 0x0450); (0x0410, 0x042F, 1, 0x0430);
   (0x0460, 0x0480, 2, 0x0461); (0x048A, 0x04BE, 2, 0x048B);
   (0x04C0, 0x04C0, 1, 0x04CF); (0x04C1, 0x04CD, 2, 0x04C2);
   (0x04D0, 0x052E, 2, 0x04D1); (0x0531, 0x0556, 1, 0x0561);
   (0x10A0, 0x10C5, 1, 0x2D00); (0x10C7, 0x10C7, 1, 0x2D27);
   (0x10CD, 0x10CD, 1, 0x2D2D); (0x13A0, 0x13EF, 1, 0xAB70);
   (0x13F0, 0x13F5, 1, 0x13F8); (0x1C90, 0x1CBA, 1, 0x10D0);
   (0x1CBD, 0x1CBF, 1, 0x10FD); (0x1E00, 0x1E94, 2, 0x1E01);
   (0x1E9E, 0x1E9E, 1, 0x00DF); (0x1EA0, 0x1EFE, 2, 0x1EA1);
   (0x1F08, 0x1F0F, 1, 0x1F00); (0x1F18, 0x1F1D, 1, 0x1F10);
   (0x1F28, 0x1F2F, 1, 0x1F20); (0x1F38, 0x1F3F, 1, 0x1F30);
   (0x1F48, 0x1F4D, 1, 0x1F40); (0x1F59, 0x1F5F, 2, 0x1F51);
   (0x1F68, 0x1F6F, 1, 0x1F60); (0x1F88, 0x1F8F, 1, 0x1F80);
   (0x1F98, 0x1F9F, 1, 0x1F90); (0x1FA8, 0x1FAF, 1, 0x1FA0);
   (0x1FB8, 0x1FB9, 1, 0x1FB0); (0x1FBA, 0x1FBB, 1, 0x1F70);
   (0x1FBC, 0x1FBC, 1, 0x1FB3); (0x1FC8, 0x1FCB, 1, 0x1F72);
   (0x1FCC, 0x1FCC, 1, 0x1FC3); (0x1FD8, 0x1FD9, 1, 0x1FD0);
   (0x1FDA, 0x1FDB, 1, 0x1F76); (0x1FE8, 0x1FE9, 1, 0x1FE0);
   (0x1FEA, 0x1FEB, 1, 0x1F7A); (0x1FEC, 0x1FEC, 1, 0x1FE5);
   (0x1FF8, 0x1FF9, 1, 0x1F78); (0x1FFA, 0x1FFB, 1, 0x1F7C);
   (0x1FFC, 0x1FFC, 1, 0x1FF3); (0x2126, 0x2126, 1, 0x03C9);
   (0x212A, 0x212A, 1, 0x006B); (0x212B, 0x212B, 1, 0x00E5);
   (0x2132, 0x2132, 1, 0x214E); (0x2160, 0x216F, 1, 0x2170);
   (0x2183, 0x2183, 1, 0x2184); (0x24B6, 0x24CF, 1, 0x24D0);
   (0x2C00, 0x2C2F, 1, 0x2C30); (0x2C60, 0x2C60, 1, 0x2C61);
   (0x2C62, 0x2C62, 1, 0x026B); (0x2C63, 0x2C63, 1, 0x1D7D);
   (0x2C64, 0x2C64, 1, 0x027D); (0x2C67, 0x2C6B, 2, 0x2C68);
   (0x2C6D, 0x2C6D, 1, 0x0251); (0x2C6E, 0x2C6E, 1, 0x0271);
   (0x2C6F, 0x2C6F, 1, 0x0250); (0x2C70, 0x2C70, 1, 0x0252);
   (0x2C72, 0x2C72, 1, 0x2C73); (0x2C75, 0x2C75, 1, 0x2C76);
   (0x2C7E, 0x2C7F, 1, 0x023F); (0x2C80, 0x2CE2, 2, 0x2C81);
   (0x2CEB, 0x2CED, 2, 0x2CEC); (0x2CF2, 0x2CF2, 1, 0x2CF3);
   (0xA640, 0xA66C, 2, 0xA641); (0xA680, 0xA69A, 2, 0xA681);
   (0xA722, 0xA72E, 2, 0xA723); (0xA732, 0xA76E, 2, 0xA733);
   (0xA779, 0xA77B, 2, 0xA77A); (0xA77D, 0xA77D, 1, 0x1D79);
   (0xA77E, 0xA786, 2, 0xA77F); (0xA78B, 0xA78B, 1, 0xA78C);
   (0xA78D, 0xA78D, 1, 0x0265); (0xA790, 0xA792, 2, 0xA791);
   (0xA796, 0xA7A8, 2, 0xA797); (0xA7AA, 0xA7AA, 1, 0x0266);
   (0xA7AB, 0xA7AB, 1, 0x025C); (0xA7AC, 0xA7AC, 1, 0x0261);
   (0xA7AD, 0xA7AD, 1, 0x026C); (0xA7AE, 0xA7AE, 1, 0x026A);
   (0xA7B0, 0xA7B0, 1, 0x029E); (0xA7B1, 0xA7B1, 1, 0x0287);
   (0xA7B2, 0xA7B2, 1, 0x029D); (0xA7B3, 0xA7B3, 1, 0xAB53);
   (0xA7B4, 0xA7C2, 2, 0xA7B5); (0xA7C4, 0xA7C4, 1, 0xA794);
   (0xA7C5, 0xA7C5, 1, 0x0282); (0xA7C6, 0xA7C6, 1, 0x1D8E);
   (0xA7C7, 0xA7C9, 2, 0xA7C8); (0xA7D0, 0xA7D0, 1, 0xA7D1);
   (0xA7D6, 0xA7D8, 2, 0xA7D7); (0xA7F5, 0xA7F5, 1, 0xA7F6);
   (0xFF21, 0xFF3A, 1, 0xFF41)].

(** The dotted capital I, whose lower case is i and the combining dot
    above. *)
Definition lowerSpecial : list (codeUnit * jsstring) :=
  [(0x0130, [0x0069; 0x0307])].

(** The entries of a range, one code unit at a time. *)
Definition rangeEntries (r : CaseRange) : list (codeUnit * jsstring) :=
  let '(first, last, step, image) := r in
  map (fun k => let d := step * N.of_nat k in (first + d, [image + d]))
      (seq 0 (S (N.to_nat ((last - first) / step)))).

(** A table to look code units up in. *)
Definition CaseTable : Type := FMapPositive.PositiveMap.t jsstring.

Definition tableOf (ranges : list CaseRange)
           (special : list (codeUnit * jsstring)) : CaseTable :=
  fold_left (fun table entry =>
               match fst entry with
               | 0 => table
               | Npos p => FMapPositive.PositiveMap.add p (snd entry) table
               end)
            (flat_map rangeEntries ranges ++ special)
            (FMapPositive.PositiveMap.empty jsstring).

Definition upperTable : CaseTable :=
  Eval vm_compute in tableOf upperRanges upperSpecial.

Definition lowerTable : CaseTable :=
  Eval vm_compute in tableOf lowerRanges lowerSpecial.

Definition caseImage (table : CaseTable) (c : codeUnit) : jsstring :=
  match c with
  | 0 => [c]
  | Npos p =>
    match FMapPositive.PositiveMap.find p table with
    | Some image => image
    | None => [c]
    end
  end.

Definition upperCodeUnit (c : codeUnit) : jsstring := caseImage upperTable c.
Definition lowerCodeUnit (c : codeUnit) : jsstring := caseImage lowerTable c.

Definition toUpperCase (s : jsstring) : jsstring := flat_map upperCodeUnit s.
Definition toLowerCase (s : jsstring) : jsstring := flat_map lowerCodeUnit s.

(** The code units on which [upperCodeUnit] and [lowerCodeUnit] are the
    case conversion of the code, whatever stands around them: all but
    - the capital sigma (U+03A3);
    - the first halves (U+D800..U+D83B) of the surrogate pairs of
      U+10000..U+1EFFF, where the scripts with case outside the Basic
      Multilingual Plane are;
    - the letters that have got a case partner since Unicode 14.0, and the
      places left for letters beside them: U+019B, U+0264, U+1C89..U+1C8F,
      U+A7CB..U+A7CF, U+A7D2..U+A7D5 and U+A7DA..U+A7F1. *)
Definition inCaseTables (c : codeUnit) : bool :=
  negb (c =? 0x03A3)
  && negb ((0xD800 <=? c) && (c <=? 0xD83B))
  && negb ((c =? 0x019B) || (c =? 0x0264)
           || ((0x1C89 <=? c) && (c <=? 0x1C8F))
           || ((0xA7CB <=? c) && (c <=? 0xA7CF))
           || ((0xA7D2 <=? c) && (c <=? 0xA7D5))
           || ((0xA7DA <=? c) && (c <=? 0xA7F1))).

(** The code units with an entry in a table. *)
Definition tableUnits (table : CaseTable) : list codeUnit :=
  map (fun entry => Npos (fst entry)) (FMapPositive.PositiveMap.elements table).

(* ================================================================== *)
(** * Completions and zod string schemas *)
(* ================================================================== *)

(** What a constructor call does: it returns the stored value, or throws
    [new Error(message)]. *)
Inductive Completion : Type :=
| Return (value : jsstring)
| Throw (message : jsstring).

Definition returns (c : Completion) : bool :=
  match c with Return _ => true | Throw _ => false end.

(** One check of a zod string schema ([.regex], [.email], [.min], [.max],
    [.refine]) with the message given for it. *)
Record Check : Type := mkCheck {
  passes : jsstring -> bool;
  message : jsstring
}.

(** [z.string().check1(..).check2(..)...]: zod 3 runs every check of a
    string schema on a string input, a failed check adds its issue and does
    not stop the later ones, and a [.refine] still runs after failed string
    checks; the issues come in the order of the checks. *)
Definition Schema := list Check.

Inductive SafeParseReturn : Type :=
| Success (data : jsstring)
| Failure (errors : list jsstring).

Definition issues (schema : Schema) (data : jsstring) : list jsstring :=
  map message (filter (fun c => negb (passes c data)) schema).

Definition safeParse (schema : Schema) (data : jsstring) : SafeParseReturn :=
  match issues schema data with
  | [] => Success data
  | errors => Failure errors
  end.

Definition success (r : SafeParseReturn) : bool :=
  match r with Success _ => true | Failure _ => false end.

(** [result.error.errors[0]?.message || fallback] *)
Definition firstMessage (errors : list jsstring) (fallback : jsstring)
  : jsstring :=
  match errors with
  | [] => fallback
  | [] :: _ => fallback
  | m :: _ => m
  end.

(* ================================================================== *)
(** * CPF ([src/factories/cpf.ts]) *)
(* ================================================================== *)

Module CPF.

(** A JavaScript number as the code meets it: a small integer, or [None]
    for [NaN] and [undefined] (what [parseInt] gives on a non-digit and
    what an index past the end gives). *)
Definition jsnumber := option Z.

Definition add (a b : jsnumber) : jsnumber :=
  match a, b with Some x, Some y => Some (x + y)%Z | _, _ => None end.
Definition mul (a b : jsnumber) : jsnumber :=
  match a, b with Some x, Some y => Some (x * y)%Z | _, _ => None end.
Definition rem (a b : jsnumber) : jsnumber :=
  match a, b with Some x, Some y => Some (Z.rem x y) | _, _ => None end.
(** [a === b]: never true on [NaN] or on a number against [undefined]. *)
Definition strictEq (a b : jsnumber) : bool :=
  match a, b with Some x, Some y => (x =? y)%Z | _, _ => false end.

(** [parseInt(digit, 10)] on a one-character string. *)
Definition parseInt (c : codeUnit) : jsnumber :=
  if isDigit c then Some (Z.of_N (c - 48)) else None.

(** [digits[i]] *)
Definition at_ (digits : list jsnumber) (i : nat) : jsnumber :=
  nth i digits None.

(** [/^(\d)\1{10}$/.test(cpf)]: a digit followed by ten copies of it. *)
Definition allSameDigit (cpf : jsstring) : bool :=
  match cpf with
  | [] => false
  | d :: rest => isDigit d && jsstring_eqb rest (repeat d 10)
  end.

(** [for (let i = 0; i < n; i++) soma += digits[i] * (top - i)] *)
Definition weightedSum (digits : list jsnumber) (n : nat) (top : Z)
  : jsnumber :=
  fold_left (fun soma i => add soma (mul (at_ digits i) (Some (top - Z.of_nat i)%Z)))
            (seq 0 n) (Some 0%Z).

(** [let resto = (soma * 10) % 11; if (resto === 10) resto = 0] *)
Definition resto (soma : jsnumber) : jsnumber :=
  let r := rem (mul soma (Some 10%Z)) (Some 11%Z) in
  if strictEq r (Some 10%Z) then Some 0%Z else r.

Definition validate (cpf : jsstring) : bool :=
  if allSameDigit cpf then false
  else
    let digits := map parseInt cpf in
    let resto1 := resto (weightedSum digits 9 10) in
    if negb (strictEq resto1 (at_ digits 9)) then false
    else
      let resto2 := resto (weightedSum digits 10 11) in
      strictEq resto2 (at_ digits 10).

(** [/^\d{11}$/.test(cpf)] *)
Definition elevenDigits (cpf : jsstring) : bool :=
  forallb isDigit cpf && (List.length cpf =? 11)%nat.

Definition msgDigits : jsstring :=
  Eval vm_compute in js "CPF deve conter exatamente 11 dígitos numéricos".
Definition msgInvalid : jsstring := Eval vm_compute in js "CPF inválido".

Definition schema : Schema :=
  [ mkCheck elevenDigits msgDigits; mkCheck validate msgInvalid ].

(** [cpf.replace(/\D/g, '')] *)
Definition clean (cpf : jsstring) : jsstring := filter isDigit cpf.

(** [new CPF(cpf)] *)
Definition construct (cpf : jsstring) : Completion :=
  let cleanCpf := clean cpf in
  match safeParse schema cleanCpf with
  | Failure errors => Throw (firstMessage errors msgInvalid)
  | Success _ => Return cleanCpf
  end.

(** [CPF.isValid(cpf)]; nothing inside the [try] throws on a string. *)
Definition isValid (cpf : jsstring) : bool :=
  let cleanRegistration := clean cpf in
  success (safeParse schema cleanRegistration).

(** [this.value.replace(/(\d{3})(\d{3})(\d{3})(\d{2})/, '$1.$2.$3-$4')]: the
    leftmost eleven digits in a row are written in groups; a value without
    them is returned as it is. *)
Fixpoint formatFrom (value : jsstring) : jsstring :=
  if forallb isDigit (firstn 11 value) && (11 <=? List.length value)%nat
  then firstn 3 value ++ DOT :: firstn 3 (skipn 3 value)
       ++ DOT :: firstn 3 (skipn 6 value)
       ++ HYPHEN :: firstn 2 (skipn 9 value) ++ skipn 11 value
  else
    match value with
    | [] => []
    | c :: rest => c :: formatFrom rest
    end.

(** [get formatted()] *)
Definition formatted (value : jsstring) : jsstring := formatFrom value.

(** [get raw()] *)
Definition raw (value : jsstring) : jsstring := value.

(** The stated algorithm, in the words of the specification: the digit
    values, the weighted sum with weights [top - i] over the first [n]
    digits, times ten, modulo eleven, ten mapped to zero. *)
Definition digitValues (cpf : jsstring) : list Z :=
  map (fun c => Z.of_N (c - 48)) cpf.

Fixpoint specSum (ds : list Z) (i : nat) (n : nat) (top : Z) : Z :=
  match n with
  | O => 0
  | S n' => (nth i ds 0 * (top - Z.of_nat i) + specSum ds (S i) n' top)%Z
  end.

Definition specCheckDigit (ds : list Z) (n : nat) (top : Z) : Z :=
  let r := ((specSum ds 0 n top * 10) mod 11)%Z in
  if (r =? 10)%Z then 0%Z else r.

Definition allIdentical (ds : list Z) : Prop :=
  forall i j, (i < List.length ds)%nat -> (j < List.length ds)%nat ->
              nth i ds 0%Z = nth j ds 0%Z.

Definition specValid (ds : list Z) : Prop :=
  ~ allIdentical ds
  /\ specCheckDigit ds 9 10 = nth 9 ds 0%Z
  /\ specCheckDigit ds 10 11 = nth 10 ds 0%Z.

End CPF.

(* ================================================================== *)
(** * Regular expressions *)
(* ================================================================== *)

(** The fragment the email pattern is written in: character classes,
    concatenation, alternation and iteration.  A pattern anchored by [^]
    and [$] is tested on the whole string ([matchesWhole]); a lookahead at
    the start of the string asks for a prefix ([matchesPrefix]). *)
Inductive regex : Type :=
| Void
| Eps
| Class (p : codeUnit -> bool)
| Cat (r1 r2 : regex)
| Alt (r1 r2 : regex)
| Star (r : regex).

Definition Plus (r : regex) : regex := Cat r (Star r).

(** The strings of a pattern. *)
Fixpoint lang (r : regex) (s : jsstring) : Prop :=
  match r with
  | Void => False
  | Eps => s = []
  | Class p => exists c, s = [c] /\ p c = true
  | Cat a b => exists u v, s = u ++ v /\ lang a u /\ lang b v
  | Alt a b => lang a s \/ lang b s
  | Star a => exists ws, s = List.concat ws /\ Forall (lang a) ws
  end.

(** Matching by derivatives, with the empty pattern and the empty string
    simplified away as they appear. *)
Fixpoint nullable (r : regex) : bool :=
  match r with
  | Void => false
  | Eps => true
  | Class _ => false
  | Cat a b => nullable a && nullable b
  | Alt a b => nullable a || nullable b
  | Star _ => true
  end.

Definition alt (a b : regex) : regex :=
  match a, b with
  | Void, _ => b
  | _, Void => a
  | _, _ => Alt a b
  end.

Definition cat (a b : regex) : regex :=
  match a, b with
  | Void, _ => Void
  | _, Void => Void
  | Eps, _ => b
  | _, _ => Cat a b
  end.

Fixpoint deriv (c : codeUnit) (r : regex) : regex :=
  match r with
  | Void => Void
  | Eps => Void
  | Class p => if p c then Eps else Void
  | Cat a b =>
    if nullable a then alt (cat (deriv c a) b) (deriv c b)
    else cat (deriv c a) b
  | Alt a b => alt (deriv c a) (deriv c b)
  | Star a => cat (deriv c a) (Star a)
  end.

Fixpoint matchesWhole (r : regex) (s : jsstring) : bool :=
  match s with
  | [] => nullable r
  | c :: s' => matchesWhole (deriv c r) s'
  end.

Definition anyChar : regex := Class (fun _ => true).

Definition matchesPrefix (r : regex) (s : jsstring) : bool :=
  matchesWhole (Cat r (Star anyChar)) s.

(** Every string of a pattern is made of characters of its classes. *)
Fixpoint classesWithin (P : codeUnit -> Prop) (r : regex) : Prop :=
  match r with
  | Void | Eps => True
  | Class p => forall c, p c = true -> P c
  | Cat a b | Alt a b => classesWithin P a /\ classesWithin P b
  | Star a => classesWithin P a
  end.

(* ================================================================== *)
(** * Email ([src/factories/email.ts]) *)
(* ================================================================== *)

Module Email.

(** ** zod's [z.string().email()]

    The pattern of zod 3 (3.23 and later), written here without the
    capture group that zod puts around the first class and its star:
<<
  /^(?!\.)(?!.*\.\.)[A-Z0-9_'+\-\.]*[A-Z0-9_+-]@([A-Z0-9][A-Z0-9\-]*\.)+[A-Z]{2,}$/i
>>
    Under the [i] flag (and no [u] flag) a letter class [A-Z] matches the
    fifty-two ASCII letters and no other code unit. *)
Definition isAlpha (c : codeUnit) : bool :=
  ((65 <=? c) && (c <=? 90)) || ((97 <=? c) && (c <=? 122)).
Definition isAlnum (c : codeUnit) : bool := isAlpha c || isDigit c.

(** [[A-Z0-9_'+\-\.]] *)
Definition isLocalChar (c : codeUnit) : bool :=
  isAlnum c || (c =? 95) || (c =? APOSTROPHE) || (c =? 43) || (c =? HYPHEN)
  || (c =? DOT).
(** [[A-Z0-9_+-]] *)
Definition isLocalLast (c : codeUnit) : bool :=
  isAlnum c || (c =? 95) || (c =? 43) || (c =? HYPHEN).
(** [[A-Z0-9\-]] *)
Definition isLabelChar (c : codeUnit) : bool := isAlnum c || (c =? HYPHEN).
(** [.] outside a class: anything but a line terminator. *)
Definition isNotLineTerminator (c : codeUnit) : bool :=
  negb ((c =? 10) || (c =? 13) || (c =? 8232) || (c =? 8233)).

Definition chr (c : codeUnit) : regex := Class (N.eqb c).

(** [([A-Z0-9][A-Z0-9\-]*\.)] *)
Definition labelDot : regex :=
  Cat (Class isAlnum) (Cat (Star (Class isLabelChar)) (chr DOT)).
(** [[A-Z]{2,}] *)
Definition topLevel : regex :=
  Cat (Class isAlpha) (Cat (Class isAlpha) (Star (Class isAlpha))).
(** [[A-Z0-9_'+\-\.]*[A-Z0-9_+-]] *)
Definition localPart : regex :=
  Cat (Star (Class isLocalChar)) (Class isLocalLast).
(** [([A-Z0-9][A-Z0-9\-]*\.)+[A-Z]{2,}] *)
Definition domainPart : regex := Cat (Plus labelDot) topLevel.
(** The pattern between the lookaheads and [$]. *)
Definition emailBody : regex := Cat localPart (Cat (chr AT) domainPart).
(** [\.] and [.*\.\.], the patterns of the two negative lookaheads. *)
Definition leadingDot : regex := chr DOT.
Definition twoDots : regex :=
  Cat (Star (Class isNotLineTerminator)) (Cat (chr DOT) (chr DOT)).

(** [emailRegex.test(data)] *)
Definition emailRegex (data : jsstring) : bool :=
  negb (matchesPrefix leadingDot data)
  && negb (matchesPrefix twoDots data)
  && matchesWhole emailBody data.

Definition msgInvalid : jsstring := Eval vm_compute in js "Email inválido".
Definition msgTooLong : jsstring := Eval vm_compute in js "Email não pode exceder 255 caracteres".

(** [z.string().email('Email inválido').max(255, '...')] *)
Definition schema : Schema :=
  [ mkCheck emailRegex msgInvalid;
    mkCheck (fun data => jslength data <=? 255) msgTooLong ].

(** [email.trim().toLowerCase()] *)
Definition clean (email : jsstring) : jsstring := toLowerCase (trim email).

(** [new Email(email)] *)
Definition construct (email : jsstring) : Completion :=
  let cleanEmail := clean email in
  match safeParse schema cleanEmail with
  | Failure errors => Throw (firstMessage errors msgInvalid)
  | Success _ => Return cleanEmail
  end.

(** [get raw()] and [get formatted()]: the stored value. *)
Definition raw (value : jsstring) : jsstring := value.
Definition formatted (value : jsstring) : jsstring := value.

(** [this.value.split('@')[1]] and [this.value.split('@')[0]]; [None] is
    [undefined]. *)
Definition getDomain (value : jsstring) : option jsstring :=
  nth_error (split AT value) 1.
Definition getUsername (value : jsstring) : option jsstring :=
  nth_error (split AT value) 0.

(** [this.getDomain().toLowerCase() === domain.toLowerCase()]; [None] is
    the [TypeError] of calling [toLowerCase] on [undefined], when the value
    has no commercial at. *)
Definition hasDomain (value domain : jsstring) : option bool :=
  match getDomain value with
  | Some d => Some (jsstring_eqb (toLowerCase d) (toLowerCase domain))
  | None => None
  end.

(** [Email.isValid(email)]; nothing inside the [try] throws on a string. *)
Definition isValid (email : jsstring) : bool :=
  let cleanEmail := clean email in
  success (safeParse schema cleanEmail).

(** The pattern read as a grammar: the string does not start with a dot,
    no two dots follow each other (after characters of one line), and the
    whole string is a local part, a commercial at and a domain. *)
Definition grammar (s : jsstring) : Prop :=
  (forall rest, s <> DOT :: rest)
  /\ (forall before rest,
        Forall (fun c => isNotLineTerminator c = true) before ->
        s <> before ++ DOT :: DOT :: rest)
  /\ lang emailBody s.

(** The shape the specification names: a non-empty local part, a
    commercial at, a domain with a dot in it. *)
Definition specShape (s : jsstring) : Prop :=
  exists local domain,
    s = local ++ AT :: domain /\ local <> [] /\ In DOT domain.

End Email.

(* ================================================================== *)
(** * FullName ([src/factories/full-name.ts]) *)
(* ================================================================== *)

Module FullName.

(** [[a-zA-ZÀ-ÖØ-öø-ÿ]] *)
Definition isLetter (c : codeUnit) : bool :=
  ((97 <=? c) && (c <=? 122)) || ((65 <=? c) && (c <=? 90))
  || ((192 <=? c) && (c <=? 214)) || ((216 <=? c) && (c <=? 246))
  || ((248 <=? c) && (c <=? 255)).

(** [[a-zA-ZÀ-ÖØ-öø-ÿ'-]] *)
Definition isNameChar (c : codeUnit) : bool :=
  isLetter c || (c =? APOSTROPHE) || (c =? HYPHEN).

(** [/^[a-zA-ZÀ-ÖØ-öø-ÿ]/.test(word)] *)
Definition startsWithLetter (word : jsstring) : bool :=
  match word with
  | [] => false
  | c :: _ => isLetter c
  end.

(** [/^[a-zA-ZÀ-ÖØ-öø-ÿ'-]+$/.test(word)] *)
Definition onlyNameChars (word : jsstring) : bool :=
  match word with
  | [] => false
  | _ => forallb isNameChar word
  end.

Definition validSingleCharWords : list jsstring :=
  Eval vm_compute in [js "e"; js "o"; js "a"; js "à"; js "é"].

Definition lowerCaseWords : list jsstring :=
  Eval vm_compute in
  [js "de"; js "da"; js "do"; js "das"; js "dos"; js "e"; js "o"; js "a";
   js "os"; js "as"; js "em"; js "com"].

(** [list.includes(word)] on strings *)
Definition includesWord (list : list jsstring) (word : jsstring) : bool :=
  existsb (jsstring_eqb word) list.

(** The [for (const word of words)] loop of [validate]. *)
Fixpoint checkWords (words : list jsstring) : bool :=
  match words with
  | [] => true
  | word :: rest =>
    if (List.length word =? 1)%nat
       && negb (includesWord validSingleCharWords (toLowerCase word))
    then false
    else if negb (startsWithLetter word) then false
    else if negb (onlyNameChars word) then false
    else checkWords rest
  end.

Definition validate (name : jsstring) : bool :=
  let words := splitWhiteSpace (trim name) in
  if (List.length words <? 2)%nat then false
  else checkWords words.

(** [capitalizeWord] calls itself on the pieces between hyphens and on what
    follows the first apostrophe; every such call is on a strictly shorter
    word, and [fuel] bounds the depth of the calls. *)
Fixpoint capitalizeWordFuel (fuel : nat) (word : jsstring) : jsstring :=
  match fuel with
  | O => word
  | S fuel' =>
    if includes HYPHEN word
    then join HYPHEN (map (capitalizeWordFuel fuel') (split HYPHEN word))
    else if includes APOSTROPHE word
    then
      let apostropheIndex := indexOf APOSTROPHE word in
      let firstPart := substringTo (apostropheIndex + 1) word in
      let secondPart := substringFrom (apostropheIndex + 1) word in
      if (0 <? List.length secondPart)%nat
      then firstPart ++ capitalizeWordFuel fuel' secondPart
      else firstPart
    else toUpperCase (charAt0 word) ++ toLowerCase (substringFrom 1 word)
  end.

Definition capitalizeWord (word : jsstring) : jsstring :=
  capitalizeWordFuel (S (List.length word)) word.

(** The callback of [words.map((word, index) => ...)]. *)
Definition processWord (index : nat) (word : jsstring) : jsstring :=
  if (index =? 0)%nat then capitalizeWord word
  else if includesWord lowerCaseWords (toLowerCase word) then toLowerCase word
  else capitalizeWord word.

Fixpoint mapIndexed (f : nat -> jsstring -> jsstring) (index : nat)
         (words : list jsstring) : list jsstring :=
  match words with
  | [] => []
  | word :: rest => f index word :: mapIndexed f (S index) rest
  end.

Definition normalizeName (name : jsstring) : jsstring :=
  let trimmedName := collapseWhiteSpace (trim name) in
  let words := split SPACE trimmedName in
  let processedWords := mapIndexed processWord 0 words in
  join SPACE processedWords.

Definition msgMin : jsstring :=
  Eval vm_compute in js "Nome completo deve ter pelo menos 3 caracteres".
Definition msgMax : jsstring :=
  Eval vm_compute in js "Nome completo não pode exceder 100 caracteres".
Definition msgInvalid : jsstring := Eval vm_compute in js "Nome completo inválido".

(** [z.string().min(3, ..).max(100, ..).refine(validate, ..)] *)
Definition schema : Schema :=
  [ mkCheck (fun value => 3 <=? jslength value) msgMin;
    mkCheck (fun value => jslength value <=? 100) msgMax;
    mkCheck validate msgInvalid ].

(** [new FullName(name)] *)
Definition construct (name : jsstring) : Completion :=
  let cleanName := normalizeName name in
  match safeParse schema cleanName with
  | Failure errors => Throw (firstMessage errors msgInvalid)
  | Success _ => Return cleanName
  end.

(** [get raw()] and [get formatted()]: the stored value. *)
Definition raw (value : jsstring) : jsstring := value.
Definition formatted (value : jsstring) : jsstring := value.

(** [this.value.split(' ')[0]] *)
Definition getFirstName (value : jsstring) : jsstring :=
  hd [] (split SPACE value).

(** [parts[parts.length - 1]] with [parts = this.value.split(' ')] *)
Definition getLastName (value : jsstring) : jsstring :=
  let parts := split SPACE value in
  last parts [].

(** [FullName.isValid(name)]; nothing inside the [try] throws on a
    string. *)
Definition isValid (name : jsstring) : bool :=
  let cleanName := normalizeName name in
  success (safeParse schema cleanName).

End FullName.

(* ================================================================== *)
(** * EmployeeStatus *)
(* ================================================================== *)

Module EmployeeStatus.

(** Modelled from the spec: the declaration of the [EmployeeStatus]
    enumeration is not among the source files (only [readme.md] shows its
    five members in use); section 4.4 of the specification gives the
    members and their display labels. *)
Inductive t : Type :=
| NORMAL
| VACATION
| DISMISSED
| TRANSFERRED
| LEAVE.

(** Modelled from the spec: the label of each member (section 4.4). *)
Definition label (s : t) : jsstring :=
  match s with
  | NORMAL => js "Normal"
  | VACATION => js "Férias"
  | DISMISSED => js "Demitido"
  | TRANSFERRED => js "Transferido"
  | LEAVE => js "Afastado"
  end.

Definition members : list t :=
  [NORMAL; VACATION; DISMISSED; TRANSFERRED; LEAVE].

End EmployeeStatus.

(* ================================================================== *)
(** * Segments of a name *)
(* ================================================================== *)






Definition isAsciiLower (c : codeUnit) : bool := (97 <=? c) && (c <=? 122).


(** Words as [normalizeName] leaves them: not empty, no white space. *)
Definition noWhiteSpace (w : jsstring) : Prop :=
  Forall (fun c => isWhiteSpace c = false) w.

Definition goodWords (ws : list jsstring) : Prop :=
  Forall (fun w => w <> [] /\ noWhiteSpace w) ws.

(** Boolean tests on code units as arithmetic facts, in the hypotheses. *)
Ltac bool_arith :=
  repeat match goal with
         | H : _ |- _ =>
           first [ rewrite andb_true_iff in H | rewrite andb_false_iff in H
                 | rewrite orb_true_iff in H | rewrite orb_false_iff in H
                 | rewrite negb_true_iff in H | rewrite negb_false_iff in H
                 | rewrite N.leb_le in H | rewrite N.leb_gt in H
                 | rewrite N.eqb_eq in H | rewrite N.eqb_neq in H ]
         end.

(** The characters of the classes of the email pattern. *)
Definition isEmailChar (c : codeUnit) : bool := Email.isLocalChar c || (c =? AT).

(** The characters of a stored email address: the lower-case ASCII
    letters, the digits, and [_ ' + - . @]. *)
Definition isStoredEmailChar (c : codeUnit) : bool :=
  isAsciiLower c || isDigit c || (c =? 95) || (c =? APOSTROPHE) || (c =? 43)
  || (c =? HYPHEN) || (c =? DOT) || (c =? AT).

(* ================================================================== *)
(** * What [capitalizeWord] does to a piece, in one step *)
(* ================================================================== *)

(** A piece of a word, between two hyphens, falls in two parts at its last
    apostrophe: [keptPart] runs up to and including that apostrophe (it is
    empty when the piece has no apostrophe), [capitalizedPart] is what
    follows. *)
Fixpoint keptPart (piece : jsstring) : jsstring :=
  match piece with
  | [] => []
  | c :: rest => if includes APOSTROPHE piece then c :: keptPart rest else []
  end.

Fixpoint capitalizedPart (piece : jsstring) : jsstring :=
  match piece with
  | [] => []
  | c :: rest => if includes APOSTROPHE piece then capitalizedPart rest else piece
  end.

(** The last line of [capitalizeWord]:
    [word.charAt(0).toUpperCase() + word.slice(1).toLowerCase()]. *)
Definition capitalizePlain (part : jsstring) : jsstring :=
  toUpperCase (charAt0 part) ++ toLowerCase (substringFrom 1 part).

(** The kept part as typed, the other part capitalised. *)
Definition capitalizePiece (piece : jsstring) : jsstring :=
  keptPart piece ++ capitalizePlain (capitalizedPart piece).

(** The first character of the capitalised part of every piece of every
    word of a name: the characters [normalizeName] puts in upper case
    (but for the connectors after the first word, which it puts in lower
    case, and which are ASCII letters). *)
Definition capitalizedHeads (name : jsstring) : list codeUnit :=
  flat_map (fun word =>
              flat_map (fun piece => charAt0 (capitalizedPart piece))
                       (split HYPHEN word))
           (splitWhiteSpace (trim name)).

(** The characters whose upper case is two or three letters, so that
    capitalising their upper case lowers all of it but the first: the
    sharp s (SS), the n preceded by an apostrophe (U+0149), the Armenian
    ech-yiwn (U+0587), the Greek vowels with iota subscript
    (U+1F80..U+1FAF, U+1FB2..U+1FFC), the Latin ligatures U+FB00..U+FB06
    (FF, FI, FL, FFI, FFL, ST, ST) and the Armenian ones U+FB13..U+FB17.
    The characters whose upper case is one letter followed by combining
    marks (U+01F0, U+0390, U+1E96, ...) are not among them. *)
Definition growingLetters : list codeUnit :=
  [0x00DF; 0x0149; 0x0587]
  ++ map (fun k => 0x1F80 + N.of_nat k) (seq 0 48)
  ++ [0x1FB2; 0x1FB3; 0x1FB4; 0x1FB7; 0x1FBC; 0x1FC2; 0x1FC3; 0x1FC4; 0x1FC7;
      0x1FCC; 0x1FF2; 0x1FF3; 0x1FF4; 0x1FF7; 0x1FFC]
  ++ map (fun k => 0xFB00 + N.of_nat k) (seq 0 7)
  ++ map (fun k => 0xFB13 + N.of_nat k) (seq 0 5).

Definition growsInUpperCase (c : codeUnit) : bool :=
  existsb (N.eqb c) growingLetters.

(** A name with such a character at the head of a capitalised part. *)
Definition growingCapital (name : jsstring) : bool :=
  existsb growsInUpperCase (capitalizedHeads name).

(** The code units the facts about the case tables are checked on one by
    one; every other code unit is its own upper and lower case. *)
Definition knownUnits : list codeUnit :=
  Eval vm_compute in
  map N.of_nat (seq 0 256) ++ tableUnits upperTable ++ tableUnits lowerTable.

(** [l] starts one of the connectors of [normalizeName]. *)
Definition startsConnector (l : jsstring) : bool :=
  existsb (fun w => jsstring_eqb (firstn (List.length l) w) l)
          FullName.lowerCaseWords.

(** What the proofs use of the case tables, as tests on one code unit. *)
Definition lowerFixed (c : codeUnit) : bool :=
  jsstring_eqb (toLowerCase (lowerCodeUnit c)) (lowerCodeUnit c).

Definition capitalFixed (c : codeUnit) : bool :=
  Bool.eqb (jsstring_eqb (capitalizePlain (upperCodeUnit c)) (upperCodeUnit c))
           (negb (growsInUpperCase c)).

Definition connectorSafe (c : codeUnit) : bool :=
  jsstring_eqb (toLowerCase (upperCodeUnit c)) (lowerCodeUnit c)
  || negb (startsConnector (toLowerCase (upperCodeUnit c))).

Definition imagesAreLetters (c : codeUnit) : bool :=
  negb (jsstring_eqb (upperCodeUnit c) [])
  && negb (jsstring_eqb (lowerCodeUnit c) [])
  && forallb (fun d => (d =? c) || (65 <=? d))
             (upperCodeUnit c ++ lowerCodeUnit c).

(** A code unit outside [inCaseTables] is no white space, and leaves a
    character that is no part of a name, whether it is kept, raised or
    lowered. *)
Definition outsideLeavesTrace (c : codeUnit) : bool :=
  inCaseTables c
  || (negb (FullName.isNameChar c) && negb (isWhiteSpace c)
      && existsb (fun d => negb (FullName.isNameChar d)) (upperCodeUnit c)
      && existsb (fun d => negb (FullName.isNameChar d)) (lowerCodeUnit c)).

Example js_latin1 : js "João é ÿ" = [74; 111; 227; 111; 32; 233; 32; 255].
Proof. reflexivity. Qed.

Example cpf_known_valid :
  map CPF.construct [js "529.982.247-25"; js "111.444.777-35"; js "053.125.853-00"]
  = map Return [js "52998224725"; js "11144477735"; js "05312585300"].
Proof. vm_compute. reflexivity. Qed.

Example cpf_known_invalid :
  map CPF.construct [js "111.111.111-11"; js "123.456.789-01"; js "12345"]
  = map Throw [CPF.msgInvalid; CPF.msgInvalid; CPF.msgDigits].
Proof. vm_compute. reflexivity. Qed.


Example email_tests :
  map Email.construct
      [js "teste@exemplo.com"; js "teste.nome+tag-123@exemplo.com";
       js "Teste@Exemplo.Com"; js "  teste@exemplo.com  "; js "exemplo@s.exemplo";
       js "testesememail.com"; js "teste@"; js "@exemplo.com"; js "teste@exemplo"; js ""]
  = [Return (js "teste@exemplo.com"); Return (js "teste.nome+tag-123@exemplo.com");
     Return (js "teste@exemplo.com"); Return (js "teste@exemplo.com");
     Return (js "exemplo@s.exemplo");
     Throw Email.msgInvalid; Throw Email.msgInvalid; Throw Email.msgInvalid;
     Throw Email.msgInvalid; Throw Email.msgInvalid].
Proof. vm_compute. reflexivity. Qed.

Example email_accessors :
  Email.getDomain (js "teste@exemplo.com") = Some (js "exemplo.com")
  /\ Email.getUsername (js "usuario.teste@dominio.com.br") = Some (js "usuario.teste")
  /\ Email.hasDomain (js "teste@exemplo.com") (js "exemplo.COM") = Some true
  /\ Email.hasDomain (js "teste@exemplo.com") (js "outro.com") = Some false.
Proof. vm_compute. repeat split. Qed.

Example fullName_tests :
  map FullName.construct
      [js "João Silva"; js "maria DA silva"; js "Antonio DE Oliveira DOS Santos";
       js "de souza pereira"; js "  Ana   Paula  Souza  "; js "João-Carlos Silva";
       js "Maria D'Alessandro"; js "Jean-Claude O'Donnell"; js "Pedro Silva e Souza"]
  = map Return
      [js "João Silva"; js "Maria da Silva"; js "Antonio de Oliveira dos Santos";
       js "De Souza Pereira"; js "Ana Paula Souza"; js "João-Carlos Silva";
       js "Maria D'Alessandro"; js "Jean-Claude O'Donnell"; js "Pedro Silva e Souza"].
Proof. vm_compute. reflexivity. Qed.

Example fullName_failures :
  map FullName.construct
      [js "Jo"; repeat 65 101; js "João"; js "João S"; js "João Silva123";
       js "João @Silva"; js "J S"; js ""]
  = map Throw
      [FullName.msgMin; FullName.msgMax; FullName.msgInvalid; FullName.msgInvalid;
       FullName.msgInvalid; FullName.msgInvalid; FullName.msgInvalid; FullName.msgMin].
Proof. vm_compute. reflexivity. Qed.

Example fullName_accessors :
  FullName.getFirstName (js "Maria-José Silva") = js "Maria-José"
  /\ FullName.getLastName (js "José Carlos da Silva") = js "Silva".
Proof. vm_compute. split; reflexivity. Qed.

Example cpf_formatted :
  CPF.formatted (js "52998224725") = js "529.982.247-25".
Proof. vm_compute. reflexivity. Qed.

(** The case tables outside U+0000..U+00FF: Latin Extended, Greek,
    Cyrillic, a letter whose upper case is two letters. *)
Example case_tables :
  toUpperCase (js "łódź ŉ ǆ") = js "ŁÓDŹ ʼN Ǆ"
  /\ toLowerCase (js "ΑΘΗΝΑ İ") = js "αθηνα i̇"
  /\ FullName.normalizeName (js "иван   ПЕТРОВ-водкин") = js "Иван Петров-Водкин"
  /\ FullName.construct (js "ŉa") = Throw FullName.msgInvalid
  /\ FullName.construct (js "ſilva ıvan") = Return (js "Silva Ivan").
Proof. repeat split; vm_compute; reflexivity. Qed.
(* ================================================================== *)
(** * The case tables: a test on every code unit *)
(* ================================================================== *)

Lemma jsstring_eqb_eq (a b : jsstring) : jsstring_eqb a b = true <-> a = b.
Proof.
  unfold jsstring_eqb. destruct (list_eq_dec N.eq_dec a b); split; congruence.
Qed.

Lemma upperTable_eq : upperTable = tableOf upperRanges upperSpecial.
Proof. vm_compute. reflexivity. Qed.

Lemma lowerTable_eq : lowerTable = tableOf lowerRanges lowerSpecial.
Proof. vm_compute. reflexivity. Qed.

(** Every entry of the ranges and of the special mappings is the value of
    the function. *)
Lemma upperCodeUnit_entries (c : codeUnit) (image : jsstring) :
  In (c, image) (flat_map rangeEntries upperRanges ++ upperSpecial) ->
  upperCodeUnit c = image.
Proof.
  intros H.
  assert (forallb (fun entry => jsstring_eqb (upperCodeUnit (fst entry)) (snd entry))
                  (flat_map rangeEntries upperRanges ++ upperSpecial) = true)
    as Hall by (vm_compute; reflexivity).
  rewrite forallb_forall in Hall. apply jsstring_eqb_eq. exact (Hall _ H).
Qed.

Lemma lowerCodeUnit_entries (c : codeUnit) (image : jsstring) :
  In (c, image) (flat_map rangeEntries lowerRanges ++ lowerSpecial) ->
  lowerCodeUnit c = image.
Proof.
  intros H.
  assert (forallb (fun entry => jsstring_eqb (lowerCodeUnit (fst entry)) (snd entry))
                  (flat_map rangeEntries lowerRanges ++ lowerSpecial) = true)
    as Hall by (vm_compute; reflexivity).
  rewrite forallb_forall in Hall. apply jsstring_eqb_eq. exact (Hall _ H).
Qed.

Lemma knownUnits_eq :
  knownUnits
  = map N.of_nat (seq 0 256) ++ tableUnits upperTable ++ tableUnits lowerTable.
Proof. vm_compute. reflexivity. Qed.

Lemma caseImage_cases (table : CaseTable) (c : codeUnit) :
  In c (tableUnits table) \/ caseImage table c = [c].
Proof.
  unfold caseImage, tableUnits. destruct c as [| p]; [right; reflexivity |].
  destruct (FMapPositive.PositiveMap.find p table) as [image |] eqn:E;
    [left | right; reflexivity].
  apply FMapPositive.PositiveMap.elements_correct in E.
  apply (in_map (fun entry => Npos (fst entry))) in E. exact E.
Qed.

Lemma untabled_grows (c : codeUnit) :
  upperCodeUnit c = [c] -> growsInUpperCase c = false.
Proof.
  intros Hu. apply not_true_iff_false. intros Hg.
  unfold growsInUpperCase in Hg. apply existsb_exists in Hg.
  destruct Hg as [g [Hin E]]. apply N.eqb_eq in E. subst g.
  assert (forallb (fun g => negb (jsstring_eqb (upperCodeUnit g) [g]))
                  growingLetters = true) as Hall
    by (vm_compute; reflexivity).
  rewrite forallb_forall in Hall. specialize (Hall c Hin).
  rewrite Hu in Hall. unfold jsstring_eqb in Hall.
  destruct (list_eq_dec N.eq_dec [c] [c]); [discriminate Hall | congruence].
Qed.

Lemma known_or_untabled (c : codeUnit) :
  In c knownUnits
  \/ (upperCodeUnit c = [c] /\ lowerCodeUnit c = [c]
      /\ growsInUpperCase c = false /\ 256 <= c).
Proof.
  rewrite knownUnits_eq. destruct (N.ltb_spec c 256) as [Hc | Hc].
  - left. apply in_or_app. left.
    rewrite <- (N2Nat.id c). apply in_map, in_seq. lia.
  - destruct (caseImage_cases upperTable c) as [Hu | Hu].
    { left. apply in_or_app. right. apply in_or_app. left. exact Hu. }
    destruct (caseImage_cases lowerTable c) as [Hl | Hl].
    { left. apply in_or_app. right. apply in_or_app. right. exact Hl. }
    right. split; [exact Hu |]. split; [exact Hl |].
    split; [apply untabled_grows; exact Hu | exact Hc].
Qed.

(** A test that holds on the code units of the tables, and on those that
    are their own upper and lower case, holds on all. *)
Lemma case_fact (P : codeUnit -> bool) :
  forallb P knownUnits = true ->
  (forall c, upperCodeUnit c = [c] -> lowerCodeUnit c = [c] ->
             growsInUpperCase c = false -> 256 <= c -> P c = true) ->
  forall c, P c = true.
Proof.
  intros Hk Hu c. destruct (known_or_untabled c) as [Hin | [H1 [H2 [H3 H4]]]].
  - rewrite forallb_forall in Hk. auto.
  - auto.
Qed.
(* ================================================================== *)
(** * CPF: the check digits *)
(* ================================================================== *)

Lemma isDigit_bounds (c : codeUnit) : isDigit c = true <-> 48 <= c <= 57.
Proof.
  unfold isDigit. rewrite andb_true_iff, !N.leb_le. tauto.
Qed.

Lemma clean_digits (cpf : jsstring) : Forall (fun c => isDigit c = true) (CPF.clean cpf).
Proof.
  unfold CPF.clean. apply Forall_forall. intros c Hc.
  apply filter_In in Hc. tauto.
Qed.

Lemma digitValues_length (s : jsstring) :
  List.length (CPF.digitValues s) = List.length s.
Proof. unfold CPF.digitValues. apply length_map. Qed.

Lemma digitValues_nonneg (s : jsstring) :
  Forall (fun d => (0 <= d)%Z) (CPF.digitValues s).
Proof.
  unfold CPF.digitValues. apply Forall_forall. intros d Hd.
  apply in_map_iff in Hd. destruct Hd as [c [<- _]]. lia.
Qed.

Lemma parseInt_digits (s : jsstring) :
  Forall (fun c => isDigit c = true) s ->
  map CPF.parseInt s = map Some (CPF.digitValues s).
Proof.
  induction 1 as [| c s Hc _ IH]; [reflexivity |].
  cbn [map CPF.digitValues]. unfold CPF.parseInt at 1. rewrite Hc.
  f_equal. exact IH.
Qed.

Lemma at_Some (ds : list Z) (i : nat) :
  (i < List.length ds)%nat -> CPF.at_ (map Some ds) i = Some (nth i ds 0%Z).
Proof.
  intros Hi. unfold CPF.at_.
  rewrite (nth_indep _ None (Some 0%Z)) by (rewrite length_map; exact Hi).
  apply (map_nth Some).
Qed.

Lemma fold_weighted (ds : list Z) (top : Z) (n i : nat) (a : Z) :
  (i + n <= List.length ds)%nat ->
  fold_left
    (fun soma k =>
       CPF.add soma (CPF.mul (CPF.at_ (map Some ds) k) (Some (top - Z.of_nat k)%Z)))
    (seq i n) (Some a)
  = Some (a + CPF.specSum ds i n top)%Z.
Proof.
  revert i a. induction n as [| n IH]; intros i a Hlen.
  - cbn. f_equal. lia.
  - cbn [seq fold_left CPF.specSum]. rewrite at_Some by lia.
    cbn [CPF.mul CPF.add]. rewrite IH by lia. f_equal. lia.
Qed.

Lemma weightedSum_spec (ds : list Z) (n : nat) (top : Z) :
  (n <= List.length ds)%nat ->
  CPF.weightedSum (map Some ds) n top = Some (CPF.specSum ds 0 n top).
Proof.
  intros Hn. unfold CPF.weightedSum. rewrite fold_weighted by lia. reflexivity.
Qed.

Lemma specSum_nonneg (ds : list Z) (top : Z) (n i : nat) :
  Forall (fun d => (0 <= d)%Z) ds ->
  (Z.of_nat (i + n) <= top + 1)%Z ->
  (0 <= CPF.specSum ds i n top)%Z.
Proof.
  intros Hds. revert i. induction n as [| n IH]; intros i Htop; cbn [CPF.specSum].
  - lia.
  - assert (0 <= nth i ds 0)%Z as Hd.
    { destruct (Nat.lt_ge_cases i (List.length ds)) as [Hi | Hi].
      - rewrite Forall_forall in Hds. apply Hds. apply nth_In. exact Hi.
      - rewrite nth_overflow by exact Hi. lia. }
    specialize (IH (S i)). nia.
Qed.

Lemma resto_spec (ds : list Z) (n : nat) (top : Z) :
  (0 <= CPF.specSum ds 0 n top)%Z ->
  CPF.resto (Some (CPF.specSum ds 0 n top)) = Some (CPF.specCheckDigit ds n top).
Proof.
  intros Hs. unfold CPF.resto, CPF.specCheckDigit. cbn [CPF.mul CPF.rem CPF.strictEq].
  rewrite Z.rem_mod_nonneg by lia.
  destruct (_ =? 10)%Z; reflexivity.
Qed.

Lemma repeat_of_Forall {A} (d : A) (l : list A) :
  Forall (eq d) l -> l = repeat d (List.length l).
Proof.
  induction 1 as [| x l <- _ IH]; cbn; [reflexivity | f_equal; exact IH].
Qed.

Lemma allSameDigit_spec (s : jsstring) :
  Forall (fun c => isDigit c = true) s -> List.length s = 11%nat ->
  (CPF.allSameDigit s = true <-> CPF.allIdentical (CPF.digitValues s)).
Proof.
  intros Hdig Hlen. destruct s as [| d rest]; [discriminate |].
  cbn in Hlen. injection Hlen as Hlen.
  inversion Hdig as [| ? ? Hd Hrest]; subst.
  unfold CPF.allSameDigit. rewrite Hd. cbn [andb].
  unfold jsstring_eqb. destruct (list_eq_dec _ _ _) as [E | NE]; split;
    try discriminate; try reflexivity.
  - intros _ i j Hi Hj. rewrite E.
    change (CPF.digitValues (d :: repeat d 10))
      with (CPF.digitValues (repeat d 11)).
    unfold CPF.digitValues. rewrite map_repeat.
    rewrite digitValues_length in Hi, Hj. cbn [List.length] in Hi, Hj.
    rewrite !nth_repeat_lt by lia. reflexivity.
  - intros Hall. exfalso. apply NE. rewrite <- Hlen.
    apply repeat_of_Forall. apply Forall_forall. intros c Hc.
    destruct (In_nth _ _ 0 Hc) as [k [Hk Hnth]].
    specialize (Hall 0%nat (S k)).
    rewrite digitValues_length in Hall. cbn [List.length] in Hall.
    specialize (Hall ltac:(lia) ltac:(lia)).
    unfold CPF.digitValues in Hall. cbn [map nth] in Hall.
    rewrite (nth_indep _ 0%Z (Z.of_N (0 - 48))) in Hall
      by (rewrite length_map; exact Hk).
    rewrite (map_nth (fun c => Z.of_N (c - 48))) in Hall.
    rewrite Hnth in Hall.
    rewrite Forall_forall in Hrest. specialize (Hrest c Hc).
    apply isDigit_bounds in Hd, Hrest. lia.
Qed.

Lemma validate_spec (s : jsstring) :
  Forall (fun c => isDigit c = true) s -> List.length s = 11%nat ->
  (CPF.validate s = true <-> CPF.specValid (CPF.digitValues s)).
Proof.
  intros Hdig Hlen.
  pose proof (allSameDigit_spec s Hdig Hlen) as Hsame.
  pose proof (digitValues_length s) as Hl. rewrite Hlen in Hl.
  pose proof (digitValues_nonneg s) as Hnn.
  unfold CPF.validate, CPF.specValid.
  rewrite (parseInt_digits s Hdig).
  rewrite !weightedSum_spec by lia.
  rewrite !resto_spec by (apply specSum_nonneg; [exact Hnn | cbn; lia]).
  rewrite !at_Some by lia. cbn [CPF.strictEq].
  destruct (CPF.allSameDigit s).
  - split; [discriminate |]. intros [Hno _]. exfalso. apply Hno, Hsame. reflexivity.
  - assert (~ CPF.allIdentical (CPF.digitValues s)) as Hno.
    { intros H. apply Hsame in H. discriminate. }
    destruct (Z.eqb_spec (CPF.specCheckDigit (CPF.digitValues s) 9 10)
                         (nth 9 (CPF.digitValues s) 0%Z)) as [E1 | N1]; cbn [negb].
    + rewrite Z.eqb_eq. tauto.
    + split; [discriminate | tauto].
Qed.

Lemma elevenDigits_clean (cpf : jsstring) :
  CPF.elevenDigits (CPF.clean cpf) = (List.length (CPF.clean cpf) =? 11)%nat.
Proof.
  unfold CPF.elevenDigits.
  replace (forallb isDigit (CPF.clean cpf)) with true; [reflexivity |].
  symmetry. apply forallb_forall. intros c Hc.
  apply filter_In in Hc. tauto.
Qed.

(** C1. For every input whose digits (what is left after stripping the
    non-digits) are eleven, [new CPF] succeeds, storing those digits,
    exactly when the digits are not all identical, the first check digit
    ((sum of digit[i] * (10 - i), i in 0..8) * 10 mod 11, 10 read as 0)
    equals digit[9], and the second one (weights 11 - i, i in 0..9) equals
    digit[10]. *)
Theorem CPF_construct_iff_checksum (cpf : jsstring) :
  List.length (CPF.clean cpf) = 11%nat ->
  (CPF.construct cpf = Return (CPF.clean cpf)
   <-> CPF.specValid (CPF.digitValues (CPF.clean cpf))).
Proof.
  intros Hlen.
  rewrite <- (validate_spec _ (clean_digits cpf) Hlen).
  unfold CPF.construct, safeParse, issues, CPF.schema.
  cbn [filter passes]. rewrite elevenDigits_clean, Hlen. cbn [Nat.eqb negb].
  destruct (CPF.validate (CPF.clean cpf)); cbn.
  - tauto.
  - split; discriminate.
Qed.

Lemma CPF_construct_iff_checksum_witness :
  CPF.construct (js "529.982.247-25") = Return (js "52998224725")
  /\ CPF.specValid (CPF.digitValues (js "52998224725")).
Proof.
  assert (List.length (CPF.clean (js "529.982.247-25")) = 11%nat) as Hlen
    by reflexivity.
  pose proof (CPF_construct_iff_checksum (js "529.982.247-25") Hlen) as H.
  split.
  - vm_compute. reflexivity.
  - apply (proj1 H). vm_compute. reflexivity.
Defined.

(* ================================================================== *)
(** * Schemas: what a constructor does with the outcome of the checks *)
(* ================================================================== *)

Lemma success_iff_no_issue (schema : Schema) (data : jsstring) :
  success (safeParse schema data) = true <-> issues schema data = [].
Proof.
  unfold safeParse. destruct (issues schema data); cbn; split; congruence.
Qed.

Lemma safeParse_success_all (schema : Schema) (data : jsstring) :
  success (safeParse schema data) = forallb (fun c => passes c data) schema.
Proof.
  unfold safeParse, issues.
  induction schema as [| c schema IH]; [reflexivity |].
  cbn [filter forallb]. destruct (passes c data); cbn [negb andb].
  - exact IH.
  - reflexivity.
Qed.

(** C2. For every input string and each of the three value types, the
    static predicate [isValid] answers [true] exactly when the constructor
    returns, that is, does not throw. *)
Theorem isValid_agrees_with_constructor (x : jsstring) :
  CPF.isValid x = returns (CPF.construct x)
  /\ Email.isValid x = returns (Email.construct x)
  /\ FullName.isValid x = returns (FullName.construct x).
Proof.
  unfold CPF.isValid, CPF.construct, Email.isValid, Email.construct,
    FullName.isValid, FullName.construct.
  repeat split.
  - destruct (safeParse CPF.schema (CPF.clean x)); reflexivity.
  - destruct (safeParse Email.schema (Email.clean x)); reflexivity.
  - destruct (safeParse FullName.schema (FullName.normalizeName x)); reflexivity.
Qed.

(* ================================================================== *)
(** * Email: the messages of a failed construction *)
(* ================================================================== *)

Lemma Email_construct_cases (x : jsstring) :
  Email.construct x =
  if negb (Email.emailRegex (Email.clean x)) then Throw Email.msgInvalid
  else if 255 <? jslength (Email.clean x) then Throw Email.msgTooLong
  else Return (Email.clean x).
Proof.
  unfold Email.construct, safeParse, issues, Email.schema.
  cbn [filter passes]. rewrite N.ltb_antisym.
  destruct (Email.emailRegex (Email.clean x));
    destruct (jslength (Email.clean x) <=? 255); reflexivity.
Qed.

(** C3, as the code has it. A failed [new Email] throws [Email inválido]
    when the normalised input does not match the email pattern, whatever
    its length, and [Email não pode exceder 255 caracteres] when it matches
    the pattern and is longer than 255 characters; it throws nothing
    else. *)
Theorem Email_failure_messages (x : jsstring) :
  match Email.construct x with
  | Return v => v = Email.clean x
  | Throw m =>
    (Email.emailRegex (Email.clean x) = false /\ m = Email.msgInvalid)
    \/ (Email.emailRegex (Email.clean x) = true
        /\ 255 < jslength (Email.clean x) /\ m = Email.msgTooLong)
  end.
Proof.
  rewrite Email_construct_cases.
  destruct (Email.emailRegex (Email.clean x)); cbn [negb].
  - destruct (N.ltb_spec 255 (jslength (Email.clean x))).
    + right. auto.
    + reflexivity.
  - left. auto.
Qed.

(** C3, as stated, fails: an address of 256 characters that matches the
    pattern is refused with the message about the length. *)
Lemma Email_too_long_message :
  Email.construct (repeat 97 250 ++ js "@b.com") = Throw Email.msgTooLong
  /\ Email.msgTooLong <> Email.msgInvalid.
Proof.
  split.
  - vm_compute. reflexivity.
  - vm_compute. discriminate.
Qed.

(* ================================================================== *)
(** * EmployeeStatus *)
(* ================================================================== *)

(** C4. [EmployeeStatus] has exactly the five members NORMAL, VACATION,
    DISMISSED, TRANSFERRED and LEAVE, with the labels Normal, Férias,
    Demitido, Transferido and Afastado; a member is known by its label. *)
Theorem EmployeeStatus_members_labels :
  (forall s : EmployeeStatus.t, In s EmployeeStatus.members)
  /\ NoDup EmployeeStatus.members
  /\ map EmployeeStatus.label EmployeeStatus.members
     = [js "Normal"; js "Férias"; js "Demitido"; js "Transferido"; js "Afastado"]
  /\ (forall a b, EmployeeStatus.label a = EmployeeStatus.label b -> a = b).
Proof.
  repeat split.
  - intros []; cbn; tauto.
  - unfold EmployeeStatus.members.
    repeat (constructor; [cbn; intuition discriminate |]). constructor.
  - intros [] []; vm_compute; intros H; try reflexivity; discriminate H.
Qed.

(* ================================================================== *)
(** * FullName: one word is not a name *)
(* ================================================================== *)

Lemma splitRuns_no_white_space (inRun : bool) (s : jsstring) :
  Forall (fun c => isWhiteSpace c = false) s -> splitRunsFrom inRun s = [s].
Proof.
  intros H. revert inRun.
  induction H as [| c s Hc _ IH]; intros inRun; [reflexivity |].
  cbn [splitRunsFrom]. rewrite Hc, IH. reflexivity.
Qed.

Lemma FullName_construct_cases (x : jsstring) :
  FullName.construct x =
  let n := FullName.normalizeName x in
  if jslength n <? 3 then Throw FullName.msgMin
  else if 100 <? jslength n then Throw FullName.msgMax
  else if FullName.validate n then Return n
  else Throw FullName.msgInvalid.
Proof.
  unfold FullName.construct, safeParse, issues, FullName.schema.
  cbn [filter passes]. cbv zeta. rewrite !N.ltb_antisym.
  destruct (3 <=? jslength (FullName.normalizeName x));
    destruct (jslength (FullName.normalizeName x) <=? 100);
    destruct (FullName.validate (FullName.normalizeName x)); reflexivity.
Qed.

Lemma splitRuns_not_nil (inRun : bool) (s : jsstring) :
  splitRunsFrom inRun s <> [].
Proof.
  revert inRun. induction s as [| c s IH]; intros inRun; cbn; [discriminate |].
  destruct (isWhiteSpace c).
  - destruct inRun; [apply IH | discriminate].
  - destruct (splitRunsFrom false s); discriminate.
Qed.

(** Fewer than two pieces: no white space at all. *)
Lemma splitWhiteSpace_single (s : jsstring) :
  (List.length (splitWhiteSpace s) < 2)%nat <-> noWhiteSpace s.
Proof.
  unfold splitWhiteSpace, noWhiteSpace. split.
  - induction s as [| c s IH]; intros H; [constructor |].
    cbn [splitRunsFrom] in H. destruct (isWhiteSpace c) eqn:Hc.
    + pose proof (splitRuns_not_nil true s) as Hne.
      destruct (splitRunsFrom true s); [congruence | cbn in H; lia].
    + constructor; [exact Hc |]. apply IH.
      destruct (splitRunsFrom false s); cbn in *; lia.
  - intros H. rewrite (splitRuns_no_white_space false s H). cbn. lia.
Qed.

(** C8. When the normalised form of the input has fewer than two
    white-space separated components, that is, when it is one word with no
    white space inside (or no word at all), [new FullName] throws, whatever
    the length of the word. *)
Theorem FullName_single_word_throws (x : jsstring) :
  (List.length (splitWhiteSpace (trim (FullName.normalizeName x))) < 2)%nat ->
  noWhiteSpace (trim (FullName.normalizeName x))
  /\ exists m, FullName.construct x = Throw m.
Proof.
  intros Hlen. split; [apply splitWhiteSpace_single; exact Hlen |].
  assert (FullName.validate (FullName.normalizeName x) = false) as Hval.
  { unfold FullName.validate. apply Nat.ltb_lt in Hlen. rewrite Hlen.
    reflexivity. }
  rewrite FullName_construct_cases. cbv zeta. rewrite Hval.
  destruct (_ <? 3); [eauto |]. destruct (100 <? _); eauto.
Qed.

Lemma FullName_single_word_throws_witness :
  noWhiteSpace (trim (FullName.normalizeName (js "João")))
  /\ exists m, FullName.construct (js "João") = Throw m.
Proof.
  apply (FullName_single_word_throws (js "João")).
  vm_compute. lia.
Defined.

(* ================================================================== *)
(** * Regular expressions: the matcher decides the language *)
(* ================================================================== *)

Lemma nullable_spec (r : regex) : nullable r = true <-> lang r [].
Proof.
  induction r as [| | p | a IHa b IHb | a IHa b IHb | a IHa]; cbn.
  - split; [discriminate | tauto].
  - tauto.
  - split; [discriminate |]. intros [c [H _]]. discriminate H.
  - rewrite andb_true_iff, IHa, IHb. split.
    + intros [Ha Hb]. exists [], []. auto.
    + intros [u [v [E [Ha Hb]]]]. symmetry in E.
      apply app_eq_nil in E. destruct E; subst. auto.
  - rewrite orb_true_iff, IHa, IHb. tauto.
  - split; [| reflexivity]. intros _. exists []. auto.
Qed.

Lemma lang_alt (a b : regex) (s : jsstring) :
  lang (alt a b) s <-> lang a s \/ lang b s.
Proof.
  destruct a, b; cbn; tauto.
Qed.

Lemma lang_Cat_Void_l (b : regex) (s : jsstring) : ~ lang (Cat Void b) s.
Proof. cbn. intros [u [v [_ [[] _]]]]. Qed.

Lemma lang_Cat_Void_r (a : regex) (s : jsstring) : ~ lang (Cat a Void) s.
Proof. cbn. intros [u [v [_ [_ []]]]]. Qed.

Lemma lang_Cat_Eps_l (b : regex) (s : jsstring) :
  lang (Cat Eps b) s <-> lang b s.
Proof.
  cbn. split.
  - intros [u [v [E [Hu Hv]]]]. subst. exact Hv.
  - intros H. exists [], s. auto.
Qed.

Lemma lang_cat (a b : regex) (s : jsstring) :
  lang (cat a b) s <-> lang (Cat a b) s.
Proof.
  destruct a;
    try (split; [intros [] | intros H; exact (lang_Cat_Void_l _ _ H)]);
    destruct b;
    try (split; [intros [] | intros H; exact (lang_Cat_Void_r _ _ H)]);
    try (symmetry; apply lang_Cat_Eps_l);
    reflexivity.
Qed.

Lemma lang_Cat_cons (a b : regex) (c : codeUnit) (s : jsstring) :
  lang (Cat a b) (c :: s) <->
  (lang a [] /\ lang b (c :: s))
  \/ (exists u v, s = u ++ v /\ lang a (c :: u) /\ lang b v).
Proof.
  cbn. split.
  - intros [u [v [E [Ha Hb]]]]. destruct u as [| c' u]; cbn in E.
    + subst v. left. auto.
    + injection E as -> ->. right. exists u, v. auto.
  - intros [[Ha Hb] | [u [v [E [Ha Hb]]]]].
    + exists [], (c :: s). auto.
    + exists (c :: u), v. subst s. auto.
Qed.

Lemma lang_Star_cons (a : regex) (c : codeUnit) (s : jsstring) :
  lang (Star a) (c :: s) <->
  exists u v, s = u ++ v /\ lang a (c :: u) /\ lang (Star a) v.
Proof.
  split.
  - intros [ws [E Hws]]. revert E.
    induction Hws as [| w ws Hw Hws IH]; cbn; intros E; [discriminate |].
    destruct w as [| c' w]; cbn in E.
    + apply IH. exact E.
    + injection E as -> ->. exists w, (List.concat ws). repeat split; auto.
      exists ws. auto.
  - intros [u [v [E [Ha [ws [Ev Hws]]]]]]. exists ((c :: u) :: ws). split.
    + cbn. subst. reflexivity.
    + constructor; assumption.
Qed.

Lemma deriv_spec (r : regex) (c : codeUnit) (s : jsstring) :
  lang (deriv c r) s <-> lang r (c :: s).
Proof.
  revert s.
  induction r as [| | p | a IHa b IHb | a IHa b IHb | a IHa]; intros s.
  - cbn. tauto.
  - cbn. split; [tauto | discriminate].
  - cbn [deriv]. destruct (p c) eqn:Hp; cbn.
    + split.
      * intros ->. exists c. auto.
      * intros [c' [E _]]. injection E as _ ->. reflexivity.
    + split; [tauto |]. intros [c' [E Hc']]. injection E as -> _. congruence.
  - rewrite lang_Cat_cons. cbn [deriv].
    destruct (nullable a) eqn:Hn.
    + rewrite lang_alt, lang_cat, IHb. apply nullable_spec in Hn.
      cbn [lang]. split.
      * intros [[u [v [E [Ha Hb]]]] | Hb].
        -- right. exists u, v. rewrite <- IHa. auto.
        -- left. auto.
      * intros [[_ Hb] | [u [v [E [Ha Hb]]]]].
        -- right. exact Hb.
        -- left. exists u, v. rewrite IHa. auto.
    + rewrite lang_cat. cbn [lang]. split.
      * intros [u [v [E [Ha Hb]]]]. right. exists u, v. rewrite <- IHa. auto.
      * intros [[Ha _] | [u [v [E [Ha Hb]]]]].
        -- apply nullable_spec in Ha. congruence.
        -- exists u, v. rewrite IHa. auto.
  - cbn [deriv]. rewrite lang_alt, IHa, IHb. cbn. tauto.
  - cbn [deriv]. rewrite lang_cat, lang_Star_cons. cbn [lang]. split.
    + intros [u [v [E [Ha Hs]]]]. exists u, v. rewrite <- IHa. auto.
    + intros [u [v [E [Ha Hs]]]]. exists u, v. rewrite IHa. auto.
Qed.

Lemma matchesWhole_spec (r : regex) (s : jsstring) :
  matchesWhole r s = true <-> lang r s.
Proof.
  revert r. induction s as [| c s IH]; intros r; cbn [matchesWhole].
  - apply nullable_spec.
  - rewrite IH. apply deriv_spec.
Qed.

Lemma lang_Star_anyChar (s : jsstring) : lang (Star anyChar) s.
Proof.
  exists (map (fun c => [c]) s). split.
  - induction s as [| c s IH]; cbn; [reflexivity | f_equal; exact IH].
  - apply Forall_forall. intros w Hw. apply in_map_iff in Hw.
    destruct Hw as [c [<- _]]. exists c. auto.
Qed.

Lemma matchesPrefix_spec (r : regex) (s : jsstring) :
  matchesPrefix r s = true <-> exists p rest, s = p ++ rest /\ lang r p.
Proof.
  unfold matchesPrefix. rewrite matchesWhole_spec. cbn [lang]. split.
  - intros [u [v [E [Hr _]]]]. exists u, v. auto.
  - intros [p [rest [E Hr]]]. exists p, rest.
    repeat split; auto. apply lang_Star_anyChar.
Qed.

Lemma lang_Forall (P : codeUnit -> Prop) (r : regex) (s : jsstring) :
  classesWithin P r -> lang r s -> Forall P s.
Proof.
  revert s.
  induction r as [| | p | a IHa b IHb | a IHa b IHb | a IHa]; cbn; intros s HP H.
  - destruct H.
  - subst. constructor.
  - destruct H as [c [-> Hc]]. constructor; auto.
  - destruct H as [u [v [-> [Ha Hb]]]]. apply Forall_app. split.
    + apply IHa; tauto.
    + apply IHb; tauto.
  - destruct H as [H | H]; [apply IHa | apply IHb]; tauto.
  - destruct H as [ws [-> Hws]].
    induction Hws as [| w ws Hw _ IH]; cbn; [constructor |].
    apply Forall_app. split; [apply IHa; assumption | exact IH].
Qed.

(* ================================================================== *)
(** * [split] and [join] *)
(* ================================================================== *)

Lemma split_not_nil (sep : codeUnit) (s : jsstring) : split sep s <> [].
Proof.
  destruct s as [| c s]; cbn; [discriminate |].
  destruct (c =? sep); [discriminate |].
  destruct (split sep s); discriminate.
Qed.

Lemma split_no_sep (sep : codeUnit) (s : jsstring) :
  ~ In sep s -> split sep s = [s].
Proof.
  induction s as [| c s IH]; cbn; intros H; [reflexivity |].
  destruct (N.eqb_spec c sep) as [E | _]; [tauto |].
  rewrite IH by tauto. reflexivity.
Qed.

Lemma split_app_sep (sep : codeUnit) (u v : jsstring) :
  ~ In sep u -> split sep (u ++ sep :: v) = u :: split sep v.
Proof.
  induction u as [| c u IH]; cbn; intros H.
  - rewrite N.eqb_refl. reflexivity.
  - destruct (N.eqb_spec c sep) as [E | _]; [tauto |].
    rewrite IH by tauto. reflexivity.
Qed.

Lemma join_cons (sep : codeUnit) (w : jsstring) (ws : list jsstring) :
  ws <> [] -> join sep (w :: ws) = w ++ sep :: join sep ws.
Proof. destruct ws; [congruence | reflexivity]. Qed.

Lemma join_split (sep : codeUnit) (s : jsstring) : join sep (split sep s) = s.
Proof.
  induction s as [| c s IH]; [reflexivity |]. cbn [split].
  destruct (N.eqb_spec c sep) as [-> | _].
  - rewrite join_cons by apply split_not_nil. rewrite IH. reflexivity.
  - pose proof (split_not_nil sep s) as Hne.
    destruct (split sep s) as [| w ws]; [congruence |].
    destruct ws as [| w' ws]; cbn in *; rewrite <- IH; reflexivity.
Qed.

Lemma split_join (sep : codeUnit) (ws : list jsstring) :
  ws <> [] -> Forall (fun w => ~ In sep w) ws ->
  split sep (join sep ws) = ws.
Proof.
  induction ws as [| w ws IH]; [congruence |]. intros _ Hall.
  inversion Hall as [| ? ? Hw Hws]; subst.
  destruct ws as [| w' ws].
  - cbn. apply split_no_sep. exact Hw.
  - rewrite join_cons by discriminate.
    rewrite split_app_sep by exact Hw.
    rewrite IH by (auto; discriminate). reflexivity.
Qed.

Lemma includes_In (c : codeUnit) (s : jsstring) :
  includes c s = true <-> In c s.
Proof.
  unfold includes. rewrite existsb_exists. split.
  - intros [d [Hd E]]. apply N.eqb_eq in E. subst. exact Hd.
  - intros H. exists c. split; [exact H | apply N.eqb_refl].
Qed.

Lemma includes_false (c : codeUnit) (s : jsstring) :
  includes c s = false <-> ~ In c s.
Proof.
  rewrite <- includes_In. destruct (includes c s); split; congruence.
Qed.

Lemma split_pieces_no_sep (sep : codeUnit) (s : jsstring) :
  Forall (fun w => ~ In sep w) (split sep s).
Proof.
  induction s as [| c s IH]; cbn.
  - constructor; auto.
  - destruct (N.eqb_spec c sep) as [-> | Hne].
    + constructor; auto.
    + destruct (split sep s) as [| w ws]; [repeat constructor; cbn; intuition |].
      inversion IH; subst. constructor; [| assumption].
      cbn. intros [E | Hin]; [congruence | tauto].
Qed.

Lemma indexOf_decompose (c : codeUnit) (s : jsstring) :
  In c s ->
  exists p t, s = p ++ c :: t /\ ~ In c p /\ indexOf c s = List.length p.
Proof.
  induction s as [| d s IH]; cbn; intros H; [tauto |].
  destruct (N.eqb_spec d c) as [-> | NE].
  - exists [], s. cbn. auto.
  - destruct H as [E | H]; [congruence |].
    destruct (IH H) as [p [t [-> [Hp Hi]]]].
    exists (d :: p), t. cbn. rewrite Hi. repeat split; auto.
    intros [E | Hin]; [congruence | tauto].
Qed.

Lemma indexOf_app (c : codeUnit) (p t : jsstring) :
  ~ In c p -> indexOf c (p ++ c :: t) = List.length p.
Proof.
  induction p as [| d p IH]; cbn; intros H.
  - rewrite N.eqb_refl. reflexivity.
  - destruct (N.eqb_spec d c) as [E | _]; [tauto |]. rewrite IH by tauto.
    reflexivity.
Qed.

Lemma substringTo_app (c : codeUnit) (p t : jsstring) :
  substringTo (List.length p + 1) (p ++ c :: t) = p ++ [c].
Proof.
  unfold substringTo. rewrite firstn_app.
  replace (List.length p + 1 - List.length p)%nat with 1%nat by lia.
  rewrite firstn_all2 by lia. reflexivity.
Qed.

Lemma substringFrom_app (c : codeUnit) (p t : jsstring) :
  substringFrom (List.length p + 1) (p ++ c :: t) = t.
Proof.
  unfold substringFrom. rewrite skipn_app.
  replace (List.length p + 1 - List.length p)%nat with 1%nat by lia.
  rewrite skipn_all2 by lia. reflexivity.
Qed.

(* ================================================================== *)
(** * Email: the pattern, the accepted addresses and the accessors *)
(* ================================================================== *)

Lemma lang_chr (c : codeUnit) (s : jsstring) : lang (Email.chr c) s <-> s = [c].
Proof.
  cbn. split.
  - intros [d [-> E]]. apply N.eqb_eq in E. subst. reflexivity.
  - intros ->. exists c. split; [reflexivity | apply N.eqb_refl].
Qed.

Lemma emailRegex_grammar (s : jsstring) :
  Email.emailRegex s = true <-> Email.grammar s.
Proof.
  unfold Email.emailRegex, Email.grammar.
  rewrite !andb_true_iff, !negb_true_iff, matchesWhole_spec.
  rewrite <- !not_true_iff_false, !matchesPrefix_spec.
  unfold Email.leadingDot, Email.twoDots.
  split.
  - intros [[H1 H2] H3]. split; [| split]; [| | exact H3].
    + intros rest E. apply H1. exists [DOT], rest. split; [exact E |].
      apply lang_chr. reflexivity.
    + intros before rest Hb E. apply H2.
      exists (before ++ [DOT; DOT]), rest. split.
      * rewrite <- app_assoc. exact E.
      * exists before, [DOT; DOT]. repeat split.
        -- exists (map (fun c => [c]) before). split.
           ++ clear. induction before as [| c b IH]; cbn;
                [reflexivity | f_equal; exact IH].
           ++ apply Forall_forall. intros w Hw. apply in_map_iff in Hw.
              destruct Hw as [c [<- Hc]]. exists c. split; [reflexivity |].
              rewrite Forall_forall in Hb. auto.
        -- exists [DOT], [DOT]. repeat split; apply lang_chr; reflexivity.
  - intros [H1 [H2 H3]]. split; [split |]; [| | exact H3].
    + intros [p [rest [E Hp]]]. apply lang_chr in Hp. subst.
      eapply H1. reflexivity.
    + intros [p [rest [E [u [v [-> [Hu [a [b [-> [Ha Hb]]]]]]]]]]].
      apply lang_chr in Ha, Hb. subst.
      apply (H2 u rest).
      * apply (lang_Forall _ (Star (Class Email.isNotLineTerminator))); [| exact Hu].
        cbn. auto.
      * rewrite <- app_assoc. reflexivity.
Qed.

Lemma localPart_no_at : classesWithin (fun c => c <> AT) Email.localPart.
Proof.
  cbn. split; intros c H E; subst; discriminate H.
Qed.

Lemma domainPart_no_at : classesWithin (fun c => c <> AT) Email.domainPart.
Proof.
  cbn. repeat split; intros c H E; subst; discriminate H.
Qed.

Lemma Forall_neq_not_In (c : codeUnit) (s : jsstring) :
  Forall (fun d => d <> c) s -> ~ In c s.
Proof.
  rewrite Forall_forall. intros H Hin. exact (H c Hin eq_refl).
Qed.

(** The parts of a string of the pattern: what stands before the one
    commercial at and what stands after it. *)
Lemma emailBody_parts (s : jsstring) :
  lang Email.emailBody s ->
  exists local domain,
    s = local ++ AT :: domain
    /\ local <> [] /\ ~ In AT local
    /\ domain <> [] /\ ~ In AT domain /\ In DOT domain.
Proof.
  intros [u [v [-> [Hu [a [d [-> [Ha Hd]]]]]]]].
  apply lang_chr in Ha. subst a.
  exists u, d. split; [reflexivity |].
  assert (In DOT d) as Hdot.
  { destruct Hd as [l [t [-> [[l1 [l2 [-> [Hl1 _]]]] _]]]].
    destruct Hl1 as [x [y [-> [_ [z [w [-> [_ Hw]]]]]]]].
    apply lang_chr in Hw. subst w.
    rewrite !in_app_iff. left. left. right. right. left. reflexivity. }
  repeat split.
  - destruct Hu as [u1 [u2 [-> [_ [c [-> _]]]]]].
    intros E. apply app_eq_nil in E. destruct E; discriminate.
  - apply Forall_neq_not_In. exact (lang_Forall _ _ _ localPart_no_at Hu).
  - intros ->. destruct Hdot.
  - apply Forall_neq_not_In. exact (lang_Forall _ _ _ domainPart_no_at Hd).
  - exact Hdot.
Qed.

Lemma Email_construct_Return (x v : jsstring) :
  Email.construct x = Return v ->
  v = Email.clean x /\ Email.emailRegex v = true /\ jslength v <= 255.
Proof.
  rewrite Email_construct_cases.
  destruct (Email.emailRegex (Email.clean x)) eqn:Hre; cbn [negb]; [| discriminate].
  destruct (N.ltb_spec 255 (jslength (Email.clean x))); [discriminate |].
  intros E. injection E as <-. auto.
Qed.

Lemma Email_value_parts (x v : jsstring) :
  Email.construct x = Return v ->
  exists local domain,
    v = local ++ AT :: domain
    /\ local <> [] /\ ~ In AT local
    /\ domain <> [] /\ ~ In AT domain /\ In DOT domain.
Proof.
  intros H. apply Email_construct_Return in H. destruct H as [_ [Hre _]].
  apply emailRegex_grammar in Hre. destruct Hre as [_ [_ Hbody]].
  apply emailBody_parts. exact Hbody.
Qed.

Lemma split_at_parts (local domain : jsstring) :
  ~ In AT local -> ~ In AT domain ->
  split AT (local ++ AT :: domain) = [local; domain].
Proof.
  intros Hl Hd. rewrite split_app_sep by exact Hl.
  rewrite split_no_sep by exact Hd. reflexivity.
Qed.

(** C6. The value stored by a successful [new Email] is a user name, a
    commercial at and a domain, where the user name has no commercial at in
    it (so the one after it is the first of the value): [getUsername]
    returns what stands before that first commercial at, [getDomain] what
    stands after it, and the two, joined by a commercial at, are [raw]. *)
Theorem Email_accessors_partition (x v : jsstring) :
  Email.construct x = Return v ->
  exists username domain,
    Email.getUsername v = Some username
    /\ Email.getDomain v = Some domain
    /\ ~ In AT username
    /\ username = firstn (indexOf AT v) v
    /\ domain = skipn (indexOf AT v + 1) v
    /\ Email.raw v = username ++ AT :: domain.
Proof.
  intros H.
  destruct (Email_value_parts x v H)
    as [local [domain [-> [_ [Hl [_ [Hd _]]]]]]].
  exists local, domain. unfold Email.getUsername, Email.getDomain, Email.raw.
  rewrite split_at_parts by assumption.
  rewrite indexOf_app by exact Hl.
  pose proof (substringTo_app AT local domain) as Hto.
  pose proof (substringFrom_app AT local domain) as Hfrom.
  unfold substringTo in Hto. unfold substringFrom in Hfrom.
  rewrite Hfrom. rewrite firstn_app, Nat.sub_diag, firstn_all. cbn [firstn].
  rewrite app_nil_r. auto 10.
Qed.

Lemma Email_accessors_partition_witness :
  exists username domain,
    Email.getUsername (js "teste@exemplo.com") = Some username
    /\ Email.getDomain (js "teste@exemplo.com") = Some domain
    /\ ~ In AT username
    /\ username = firstn (indexOf AT (js "teste@exemplo.com")) (js "teste@exemplo.com")
    /\ domain = skipn (indexOf AT (js "teste@exemplo.com") + 1) (js "teste@exemplo.com")
    /\ Email.raw (js "teste@exemplo.com") = username ++ AT :: domain.
Proof.
  apply (Email_accessors_partition (js " Teste@Exemplo.Com ")).
  vm_compute. reflexivity.
Defined.

(** C9. The value stored by a successful [new Email] has exactly one
    commercial at; [getUsername] and [getDomain] are both defined and not
    empty, and neither has a commercial at in it. *)
Theorem Email_exactly_one_at (x v : jsstring) :
  Email.construct x = Return v ->
  count_occ N.eq_dec v AT = 1%nat
  /\ exists username domain,
       Email.getUsername v = Some username
       /\ Email.getDomain v = Some domain
       /\ username <> [] /\ domain <> []
       /\ ~ In AT username /\ ~ In AT domain.
Proof.
  intros H.
  destruct (Email_value_parts x v H)
    as [local [domain [-> [Hne [Hl [Hdne [Hd _]]]]]]].
  split.
  - rewrite count_occ_app. cbn [count_occ].
    destruct (N.eq_dec AT AT) as [_ | N]; [| congruence].
    apply (count_occ_not_In N.eq_dec) in Hl, Hd. rewrite Hl, Hd. reflexivity.
  - exists local, domain. unfold Email.getUsername, Email.getDomain.
    rewrite split_at_parts by assumption. auto 10.
Qed.

Lemma Email_exactly_one_at_witness :
  count_occ N.eq_dec (js "usuario.teste@dominio.com.br") AT = 1%nat
  /\ exists username domain,
       Email.getUsername (js "usuario.teste@dominio.com.br") = Some username
       /\ Email.getDomain (js "usuario.teste@dominio.com.br") = Some domain
       /\ username <> [] /\ domain <> []
       /\ ~ In AT username /\ ~ In AT domain.
Proof.
  apply (Email_exactly_one_at (js "usuario.teste@dominio.com.br")).
  vm_compute. reflexivity.
Defined.

(** C7, as the code has it. [new Email] succeeds exactly when the trimmed,
    lower-cased input matches the email pattern of the schema and has at
    most 255 characters; a string of the pattern has a non-empty local
    part, a commercial at and a domain with a dot in it. *)
Theorem Email_construct_iff_grammar (x : jsstring) :
  (Email.construct x = Return (Email.clean x)
   <-> Email.grammar (Email.clean x) /\ jslength (Email.clean x) <= 255)
  /\ (Email.grammar (Email.clean x) -> Email.specShape (Email.clean x)).
Proof.
  split.
  - rewrite <- emailRegex_grammar, Email_construct_cases.
    destruct (Email.emailRegex (Email.clean x)); cbn [negb].
    + destruct (N.ltb_spec 255 (jslength (Email.clean x))).
      * split; [discriminate |]. intros [_ Hle]. lia.
      * split; auto.
    + split; [discriminate |]. intros [Hf _]. discriminate Hf.
  - intros [_ [_ Hbody]].
    destruct (emailBody_parts _ Hbody)
      as [local [domain [E [Hne [_ [_ [_ Hdot]]]]]]].
    exists local, domain. auto.
Qed.

Lemma Email_construct_iff_grammar_witness :
  Email.specShape (Email.clean (js " Teste@Exemplo.Com ")).
Proof.
  apply (proj2 (Email_construct_iff_grammar (js " Teste@Exemplo.Com "))).
  apply emailRegex_grammar. vm_compute. reflexivity.
Defined.

(** C7, as stated, fails: [a@b.c] has a non-empty local part, a commercial
    at and a domain with a dot in it, and five characters, and [new Email]
    refuses it (the last label of a domain has two letters or more). *)
Lemma Email_shape_is_not_enough :
  Email.specShape (Email.clean (js "a@b.c"))
  /\ jslength (Email.clean (js "a@b.c")) <= 255
  /\ Email.construct (js "a@b.c") = Throw Email.msgInvalid.
Proof.
  split; [| split].
  - exists (js "a"), (js "b.c"). vm_compute. intuition discriminate.
  - vm_compute. discriminate.
  - vm_compute. reflexivity.
Qed.

(* ================================================================== *)
(** * FullName: the case tables on U+0000..U+00FF *)
(* ================================================================== *)









(* ================================================================== *)
(** * FullName: what the skeleton of a word decides *)
(* ================================================================== *)









(* ================================================================== *)
(** * FullName: [capitalizeWord] returns, and its equation *)
(* ================================================================== *)

Lemma split_piece_le (sep : codeUnit) (s p : jsstring) :
  In p (split sep s) -> (List.length p <= List.length s)%nat.
Proof.
  revert p. induction s as [| c s IH]; cbn; intros p Hp.
  - destruct Hp as [<- | []]. cbn. lia.
  - destruct (c =? sep).
    + destruct Hp as [<- | Hp]; [cbn; lia |]. specialize (IH p Hp). lia.
    + destruct (split sep s) as [| w ws].
      * destruct Hp as [<- | []]. cbn. lia.
      * destruct Hp as [<- | Hp].
        -- specialize (IH w (or_introl eq_refl)). cbn. lia.
        -- specialize (IH p (or_intror Hp)). lia.
Qed.

Lemma split_piece_lt (sep : codeUnit) (s p : jsstring) :
  In sep s -> In p (split sep s) -> (List.length p < List.length s)%nat.
Proof.
  revert p. induction s as [| c s IH]; cbn; intros p Hsep Hp; [tauto |].
  destruct (N.eqb_spec c sep) as [E | NE].
  - destruct Hp as [<- | Hp]; [cbn; lia |].
    pose proof (split_piece_le sep s p Hp). lia.
  - destruct Hsep as [E | Hsep]; [congruence |].
    pose proof (split_not_nil sep s) as Hne.
    destruct (split sep s) as [| w ws].
    + congruence.
    + destruct Hp as [<- | Hp].
      * specialize (IH w Hsep (or_introl eq_refl)). cbn. lia.
      * specialize (IH p Hsep (or_intror Hp)). lia.
Qed.

(** Fuel beyond the length of the word changes nothing. *)
Lemma capitalizeWordFuel_stable (n m : nat) (w : jsstring) :
  (List.length w < n)%nat -> (List.length w < m)%nat ->
  FullName.capitalizeWordFuel n w = FullName.capitalizeWordFuel m w.
Proof.
  revert m w. induction n as [| n IH]; intros m w Hn Hm; [lia |].
  destruct m as [| m]; [lia |]. cbn [FullName.capitalizeWordFuel].
  destruct (includes HYPHEN w) eqn:Hh.
  - f_equal. apply map_ext_in. intros p Hp.
    apply includes_In in Hh.
    pose proof (split_piece_lt HYPHEN w p Hh Hp). apply IH; lia.
  - destruct (includes APOSTROPHE w) eqn:Ha; [| reflexivity].
    apply includes_In in Ha.
    destruct (indexOf_decompose _ _ Ha) as [p [t [-> [_ ->]]]].
    rewrite substringFrom_app. destruct (0 <? List.length t)%nat; [| reflexivity].
    f_equal. rewrite length_app in Hn, Hm. cbn in Hn, Hm. apply IH; lia.
Qed.

(** The recursive equation of the source. *)
Lemma capitalizeWord_eq (word : jsstring) :
  FullName.capitalizeWord word =
  if includes HYPHEN word
  then join HYPHEN (map FullName.capitalizeWord (split HYPHEN word))
  else if includes APOSTROPHE word
  then
    let apostropheIndex := indexOf APOSTROPHE word in
    let firstPart := substringTo (apostropheIndex + 1) word in
    let secondPart := substringFrom (apostropheIndex + 1) word in
    if (0 <? List.length secondPart)%nat
    then firstPart ++ FullName.capitalizeWord secondPart
    else firstPart
  else toUpperCase (charAt0 word) ++ toLowerCase (substringFrom 1 word).
Proof.
  unfold FullName.capitalizeWord at 1. cbn [FullName.capitalizeWordFuel].
  destruct (includes HYPHEN word) eqn:Hh.
  - f_equal. apply map_ext_in. intros p Hp. apply includes_In in Hh.
    pose proof (split_piece_lt HYPHEN word p Hh Hp).
    unfold FullName.capitalizeWord. apply capitalizeWordFuel_stable; lia.
  - destruct (includes APOSTROPHE word) eqn:Ha; [| reflexivity].
    cbv zeta. apply includes_In in Ha.
    destruct (indexOf_decompose _ _ Ha) as [p [t [-> [_ ->]]]].
    rewrite substringFrom_app. destruct (0 <? List.length t)%nat; [| reflexivity].
    f_equal. unfold FullName.capitalizeWord. rewrite length_app.
    cbn [List.length]. apply capitalizeWordFuel_stable; lia.
Qed.

Lemma capitalizeWord_apostrophe (p t : jsstring) :
  ~ In HYPHEN (p ++ APOSTROPHE :: t) -> ~ In APOSTROPHE p ->
  FullName.capitalizeWord (p ++ APOSTROPHE :: t) =
  p ++ APOSTROPHE :: match t with [] => [] | _ => FullName.capitalizeWord t end.
Proof.
  intros Hh Hp. rewrite capitalizeWord_eq.
  apply includes_false in Hh. rewrite Hh.
  assert (includes APOSTROPHE (p ++ APOSTROPHE :: t) = true) as ->.
  { apply includes_In. apply in_elt. }
  cbv zeta. rewrite indexOf_app by exact Hp.
  rewrite substringTo_app, substringFrom_app, <- app_assoc.
  destruct t; reflexivity.
Qed.

Lemma capitalizeWord_plain (w : jsstring) :
  ~ In HYPHEN w -> ~ In APOSTROPHE w ->
  FullName.capitalizeWord w =
  match w with [] => [] | c :: rest => upperCodeUnit c ++ toLowerCase rest end.
Proof.
  intros Hh Ha. rewrite capitalizeWord_eq.
  apply includes_false in Hh, Ha. rewrite Hh, Ha.
  destruct w as [| c rest]; [reflexivity |].
  unfold toUpperCase, charAt0, substringFrom. cbn. rewrite app_nil_r. reflexivity.
Qed.

(* ================================================================== *)
(** * FullName: pieces of a plain name are plain *)
(* ================================================================== *)




Lemma split_Forall (P : codeUnit -> Prop) (sep : codeUnit) (s : jsstring) :
  Forall P s -> Forall (Forall P) (split sep s).
Proof.
  induction 1 as [| c s Hc Hs IH]; cbn.
  - repeat constructor.
  - destruct (c =? sep); [constructor; [constructor | exact IH] |].
    destruct (split sep s) as [| w ws]; [repeat constructor; exact Hc |].
    inversion IH; subst. constructor; [constructor |]; assumption.
Qed.



(* ================================================================== *)
(** * FullName: capitalising a word twice *)
(* ================================================================== *)










(* ================================================================== *)
(** * FullName: a capitalised word is no connector *)
(* ================================================================== *)

Lemma includesWord_In (l : list jsstring) (word : jsstring) :
  FullName.includesWord l word = true <-> In word l.
Proof.
  unfold FullName.includesWord. rewrite existsb_exists. split.
  - intros [x [Hx E]]. apply jsstring_eqb_eq in E. subst. exact Hx.
  - intros H. exists word. split; [exact H | apply jsstring_eqb_eq; reflexivity].
Qed.

Lemma lowerCaseWords_letters (word : jsstring) :
  In word FullName.lowerCaseWords ->
  Forall (fun c => isAsciiLower c = true) word.
Proof.
  intros H.
  assert (forallb (forallb isAsciiLower) FullName.lowerCaseWords = true) as Hall
    by (vm_compute; reflexivity).
  rewrite forallb_forall in Hall. specialize (Hall word H).
  apply Forall_forall. rewrite forallb_forall in Hall. exact Hall.
Qed.

Lemma toLowerCase_keeps (c : codeUnit) (s : jsstring) :
  lowerCodeUnit c = [c] -> In c s -> In c (toLowerCase s).
Proof.
  intros Hc Hin. unfold toLowerCase. apply in_flat_map.
  exists c. split; [exact Hin |]. rewrite Hc. left. reflexivity.
Qed.


(* ================================================================== *)
(** * FullName: the words of a trimmed string *)
(* ================================================================== *)

(** The words [normalizeName] works on are the words [validate] sees. *)
Lemma split_collapse (inRun : bool) (s : jsstring) :
  split SPACE (collapseFrom inRun s) = splitRunsFrom inRun s.
Proof.
  revert inRun. induction s as [| c s IH]; intros inRun; [reflexivity |].
  cbn [collapseFrom splitRunsFrom]. destruct (isWhiteSpace c) eqn:Hc.
  - destruct inRun; [apply IH |]. cbn [split]. rewrite N.eqb_refl.
    rewrite IH. reflexivity.
  - cbn [split]. destruct (N.eqb_spec c SPACE) as [-> | _]; [discriminate Hc |].
    rewrite IH. reflexivity.
Qed.

Lemma splitRuns_noWhiteSpace (inRun : bool) (s : jsstring) :
  Forall noWhiteSpace (splitRunsFrom inRun s).
Proof.
  revert inRun. induction s as [| c s IH]; intros inRun; cbn.
  - repeat constructor.
  - destruct (isWhiteSpace c) eqn:Hc.
    + destruct inRun; [apply IH |]. constructor; [constructor | apply IH].
    + specialize (IH false). destruct (splitRunsFrom false s) as [| w ws].
      * repeat constructor. exact Hc.
      * inversion IH; subst. constructor; [constructor |]; assumption.
Qed.

Lemma splitRuns_nonempty (s : jsstring) (inRun : bool) :
  isWhiteSpace (last s SPACE) = false ->
  match splitRunsFrom inRun s with
  | p :: ps =>
    Forall (fun w => w <> []) ps
    /\ (inRun = true \/ isWhiteSpace (hd SPACE s) = false -> p <> [])
  | [] => False
  end.
Proof.
  revert inRun. induction s as [| c s IH]; intros inRun Hlast.
  - discriminate Hlast.
  - destruct s as [| d s].
    + cbn in Hlast. cbn. rewrite Hlast. split; [constructor | discriminate].
    + change (last (c :: d :: s) SPACE) with (last (d :: s) SPACE) in Hlast.
      remember (d :: s) as s' eqn:Es. clear Es d s.
      cbn [splitRunsFrom hd]. destruct (isWhiteSpace c) eqn:Hc.
      * specialize (IH true Hlast).
        destruct (splitRunsFrom true s') as [| p ps]; [destruct IH |].
        destruct IH as [Hps Hp]. destruct inRun.
        -- split; [exact Hps |]. intros _. apply Hp. auto.
        -- split.
           ++ constructor; [apply Hp; auto | exact Hps].
           ++ intros [H | H]; discriminate H.
      * specialize (IH false Hlast).
        destruct (splitRunsFrom false s') as [| p ps]; [destruct IH |].
        destruct IH as [Hps _]. split; [exact Hps | discriminate].
Qed.

Lemma trimStart_head (s : jsstring) :
  trimStart s = []
  \/ exists c r, trimStart s = c :: r /\ isWhiteSpace c = false.
Proof.
  induction s as [| c s IH]; cbn; [auto |].
  destruct (isWhiteSpace c) eqn:Hc; [exact IH |]. right. eauto.
Qed.

Lemma trimEnd_cons (c : codeUnit) (r : jsstring) :
  isWhiteSpace c = false -> trimEnd (c :: r) = c :: trimEnd r.
Proof.
  intros Hc. cbn. rewrite Hc. destruct (trimEnd r); reflexivity.
Qed.

Lemma trimEnd_last (s : jsstring) :
  trimEnd s = [] \/ isWhiteSpace (last (trimEnd s) SPACE) = false.
Proof.
  induction s as [| c s IH]; cbn [trimEnd]; [auto |].
  destruct (trimEnd s) as [| d t] eqn:Ht.
  - destruct (isWhiteSpace c) eqn:Hc; [auto |]. right. exact Hc.
  - right. destruct IH as [IH | IH]; [discriminate IH | exact IH].
Qed.

Lemma trim_cases (x : jsstring) :
  trim x = []
  \/ (isWhiteSpace (hd SPACE (trim x)) = false
      /\ isWhiteSpace (last (trim x) SPACE) = false).
Proof.
  unfold trim. destruct (trimStart_head x) as [-> | [c [r [-> Hc]]]]; [auto |].
  right. destruct (trimEnd_last (c :: r)) as [H | H].
  - rewrite trimEnd_cons in H by exact Hc. discriminate H.
  - split; [| exact H]. rewrite trimEnd_cons by exact Hc. exact Hc.
Qed.

Lemma words_of_trim (x : jsstring) :
  splitWhiteSpace (trim x) = [[]]
  \/ (splitWhiteSpace (trim x) <> [] /\ goodWords (splitWhiteSpace (trim x))).
Proof.
  unfold splitWhiteSpace. destruct (trim_cases x) as [-> | [Hh Hl]]; [auto |].
  right.
  pose proof (splitRuns_nonempty (trim x) false Hl) as Hne.
  pose proof (splitRuns_noWhiteSpace false (trim x)) as Hnw.
  destruct (splitRunsFrom false (trim x)) as [| p ps]; [tauto |].
  split; [discriminate |]. destruct Hne as [Hps Hp].
  inversion Hnw as [| ? ? Hnp Hnps]; subst.
  constructor; [split; auto |].
  apply Forall_forall. intros w Hw. rewrite Forall_forall in Hps, Hnps. auto.
Qed.

(* ================================================================== *)
(** * FullName: the words of a plain name are plain *)
(* ================================================================== *)





Lemma trimStart_Forall (P : codeUnit -> Prop) (s : jsstring) :
  Forall P s -> Forall P (trimStart s).
Proof.
  induction 1 as [| c s Hc Hs IH]; cbn; [constructor |].
  destruct (isWhiteSpace c); [exact IH | constructor; assumption].
Qed.

Lemma trimEnd_Forall (P : codeUnit -> Prop) (s : jsstring) :
  Forall P s -> Forall P (trimEnd s).
Proof.
  induction 1 as [| c s Hc Hs IH]; cbn; [constructor |].
  destruct (trimEnd s).
  - destruct (isWhiteSpace c); repeat constructor; assumption.
  - constructor; assumption.
Qed.



(* ================================================================== *)
(** * FullName: a normalised name is read back as its own words *)
(* ================================================================== *)

Lemma trimEnd_noWhiteSpace (w : jsstring) : noWhiteSpace w -> trimEnd w = w.
Proof.
  induction 1 as [| c w Hc _ IH]; [reflexivity |].
  rewrite trimEnd_cons by exact Hc. rewrite IH. reflexivity.
Qed.

Lemma trimEnd_app (a b : jsstring) :
  trimEnd b <> [] -> trimEnd (a ++ b) = a ++ trimEnd b.
Proof.
  intros Hb. induction a as [| c a IH]; [reflexivity |].
  cbn [app trimEnd]. rewrite IH.
  destruct (a ++ trimEnd b) eqn:E; [| reflexivity].
  apply app_eq_nil in E. tauto.
Qed.

Lemma trimEnd_join (rs : list jsstring) :
  rs <> [] -> goodWords rs ->
  trimEnd (join SPACE rs) = join SPACE rs /\ join SPACE rs <> [].
Proof.
  induction rs as [| w rs IH]; [congruence |]. intros _ Hg.
  inversion Hg as [| ? ? [Hne Hnw] Hrs]; subst.
  destruct rs as [| w' rs].
  - cbn. split; [apply trimEnd_noWhiteSpace; exact Hnw | exact Hne].
  - rewrite join_cons by discriminate.
    destruct (IH ltac:(discriminate) Hrs) as [IH1 IH2].
    assert (trimEnd (SPACE :: join SPACE (w' :: rs))
            = SPACE :: join SPACE (w' :: rs)) as E.
    { cbn [trimEnd]. rewrite IH1.
      destruct (join SPACE (w' :: rs)); [congruence | reflexivity]. }
    split.
    + rewrite trimEnd_app by (rewrite E; discriminate). rewrite E. reflexivity.
    + intros H. apply app_eq_nil in H. destruct H; discriminate.
Qed.

Lemma trimStart_join (rs : list jsstring) :
  goodWords rs -> trimStart (join SPACE rs) = join SPACE rs.
Proof.
  intros Hg. destruct rs as [| w rs]; [reflexivity |].
  inversion Hg as [| ? ? [Hne Hnw] Hrs]; subst.
  destruct w as [| c w]; [congruence |]. inversion Hnw as [| ? ? Hc _]; subst.
  destruct rs; cbn; rewrite Hc; reflexivity.
Qed.

Lemma collapse_word (inRun : bool) (w rest : jsstring) :
  noWhiteSpace w -> w <> [] ->
  collapseFrom inRun (w ++ rest) = w ++ collapseFrom false rest.
Proof.
  intros Hnw. revert inRun.
  induction Hnw as [| c w Hc Hw IH]; intros inRun Hne; [congruence |].
  cbn [app collapseFrom]. rewrite Hc. f_equal.
  destruct w as [| d w]; [reflexivity |]. apply IH. discriminate.
Qed.

Lemma collapse_join (rs : list jsstring) (inRun : bool) :
  rs <> [] -> goodWords rs ->
  collapseFrom inRun (join SPACE rs) = join SPACE rs.
Proof.
  revert inRun. induction rs as [| w rs IH]; [congruence |]. intros inRun _ Hg.
  inversion Hg as [| ? ? [Hne Hnw] Hrs]; subst.
  destruct rs as [| w' rs].
  - cbn [join]. rewrite <- (app_nil_r w) at 1.
    rewrite collapse_word by assumption. cbn. apply app_nil_r.
  - rewrite join_cons by discriminate. rewrite collapse_word by assumption.
    f_equal. cbn [collapseFrom]. change (isWhiteSpace SPACE) with true. cbn iota.
    f_equal. apply IH; [discriminate | exact Hrs].
Qed.

Lemma words_of_join (rs : list jsstring) :
  rs <> [] -> goodWords rs ->
  split SPACE (collapseWhiteSpace (trim (join SPACE rs))) = rs.
Proof.
  intros Hne Hg. unfold trim, collapseWhiteSpace.
  rewrite trimStart_join by exact Hg.
  destruct (trimEnd_join rs Hne Hg) as [-> _].
  rewrite collapse_join by assumption.
  apply split_join; [exact Hne |].
  eapply Forall_impl; [| exact Hg]. intros w [_ Hnw] Hin.
  unfold noWhiteSpace in Hnw. rewrite Forall_forall in Hnw.
  specialize (Hnw SPACE Hin). discriminate Hnw.
Qed.

(* ================================================================== *)
(** * FullName: normalising twice *)
(* ================================================================== *)





Lemma mapIndexed_not_nil (index : nat) (ws : list jsstring) :
  ws <> [] -> FullName.mapIndexed FullName.processWord index ws <> [].
Proof. destruct ws; [congruence | discriminate]. Qed.


(** C5, as stated, fails: the upper case of the sharp s is the two letters
    SS, so a word that starts with it grows by a letter when it is
    capitalised, and the second letter is lowered the next time. *)
Lemma FullName_normalize_sharp_s :
  FullName.construct (js "ßa silva") = Return (js "SSa Silva")
  /\ FullName.construct (js "SSa Silva") = Return (js "Ssa Silva")
  /\ FullName.normalizeName (FullName.normalizeName (js "ßa silva"))
     <> FullName.normalizeName (js "ßa silva").
Proof.
  split; [vm_compute; reflexivity |].
  split; [vm_compute; reflexivity |].
  vm_compute. discriminate.
Qed.

(* ================================================================== *)
(** * FullName: words at the end of a list *)
(* ================================================================== *)

Lemma join_snoc (sep : codeUnit) (ws : list jsstring) (w : jsstring) :
  ws <> [] -> join sep (ws ++ [w]) = join sep ws ++ sep :: w.
Proof.
  induction ws as [| v ws IH]; [congruence |]. intros _.
  destruct ws as [| v' ws]; [reflexivity |].
  change ((v :: v' :: ws) ++ [w]) with (v :: ((v' :: ws) ++ [w])).
  rewrite join_cons by (cbn; discriminate).
  rewrite IH by discriminate.
  rewrite (join_cons sep v (v' :: ws)) by discriminate.
  rewrite <- app_assoc. reflexivity.
Qed.

Lemma mapIndexed_snoc (f : nat -> jsstring -> jsstring) (index : nat)
      (ws : list jsstring) (w : jsstring) :
  FullName.mapIndexed f index (ws ++ [w])
  = FullName.mapIndexed f index ws ++ [f (index + List.length ws)%nat w].
Proof.
  revert index. induction ws as [| v ws IH]; intros index;
    cbn [FullName.mapIndexed app List.length].
  - rewrite Nat.add_0_r. reflexivity.
  - rewrite IH, Nat.add_succ_r. reflexivity.
Qed.


(* ================================================================== *)
(** * CPF: further properties *)
(* ================================================================== *)

Lemma clean_of_digits (s : jsstring) :
  Forall (fun c => isDigit c = true) s -> CPF.clean s = s.
Proof.
  unfold CPF.clean. induction 1 as [| c s Hc _ IH]; [reflexivity |].
  cbn [filter]. rewrite Hc, IH. reflexivity.
Qed.

Lemma CPF_construct_cases (x : jsstring) :
  CPF.construct x =
  if negb (List.length (CPF.clean x) =? 11)%nat then Throw CPF.msgDigits
  else if CPF.validate (CPF.clean x) then Return (CPF.clean x)
  else Throw CPF.msgInvalid.
Proof.
  unfold CPF.construct, safeParse, issues, CPF.schema.
  cbn [filter passes]. rewrite elevenDigits_clean.
  destruct (List.length (CPF.clean x) =? 11)%nat;
    destruct (CPF.validate (CPF.clean x)); reflexivity.
Qed.

Lemma CPF_construct_Return (x v : jsstring) :
  CPF.construct x = Return v ->
  v = CPF.clean x /\ List.length v = 11%nat /\ CPF.validate v = true.
Proof.
  rewrite CPF_construct_cases.
  destruct (Nat.eqb_spec (List.length (CPF.clean x)) 11) as [E | _];
    cbn [negb]; [| discriminate].
  destruct (CPF.validate (CPF.clean x)) eqn:Hv; [| discriminate].
  intros H. injection H as <-. auto.
Qed.

Lemma CPF_construct_eleven_digits (s : jsstring) :
  Forall (fun c => isDigit c = true) s -> List.length s = 11%nat ->
  CPF.construct s = if CPF.validate s then Return s else Throw CPF.msgInvalid.
Proof.
  intros Hd Hl. rewrite CPF_construct_cases, (clean_of_digits s Hd), Hl.
  reflexivity.
Qed.

(** X1. A string of eleven identical digits is never a CPF: the
    constructor throws [CPF inválido]. *)
Theorem CPF_identical_digits_rejected (d : codeUnit) :
  isDigit d = true -> CPF.construct (repeat d 11) = Throw CPF.msgInvalid.
Proof.
  intros Hd. apply isDigit_bounds in Hd.
  assert (d = 48 \/ d = 49 \/ d = 50 \/ d = 51 \/ d = 52 \/ d = 53 \/ d = 54
          \/ d = 55 \/ d = 56 \/ d = 57) as H by lia.
  repeat (destruct H as [-> | H]; [vm_compute; reflexivity |]).
  subst. vm_compute. reflexivity.
Qed.

Lemma CPF_identical_digits_rejected_witness :
  CPF.construct (js "77777777777") = Throw CPF.msgInvalid.
Proof.
  apply (CPF_identical_digits_rejected 55). reflexivity.
Defined.

Lemma digit_value_inj (a b : codeUnit) :
  isDigit a = true -> isDigit b = true ->
  Z.of_N (a - 48) = Z.of_N (b - 48) -> a = b.
Proof.
  intros Ha Hb E. apply isDigit_bounds in Ha, Hb. lia.
Qed.

(** X2. Changing the last digit, or the one before it, of a CPF the
    constructor accepts to another digit gives a string the constructor
    refuses with [CPF inválido]. *)
Theorem CPF_check_digit_flip (c : jsstring) (d : codeUnit) :
  CPF.construct c = Return c -> isDigit d = true ->
  (d <> nth 10 c 0 ->
   CPF.construct (firstn 10 c ++ [d]) = Throw CPF.msgInvalid)
  /\ (d <> nth 9 c 0 ->
      CPF.construct (firstn 9 c ++ d :: skipn 10 c) = Throw CPF.msgInvalid).
Proof.
  intros Hc Hd.
  destruct (CPF_construct_Return c c Hc) as [Hclean [Hlen Hval]].
  assert (Forall (fun c => isDigit c = true) c) as Hdig
    by (rewrite Hclean; apply clean_digits).
  apply (validate_spec c Hdig Hlen) in Hval. destruct Hval as [_ [H9 H10]].
  do 11 (destruct c as [| ? c]; [discriminate Hlen |]).
  destruct c; [| discriminate Hlen]. clear Hlen Hclean Hc.
  repeat match goal with
         | H : Forall _ (_ :: _) |- _ => inversion H; clear H; subst
         end.
  unfold CPF.specCheckDigit in H9, H10.
  cbn [CPF.digitValues map CPF.specSum nth] in H9, H10.
  split; intros Hne; cbn [firstn skipn app nth] in *.
  - rewrite CPF_construct_eleven_digits by (repeat constructor; assumption).
    match goal with |- context [CPF.validate ?s] =>
      destruct (CPF.validate s) eqn:Hv; [| reflexivity];
      apply (validate_spec s) in Hv; [| repeat constructor; assumption | reflexivity]
    end.
    destruct Hv as [_ [_ H10']]. unfold CPF.specCheckDigit in H10'.
    cbn [CPF.digitValues map CPF.specSum nth] in H10'.
    rewrite H10 in H10'. apply digit_value_inj in H10'; try assumption.
    congruence.
  - rewrite CPF_construct_eleven_digits by (repeat constructor; assumption).
    match goal with |- context [CPF.validate ?s] =>
      destruct (CPF.validate s) eqn:Hv; [| reflexivity];
      apply (validate_spec s) in Hv; [| repeat constructor; assumption | reflexivity]
    end.
    destruct Hv as [_ [H9' _]]. unfold CPF.specCheckDigit in H9'.
    cbn [CPF.digitValues map CPF.specSum nth] in H9'.
    rewrite H9 in H9'. apply digit_value_inj in H9'; try assumption.
    congruence.
Qed.

Lemma CPF_check_digit_flip_witness :
  CPF.construct (js "5299822472" ++ [54]) = Throw CPF.msgInvalid
  /\ CPF.construct (js "529982247" ++ 49 :: js "5") = Throw CPF.msgInvalid.
Proof.
  destruct (CPF_check_digit_flip (js "52998224725") 54) as [H1 _];
    [vm_compute; reflexivity | reflexivity |].
  destruct (CPF_check_digit_flip (js "52998224725") 49) as [_ H2];
    [vm_compute; reflexivity | reflexivity |].
  split.
  - apply H1. vm_compute. discriminate.
  - apply H2. vm_compute. discriminate.
Defined.

(** X3. For the value a successful [new CPF] stores, [formatted] writes the
    eleven digits as three groups of three and one of two, with dots and a
    hyphen between them, and [raw] is the eleven digits. *)
Theorem CPF_formatted_groups (x v : jsstring) :
  CPF.construct x = Return v ->
  CPF.raw v = CPF.clean x
  /\ CPF.formatted v =
     firstn 3 v ++ DOT :: firstn 3 (skipn 3 v)
     ++ DOT :: firstn 3 (skipn 6 v) ++ HYPHEN :: skipn 9 v.
Proof.
  intros Hc. destruct (CPF_construct_Return x v Hc) as [Hclean [Hlen _]].
  split; [exact Hclean |].
  assert (Forall (fun c => isDigit c = true) v) as Hdig
    by (rewrite Hclean; apply clean_digits).
  do 11 (destruct v as [| ? v]; [discriminate Hlen |]).
  destruct v; [| discriminate Hlen].
  repeat match goal with
         | H : Forall _ (_ :: _) |- _ => inversion H; clear H; subst
         end.
  unfold CPF.formatted. cbn [CPF.formatFrom firstn forallb].
  repeat match goal with H : isDigit _ = true |- _ => rewrite H; clear H end.
  reflexivity.
Qed.

Lemma CPF_formatted_groups_witness :
  CPF.raw (js "11144477735") = CPF.clean (js "111.444.777-35")
  /\ CPF.formatted (js "11144477735") =
     firstn 3 (js "11144477735") ++ DOT :: firstn 3 (skipn 3 (js "11144477735"))
     ++ DOT :: firstn 3 (skipn 6 (js "11144477735"))
     ++ HYPHEN :: skipn 9 (js "11144477735").
Proof.
  apply (CPF_formatted_groups (js "111.444.777-35")). vm_compute. reflexivity.
Defined.

(* ================================================================== *)
(** * FullName: what an accepted name looks like *)
(* ================================================================== *)

Lemma checkWords_Forall (words : list jsstring) :
  FullName.checkWords words = true ->
  Forall (fun word =>
            FullName.startsWithLetter word = true
            /\ FullName.onlyNameChars word = true
            /\ (List.length word = 1%nat ->
                In (toLowerCase word) FullName.validSingleCharWords))
         words.
Proof.
  induction words as [| word rest IH]; cbn [FullName.checkWords]; intros H;
    [constructor |].
  destruct (Nat.eqb_spec (List.length word) 1) as [E | NE]; cbn [andb] in H.
  - destruct (FullName.includesWord FullName.validSingleCharWords
                                    (toLowerCase word)) eqn:Hin;
      cbn [negb] in H; [| discriminate].
    destruct (FullName.startsWithLetter word) eqn:Hs; [| discriminate].
    destruct (FullName.onlyNameChars word) eqn:Ho; [| discriminate]. cbn in H.
    constructor; [| apply IH; exact H].
    split; [exact Hs | split; [exact Ho |]].
    intros _. apply includesWord_In. exact Hin.
  - destruct (FullName.startsWithLetter word) eqn:Hs; [| discriminate].
    destruct (FullName.onlyNameChars word) eqn:Ho; [| discriminate]. cbn in H.
    constructor; [| apply IH; exact H].
    split; [exact Hs | split; [exact Ho |]].
    intros E. contradiction.
Qed.

(** X4. The value a successful [new FullName] stores is the normalised
    input; it has between 3 and 100 characters and at least two
    white-space separated components, each of which starts with a letter,
    is made of letters, hyphens and apostrophes only, and, when it is a
    single character, is one of the five allowed one-letter words. *)
Theorem FullName_accepted_shape (x v : jsstring) :
  FullName.construct x = Return v ->
  v = FullName.normalizeName x
  /\ 3 <= jslength v <= 100
  /\ (2 <= List.length (splitWhiteSpace (trim v)))%nat
  /\ Forall (fun word =>
               FullName.startsWithLetter word = true
               /\ FullName.onlyNameChars word = true
               /\ (List.length word = 1%nat ->
                   In (toLowerCase word) FullName.validSingleCharWords))
            (splitWhiteSpace (trim v)).
Proof.
  rewrite FullName_construct_cases. cbv zeta.
  destruct (N.ltb_spec (jslength (FullName.normalizeName x)) 3); [discriminate |].
  destruct (N.ltb_spec 100 (jslength (FullName.normalizeName x)));
    [discriminate |].
  destruct (FullName.validate (FullName.normalizeName x)) eqn:Hv; [| discriminate].
  intros E. injection E as <-. unfold FullName.validate in Hv.
  destruct (Nat.ltb_spec
              (List.length (splitWhiteSpace (trim (FullName.normalizeName x)))) 2);
    [discriminate |].
  split; [reflexivity |]. split; [split; assumption |].
  split; [assumption |]. apply checkWords_Forall. exact Hv.
Qed.

Lemma FullName_accepted_shape_witness :
  js "Pedro Silva e Souza" = FullName.normalizeName (js "pedro  silva E souza")
  /\ 3 <= jslength (js "Pedro Silva e Souza") <= 100
  /\ (2 <= List.length (splitWhiteSpace (trim (js "Pedro Silva e Souza"))))%nat
  /\ Forall (fun word =>
               FullName.startsWithLetter word = true
               /\ FullName.onlyNameChars word = true
               /\ (List.length word = 1%nat ->
                   In (toLowerCase word) FullName.validSingleCharWords))
            (splitWhiteSpace (trim (js "Pedro Silva e Souza"))).
Proof.
  apply (FullName_accepted_shape (js "pedro  silva E souza")).
  vm_compute. reflexivity.
Defined.

(* ================================================================== *)
(** * Email: a stored value is its own normal form *)
(* ================================================================== *)

Lemma isEmailChar_ascii (c : codeUnit) : isEmailChar c = true -> c < 128.
Proof.
  unfold isEmailChar, Email.isLocalChar, Email.isAlnum, Email.isAlpha, isDigit,
    APOSTROPHE, HYPHEN, DOT, AT.
  intros H. bool_arith. lia.
Qed.

Lemma emailBody_chars : classesWithin (fun c => isEmailChar c = true) Email.emailBody.
Proof.
  unfold Email.emailBody, Email.localPart, Email.domainPart, Email.labelDot,
    Email.topLevel, Plus, Email.chr. cbn [classesWithin].
  repeat split; intros c H; apply not_false_iff_true; intros Hn;
    unfold isEmailChar, Email.isLocalChar, Email.isLocalLast, Email.isLabelChar,
      Email.isAlnum, Email.isAlpha, isDigit, APOSTROPHE, HYPHEN, DOT, AT in *;
    bool_arith; lia.
Qed.

Lemma lowerCodeUnit_no_capital (c l : codeUnit) :
  In l (lowerCodeUnit c) -> ~ (65 <= l <= 90).
Proof.
  assert (forallb (fun l => negb ((65 <=? l) && (l <=? 90))) (lowerCodeUnit c)
          = true) as H.
  { revert c.
    apply (case_fact
             (fun c => forallb (fun l => negb ((65 <=? l) && (l <=? 90)))
                               (lowerCodeUnit c))).
    - vm_compute. reflexivity.
    - intros c _ Hl _ Hge. rewrite Hl. cbn [forallb].
      rewrite andb_true_r. apply negb_true_iff. apply andb_false_iff.
      right. apply N.leb_gt. lia. }
  intros Hin Hl. rewrite forallb_forall in H. specialize (H l Hin).
  bool_arith. lia.
Qed.

Lemma lowerCodeUnit_ascii_fixed (c : codeUnit) :
  c < 128 -> ~ (65 <= c <= 90) -> lowerCodeUnit c = [c].
Proof.
  intros Hc Hn.
  assert (forallb (fun c => ((65 <=? c) && (c <=? 90))
                            || jsstring_eqb (lowerCodeUnit c) [c])
                  (map N.of_nat (seq 0 128)) = true) as Hall
    by (vm_compute; reflexivity).
  rewrite forallb_forall in Hall. specialize (Hall c).
  assert (In c (map N.of_nat (seq 0 128))) as Hin
    by (rewrite <- (N2Nat.id c); apply in_map, in_seq; lia).
  specialize (Hall Hin). apply orb_true_iff in Hall.
  destruct Hall as [E | E]; [exfalso; bool_arith; lia |].
  apply jsstring_eqb_eq. exact E.
Qed.

Lemma isEmailChar_no_white_space (c : codeUnit) :
  isEmailChar c = true -> isWhiteSpace c = false.
Proof.
  intros H. apply not_true_iff_false. intros Hw.
  unfold isEmailChar, Email.isLocalChar, Email.isAlnum, Email.isAlpha, isDigit,
    isWhiteSpace, APOSTROPHE, HYPHEN, DOT, AT in *.
  bool_arith. lia.
Qed.

Lemma toLowerCase_no_capital (s : jsstring) (l : codeUnit) :
  In l (toLowerCase s) -> ~ (65 <= l <= 90).
Proof.
  unfold toLowerCase. intros H. apply in_flat_map in H.
  destruct H as [c [_ H]]. eapply lowerCodeUnit_no_capital. exact H.
Qed.

Lemma toLowerCase_fixed (s : jsstring) :
  Forall (fun c => lowerCodeUnit c = [c]) s -> toLowerCase s = s.
Proof.
  unfold toLowerCase. induction 1 as [| c s Hc _ IH]; [reflexivity |].
  cbn [flat_map]. rewrite Hc, IH. reflexivity.
Qed.

Lemma trim_noWhiteSpace (s : jsstring) : noWhiteSpace s -> trim s = s.
Proof.
  intros H. unfold trim.
  assert (trimStart s = s) as ->.
  { destruct H as [| c s Hc _]; [reflexivity |]. cbn. rewrite Hc. reflexivity. }
  apply trimEnd_noWhiteSpace. exact H.
Qed.

(** X5. The value a successful [new Email] stores is already trimmed and
    in lower case: normalising it changes nothing, and constructing an
    Email from it stores the same value. *)
Theorem Email_stored_value_fixed (x v : jsstring) :
  Email.construct x = Return v ->
  Email.clean v = v /\ Email.construct v = Return v.
Proof.
  intros H. destruct (Email_construct_Return x v H) as [Hv [Hre Hlen]].
  assert (Email.clean v = v) as Hfix.
  { apply emailRegex_grammar in Hre as Hg. destruct Hg as [_ [_ Hbody]].
    pose proof (lang_Forall _ _ _ emailBody_chars Hbody) as Hchars.
    rewrite Forall_forall in Hchars.
    unfold Email.clean. rewrite trim_noWhiteSpace.
    - apply toLowerCase_fixed. apply Forall_forall. intros c Hc.
      apply lowerCodeUnit_ascii_fixed.
      + apply isEmailChar_ascii. auto.
      + rewrite Hv in Hc. unfold Email.clean in Hc.
        eapply toLowerCase_no_capital. exact Hc.
    - apply Forall_forall. intros c Hc. apply isEmailChar_no_white_space. auto. }
  split; [exact Hfix |].
  rewrite Email_construct_cases, Hfix, Hre. cbn [negb].
  destruct (N.ltb_spec 255 (jslength v)); [lia | reflexivity].
Qed.

Lemma Email_stored_value_fixed_witness :
  Email.clean (js "teste@exemplo.com") = js "teste@exemplo.com"
  /\ Email.construct (js "teste@exemplo.com") = Return (js "teste@exemplo.com").
Proof.
  apply (Email_stored_value_fixed (js " Teste@Exemplo.Com ")).
  vm_compute. reflexivity.
Defined.

(* ================================================================== *)
(** * CPF: punctuation, messages and the way back from [formatted] *)
(* ================================================================== *)

Lemma clean_clean (x : jsstring) : CPF.clean (CPF.clean x) = CPF.clean x.
Proof. apply clean_of_digits, clean_digits. Qed.

Lemma CPF_messages_differ : CPF.msgDigits <> CPF.msgInvalid.
Proof. vm_compute. discriminate. Qed.

(** X6. What [new CPF] does is decided by the digits of the input alone:
    with other than eleven digits it throws the message about the eleven
    digits (whatever the digits are), with eleven digits that fail the
    check it throws [CPF inválido], and the characters that are not digits
    play no part. *)
Theorem CPF_error_messages (x : jsstring) :
  (CPF.construct x = Throw CPF.msgDigits
   <-> List.length (CPF.clean x) <> 11%nat)
  /\ (CPF.construct x = Throw CPF.msgInvalid
      <-> List.length (CPF.clean x) = 11%nat
          /\ CPF.validate (CPF.clean x) = false)
  /\ CPF.construct (CPF.clean x) = CPF.construct x.
Proof.
  pose proof CPF_messages_differ as Hdiff.
  split; [| split].
  - rewrite CPF_construct_cases.
    destruct (Nat.eqb_spec (List.length (CPF.clean x)) 11) as [E | NE];
      cbn [negb].
    + destruct (CPF.validate (CPF.clean x)); split; intros H;
        try discriminate; try contradiction;
        try (injection H as H; congruence).
    + tauto.
  - rewrite CPF_construct_cases.
    destruct (Nat.eqb_spec (List.length (CPF.clean x)) 11) as [E | NE];
      cbn [negb].
    + destruct (CPF.validate (CPF.clean x)); split; intros H;
        try discriminate; try tauto;
        try (destruct H as [_ H]; discriminate H).
    + split; intros H; [| tauto].
      exfalso. first [discriminate H | injection H as H; congruence].
  - rewrite !CPF_construct_cases, clean_clean. reflexivity.
Qed.

Lemma formatFrom_eleven (v : jsstring) :
  Forall (fun c => isDigit c = true) v -> List.length v = 11%nat ->
  CPF.formatFrom v =
  firstn 3 v ++ DOT :: firstn 3 (skipn 3 v)
  ++ DOT :: firstn 3 (skipn 6 v) ++ HYPHEN :: skipn 9 v
  /\ CPF.clean (CPF.formatFrom v) = v.
Proof.
  intros Hdig Hlen.
  do 11 (destruct v as [| ? v]; [discriminate Hlen |]).
  destruct v; [| discriminate Hlen].
  repeat match goal with
         | H : Forall _ (_ :: _) |- _ => inversion H; clear H; subst
         end.
  cbn [CPF.formatFrom firstn forallb].
  repeat match goal with H : isDigit _ = true |- _ => rewrite H end.
  cbn [andb Nat.leb List.length skipn app]. split; [reflexivity |].
  unfold CPF.clean. cbn [filter app].
  repeat match goal with H : isDigit _ = true |- _ => rewrite H; clear H end.
  reflexivity.
Qed.

(** X7. The way back from the accessors: for the value [v] a successful
    [new CPF] stores, constructing a CPF from [formatted] (the digits with
    the dots and the hyphen) or from [raw] succeeds and stores [v] again,
    and [isValid] accepts both. *)
Theorem CPF_formatted_round_trip (x v : jsstring) :
  CPF.construct x = Return v ->
  CPF.construct (CPF.formatted v) = Return v
  /\ CPF.construct (CPF.raw v) = Return v
  /\ CPF.isValid (CPF.formatted v) = true
  /\ CPF.isValid (CPF.raw v) = true.
Proof.
  intros Hc. destruct (CPF_construct_Return x v Hc) as [Hclean [Hlen Hval]].
  assert (Forall (fun c => isDigit c = true) v) as Hdig
    by (rewrite Hclean; apply clean_digits).
  destruct (formatFrom_eleven v Hdig Hlen) as [_ Hback].
  assert (CPF.construct (CPF.formatted v) = Return v) as H1.
  { rewrite CPF_construct_cases. unfold CPF.formatted.
    rewrite Hback, Hlen, Hval. reflexivity. }
  assert (CPF.construct (CPF.raw v) = Return v) as H2.
  { unfold CPF.raw. rewrite CPF_construct_eleven_digits by assumption.
    rewrite Hval. reflexivity. }
  repeat split; try assumption.
  - unfold CPF.isValid, CPF.construct in *.
    destruct (safeParse CPF.schema (CPF.clean (CPF.formatted v)));
      [reflexivity | discriminate H1].
  - unfold CPF.isValid, CPF.construct in *.
    destruct (safeParse CPF.schema (CPF.clean (CPF.raw v)));
      [reflexivity | discriminate H2].
Qed.

Lemma CPF_formatted_round_trip_witness :
  CPF.construct (CPF.formatted (js "44874880363")) = Return (js "44874880363")
  /\ CPF.construct (CPF.raw (js "44874880363")) = Return (js "44874880363")
  /\ CPF.isValid (CPF.formatted (js "44874880363")) = true
  /\ CPF.isValid (CPF.raw (js "44874880363")) = true.
Proof.
  apply (CPF_formatted_round_trip (js "448 748 803 63")). vm_compute. reflexivity.
Defined.

(** X8. The two check digits are a function of the nine digits before
    them: two values that [new CPF] accepts and that agree on their first
    nine digits are the same value. *)
Theorem CPF_check_digits_determined (c c' : jsstring) :
  CPF.construct c = Return c -> CPF.construct c' = Return c' ->
  firstn 9 c = firstn 9 c' -> c = c'.
Proof.
  intros Hc Hc' Hpre.
  destruct (CPF_construct_Return c c Hc) as [Hclean [Hlen Hval]].
  destruct (CPF_construct_Return c' c' Hc') as [Hclean' [Hlen' Hval']].
  assert (Forall (fun c => isDigit c = true) c) as Hdig
    by (rewrite Hclean; apply clean_digits).
  assert (Forall (fun c => isDigit c = true) c') as Hdig'
    by (rewrite Hclean'; apply clean_digits).
  apply (validate_spec c Hdig Hlen) in Hval. destruct Hval as [_ [H9 H10]].
  apply (validate_spec c' Hdig' Hlen') in Hval'. destruct Hval' as [_ [H9' H10']].
  clear Hc Hc' Hclean Hclean'.
  do 11 (destruct c as [| ? c]; [discriminate Hlen |]).
  destruct c; [| discriminate Hlen].
  do 11 (destruct c' as [| ? c']; [discriminate Hlen' |]).
  destruct c'; [| discriminate Hlen'].
  cbn [firstn] in Hpre. injection Hpre as -> -> -> -> -> -> -> -> ->.
  repeat match goal with
         | H : Forall _ (_ :: _) |- _ => inversion H; clear H; subst
         end.
  unfold CPF.specCheckDigit in H9, H10, H9', H10'.
  cbn [CPF.digitValues map CPF.specSum nth] in H9, H10, H9', H10'.
  rewrite H9 in H9'. apply digit_value_inj in H9'; try assumption. subst.
  rewrite H10 in H10'. apply digit_value_inj in H10'; try assumption. subst.
  reflexivity.
Qed.

Lemma CPF_check_digits_determined_witness :
  js "52998224725" = CPF.clean (js "529.982.247-25").
Proof.
  apply (CPF_check_digits_determined (js "52998224725")
                                     (CPF.clean (js "529.982.247-25")));
    vm_compute; reflexivity.
Defined.

(* ================================================================== *)
(** * Email: what is stored, what is refused, what is ignored *)
(* ================================================================== *)

Lemma stored_email_char (c : codeUnit) :
  isEmailChar c = true -> ~ (65 <= c <= 90) -> isStoredEmailChar c = true.
Proof.
  intros H Hn. apply not_false_iff_true. intros Hf.
  unfold isEmailChar, isStoredEmailChar, Email.isLocalChar, Email.isAlnum,
    Email.isAlpha, isAsciiLower, isDigit, APOSTROPHE, HYPHEN, DOT, AT in *.
  bool_arith. lia.
Qed.

Lemma Email_stored_chars (x v : jsstring) :
  Email.construct x = Return v ->
  Forall (fun c => isStoredEmailChar c = true) v.
Proof.
  intros H. destruct (Email_construct_Return x v H) as [Hv [Hre _]].
  apply emailRegex_grammar in Hre. destruct Hre as [_ [_ Hbody]].
  pose proof (lang_Forall _ _ _ emailBody_chars Hbody) as Hchars.
  rewrite Forall_forall in *. intros c Hc. apply stored_email_char; [auto |].
  rewrite Hv in Hc. unfold Email.clean in Hc.
  eapply toLowerCase_no_capital. exact Hc.
Qed.

Lemma lang_Class_length (p : codeUnit -> bool) (s : jsstring) :
  lang (Class p) s -> List.length s = 1%nat.
Proof. intros [c [-> _]]. reflexivity. Qed.

Lemma emailBody_min_length (s : jsstring) :
  lang Email.emailBody s -> (6 <= List.length s)%nat.
Proof.
  intros [u [v [-> [Hu [a [d [-> [Ha Hd]]]]]]]].
  destruct Hu as [u1 [u2 [-> [_ Hu2]]]]. apply lang_Class_length in Hu2.
  apply lang_Class_length in Ha.
  destruct Hd as [l [t [-> [[l1 [l2 [-> [Hl1 _]]]] Ht]]]].
  destruct Hl1 as [b1 [b2 [-> [Hb1 [b3 [b4 [-> [_ Hb4]]]]]]]].
  apply lang_Class_length in Hb1, Hb4.
  destruct Ht as [t1 [t2 [-> [Ht1 [t3 [t4 [-> [Ht3 _]]]]]]]].
  apply lang_Class_length in Ht1, Ht3.
  rewrite !length_app. lia.
Qed.

(** X9. The value a successful [new Email] stores is made of lower-case
    ASCII letters, digits and the characters [_ ' + - . @] only, and has
    between 6 and 255 characters. *)
Theorem Email_accepted_shape (x v : jsstring) :
  Email.construct x = Return v ->
  Forall (fun c => isStoredEmailChar c = true) v
  /\ 6 <= jslength v <= 255.
Proof.
  intros H. split; [exact (Email_stored_chars x v H) |].
  destruct (Email_construct_Return x v H) as [_ [Hre Hmax]].
  apply emailRegex_grammar in Hre. destruct Hre as [_ [_ Hbody]].
  apply emailBody_min_length in Hbody. unfold jslength in *. lia.
Qed.

Lemma Email_accepted_shape_witness :
  Forall (fun c => isStoredEmailChar c = true) (js "x@s.ex")
  /\ 6 <= jslength (js "x@s.ex") <= 255.
Proof.
  apply (Email_accepted_shape (js " X@S.Ex ")). vm_compute. reflexivity.
Defined.

Lemma lowerCodeUnit_source (c l : codeUnit) :
  In l (lowerCodeUnit c) -> l = AT \/ l = DOT -> c = l.
Proof.
  assert (forallb (fun l => negb ((l =? AT) || (l =? DOT)) || (l =? c))
                  (lowerCodeUnit c) = true) as H.
  { revert c.
    apply (case_fact
             (fun c => forallb (fun l => negb ((l =? AT) || (l =? DOT)) || (l =? c))
                               (lowerCodeUnit c))).
    - vm_compute. reflexivity.
    - intros c _ Hl _ _. rewrite Hl. cbn [forallb]. rewrite N.eqb_refl.
      rewrite orb_true_r. reflexivity. }
  intros Hin Hl. rewrite forallb_forall in H. specialize (H l Hin).
  apply orb_true_iff in H. destruct H as [H | H].
  - apply negb_true_iff, orb_false_iff in H. destruct H as [H1 H2].
    apply N.eqb_neq in H1, H2. tauto.
  - apply N.eqb_eq in H. auto.
Qed.

Lemma trim_incl (x : jsstring) (c : codeUnit) : In c (trim x) -> In c x.
Proof.
  assert (Forall (fun d => In d x) (trim x)) as H.
  { unfold trim. apply trimEnd_Forall, trimStart_Forall.
    apply Forall_forall. auto. }
  rewrite Forall_forall in H. apply H.
Qed.

Lemma clean_source (x : jsstring) (l : codeUnit) :
  l = AT \/ l = DOT -> In l (Email.clean x) -> In l x.
Proof.
  intros Hl Hin. unfold Email.clean, toLowerCase in Hin.
  apply in_flat_map in Hin. destruct Hin as [c [Hc Hlc]].
  apply trim_incl. rewrite <- (lowerCodeUnit_source c l Hlc Hl). exact Hc.
Qed.

(** X10. An input with no commercial at in it, or with no dot in it, is
    refused by [new Email] with [Email inválido], whatever its length. *)
Theorem Email_needs_at_and_dot (x : jsstring) :
  ~ In AT x \/ ~ In DOT x -> Email.construct x = Throw Email.msgInvalid.
Proof.
  intros Hno. rewrite Email_construct_cases.
  destruct (Email.emailRegex (Email.clean x)) eqn:Hre; [| reflexivity].
  exfalso. apply emailRegex_grammar in Hre. destruct Hre as [_ [_ Hbody]].
  destruct (emailBody_parts _ Hbody)
    as [local [domain [E [_ [_ [_ [_ Hdot]]]]]]].
  destruct Hno as [Hno | Hno]; apply Hno.
  - apply clean_source; [auto |]. rewrite E. apply in_elt.
  - apply clean_source; [auto |]. rewrite E. apply in_or_app. right. right.
    exact Hdot.
Qed.

Lemma Email_needs_at_and_dot_witness :
  Email.construct (js "teste@exemplo") = Throw Email.msgInvalid.
Proof.
  apply (Email_needs_at_and_dot (js "teste@exemplo")).
  right. vm_compute. intuition discriminate.
Defined.

Lemma trimStart_pad (pre s : jsstring) :
  Forall (fun c => isWhiteSpace c = true) pre -> trimStart (pre ++ s) = trimStart s.
Proof.
  induction 1 as [| c pre Hc _ IH]; [reflexivity |].
  cbn [app trimStart]. rewrite Hc. exact IH.
Qed.

Lemma trimEnd_all_white_space (post : jsstring) :
  Forall (fun c => isWhiteSpace c = true) post -> trimEnd post = [].
Proof.
  induction 1 as [| c post Hc _ IH]; [reflexivity |].
  cbn [trimEnd]. rewrite IH, Hc. reflexivity.
Qed.

Lemma trimEnd_pad (s post : jsstring) :
  Forall (fun c => isWhiteSpace c = true) post -> trimEnd (s ++ post) = trimEnd s.
Proof.
  intros Hpost. induction s as [| c s IH].
  - cbn [app]. apply trimEnd_all_white_space. exact Hpost.
  - cbn [app trimEnd]. rewrite IH. reflexivity.
Qed.

Lemma trim_pad (pre s post : jsstring) :
  Forall (fun c => isWhiteSpace c = true) pre ->
  Forall (fun c => isWhiteSpace c = true) post ->
  trim (pre ++ s ++ post) = trim s.
Proof.
  intros Hpre Hpost. unfold trim. rewrite trimStart_pad by exact Hpre.
  induction s as [| c s IH].
  - cbn [app]. rewrite <- (app_nil_r post) at 1.
    rewrite trimStart_pad by exact Hpost. reflexivity.
  - cbn [app trimStart]. destruct (isWhiteSpace c); [exact IH |].
    apply (trimEnd_pad (c :: s)). exact Hpost.
Qed.

(** X11. White space before and after the address plays no part:
    [new Email] and [Email.isValid] do on the padded input what they do on
    the input. *)
Theorem Email_ignores_outer_white_space (pre x post : jsstring) :
  Forall (fun c => isWhiteSpace c = true) pre ->
  Forall (fun c => isWhiteSpace c = true) post ->
  Email.construct (pre ++ x ++ post) = Email.construct x
  /\ Email.isValid (pre ++ x ++ post) = Email.isValid x.
Proof.
  intros Hpre Hpost.
  unfold Email.construct, Email.isValid, Email.clean.
  rewrite trim_pad by assumption. split; reflexivity.
Qed.

Lemma Email_ignores_outer_white_space_witness :
  Email.construct (js "   " ++ js "teste@exemplo.com" ++ [9; 10; 160])
  = Email.construct (js "teste@exemplo.com")
  /\ Email.isValid (js "   " ++ js "teste@exemplo.com" ++ [9; 10; 160])
     = Email.isValid (js "teste@exemplo.com").
Proof.
  apply Email_ignores_outer_white_space; vm_compute; repeat constructor.
Defined.

Lemma stored_char_case_round_trip (c : codeUnit) :
  isStoredEmailChar c = true ->
  lowerCodeUnit c = [c] /\ toLowerCase (upperCodeUnit c) = [c].
Proof.
  intros H.
  assert (c < 128) as Hlt.
  { unfold isStoredEmailChar, isAsciiLower, isDigit, APOSTROPHE, HYPHEN, DOT,
      AT in H. bool_arith. lia. }
  assert (forallb (fun c => negb (isStoredEmailChar c)
                            || (jsstring_eqb (lowerCodeUnit c) [c]
                                && jsstring_eqb (toLowerCase (upperCodeUnit c)) [c]))
                  (map N.of_nat (seq 0 128)) = true) as Hall
    by (vm_compute; reflexivity).
  rewrite forallb_forall in Hall. specialize (Hall c).
  rewrite H in Hall. cbn [negb orb] in Hall.
  assert (In c (map N.of_nat (seq 0 128))) as Hin
    by (rewrite <- (N2Nat.id c); apply in_map, in_seq; lia).
  specialize (Hall Hin). apply andb_true_iff in Hall.
  destruct Hall as [H1 H2]. apply jsstring_eqb_eq in H1, H2. auto.
Qed.

Lemma toLowerCase_app (a b : jsstring) :
  toLowerCase (a ++ b) = toLowerCase a ++ toLowerCase b.
Proof. unfold toLowerCase. apply flat_map_app. Qed.

Lemma stored_case_round_trip (s : jsstring) :
  Forall (fun c => isStoredEmailChar c = true) s ->
  toLowerCase s = s /\ toLowerCase (toUpperCase s) = s.
Proof.
  induction 1 as [| c s Hc _ [IH1 IH2]]; [split; reflexivity |].
  destruct (stored_char_case_round_trip c Hc) as [H1 H2]. split.
  - change (c :: s) with ([c] ++ s). rewrite toLowerCase_app, IH1.
    unfold toLowerCase. cbn [flat_map]. rewrite H1. reflexivity.
  - unfold toUpperCase. cbn [flat_map]. fold (toUpperCase s).
    rewrite toLowerCase_app, H2, IH2. reflexivity.
Qed.

(** X12. For the value a successful [new Email] stores, [hasDomain(d)]
    never throws: it is true when [d], in lower case, is the domain of the
    value and false otherwise; it is true of the domain itself and of the
    domain in upper case. *)
Theorem Email_hasDomain_spec (x v : jsstring) :
  Email.construct x = Return v ->
  exists domain,
    Email.getDomain v = Some domain
    /\ (forall d, Email.hasDomain v d
                 = Some (jsstring_eqb domain (toLowerCase d)))
    /\ (forall d, Email.hasDomain v d = Some true <-> toLowerCase d = domain)
    /\ Email.hasDomain v domain = Some true
    /\ Email.hasDomain v (toUpperCase domain) = Some true.
Proof.
  intros H. pose proof (Email_stored_chars x v H) as Hchars.
  destruct (Email_value_parts x v H)
    as [local [domain [-> [_ [Hl [_ [Hd _]]]]]]].
  assert (Forall (fun c => isStoredEmailChar c = true) domain) as Hdc.
  { apply Forall_app in Hchars. destruct Hchars as [_ Hc]. inversion Hc; auto. }
  destruct (stored_case_round_trip domain Hdc) as [Hlow Hup].
  exists domain. unfold Email.hasDomain, Email.getDomain.
  rewrite split_at_parts by assumption. cbn [nth_error]. rewrite Hlow.
  split; [reflexivity |]. split; [reflexivity |]. split; [| split].
  - intros d. split.
    + intros E. injection E as E. apply jsstring_eqb_eq in E. congruence.
    + intros <-. f_equal. apply jsstring_eqb_eq. reflexivity.
  - f_equal. apply jsstring_eqb_eq. reflexivity.
  - rewrite Hup. f_equal. apply jsstring_eqb_eq. reflexivity.
Qed.

Lemma Email_hasDomain_spec_witness :
  exists domain,
    Email.getDomain (js "teste@exemplo.com") = Some domain
    /\ (forall d, Email.hasDomain (js "teste@exemplo.com") d
                 = Some (jsstring_eqb domain (toLowerCase d)))
    /\ (forall d, Email.hasDomain (js "teste@exemplo.com") d = Some true
                  <-> toLowerCase d = domain)
    /\ Email.hasDomain (js "teste@exemplo.com") domain = Some true
    /\ Email.hasDomain (js "teste@exemplo.com") (toUpperCase domain) = Some true.
Proof.
  apply (Email_hasDomain_spec (js "teste@Exemplo.com")). vm_compute. reflexivity.
Defined.

(* ================================================================== *)
(** * FullName: the white space of a normalised name *)
(* ================================================================== *)

Lemma upperCodeUnit_good (c : codeUnit) :
  isWhiteSpace c = false ->
  upperCodeUnit c <> [] /\ noWhiteSpace (upperCodeUnit c).
Proof.
  assert (isWhiteSpace c
          || (negb (jsstring_eqb (upperCodeUnit c) [])
              && forallb (fun d => negb (isWhiteSpace d)) (upperCodeUnit c))
          = true) as H.
  { revert c.
    apply (case_fact
             (fun c => isWhiteSpace c
                       || (negb (jsstring_eqb (upperCodeUnit c) [])
                           && forallb (fun d => negb (isWhiteSpace d))
                                      (upperCodeUnit c)))).
    - vm_compute. reflexivity.
    - intros c Hu _ _ _. rewrite Hu. cbn [forallb].
      destruct (isWhiteSpace c); reflexivity. }
  intros Hc. rewrite Hc in H. cbn [orb] in H. apply andb_true_iff in H.
  destruct H as [H1 H2]. split.
  - intros E. rewrite E in H1. discriminate H1.
  - apply Forall_forall. intros d Hd. rewrite forallb_forall in H2.
    apply negb_true_iff. auto.
Qed.

Lemma lowerCodeUnit_good (c : codeUnit) :
  isWhiteSpace c = false ->
  lowerCodeUnit c <> [] /\ noWhiteSpace (lowerCodeUnit c).
Proof.
  assert (isWhiteSpace c
          || (negb (jsstring_eqb (lowerCodeUnit c) [])
              && forallb (fun d => negb (isWhiteSpace d)) (lowerCodeUnit c))
          = true) as H.
  { revert c.
    apply (case_fact
             (fun c => isWhiteSpace c
                       || (negb (jsstring_eqb (lowerCodeUnit c) [])
                           && forallb (fun d => negb (isWhiteSpace d))
                                      (lowerCodeUnit c)))).
    - vm_compute. reflexivity.
    - intros c _ Hl _ _. rewrite Hl. cbn [forallb].
      destruct (isWhiteSpace c); reflexivity. }
  intros Hc. rewrite Hc in H. cbn [orb] in H. apply andb_true_iff in H.
  destruct H as [H1 H2]. split.
  - intros E. rewrite E in H1. discriminate H1.
  - apply Forall_forall. intros d Hd. rewrite forallb_forall in H2.
    apply negb_true_iff. auto.
Qed.

Lemma toLowerCase_good (s : jsstring) :
  noWhiteSpace s ->
  noWhiteSpace (toLowerCase s) /\ (s <> [] -> toLowerCase s <> []).
Proof.
  unfold toLowerCase. induction 1 as [| c s Hc _ [IH _]].
  - split; [constructor | congruence].
  - destruct (lowerCodeUnit_good c Hc) as [Hne Hnw]. cbn [flat_map]. split.
    + apply Forall_app. split; assumption.
    + intros _ E. apply app_eq_nil in E. tauto.
Qed.

Lemma join_Forall (P : codeUnit -> Prop) (sep : codeUnit) (ws : list jsstring) :
  P sep -> Forall (Forall P) ws -> Forall P (join sep ws).
Proof.
  intros Hsep. induction 1 as [| w ws Hw Hws IH]; [constructor |].
  destruct ws as [| w' ws]; [exact Hw |].
  rewrite join_cons by discriminate. apply Forall_app. split; [exact Hw |].
  constructor; assumption.
Qed.

Lemma split_two (sep : codeUnit) (s : jsstring) :
  In sep s -> exists p q ps, split sep s = p :: q :: ps.
Proof.
  induction s as [| c s IH]; cbn; intros H; [tauto |].
  destruct (N.eqb_spec c sep) as [-> | NE].
  - pose proof (split_not_nil sep s) as Hne.
    destruct (split sep s) as [| q ps]; [congruence | eauto].
  - destruct H as [E | H]; [congruence |].
    destruct (IH H) as [p [q [ps ->]]]. eauto.
Qed.

Lemma capitalizeWord_good_bound (n : nat) (w : jsstring) :
  (List.length w < n)%nat -> noWhiteSpace w ->
  noWhiteSpace (FullName.capitalizeWord w)
  /\ (w <> [] -> FullName.capitalizeWord w <> []).
Proof.
  revert w. induction n as [| n IH]; intros w Hn Hnw; [lia |].
  destruct (includes HYPHEN w) eqn:Hh.
  - rewrite capitalizeWord_eq, Hh. apply includes_In in Hh. split.
    + apply join_Forall; [reflexivity |].
      apply Forall_map. apply Forall_forall. intros p Hp.
      apply IH.
      * pose proof (split_piece_lt HYPHEN w p Hh Hp). lia.
      * pose proof (split_Forall _ HYPHEN w Hnw) as Hall.
        rewrite Forall_forall in Hall. exact (Hall p Hp).
    + intros _. destruct (split_two HYPHEN w Hh) as [p [q [ps ->]]].
      cbn [map]. rewrite join_cons by discriminate.
      intros E. apply app_eq_nil in E. destruct E; discriminate.
  - apply includes_false in Hh.
    destruct (includes APOSTROPHE w) eqn:Ha.
    + apply includes_In in Ha.
      destruct (indexOf_decompose _ _ Ha) as [p [t [-> [Hnp _]]]].
      rewrite capitalizeWord_apostrophe by assumption.
      unfold noWhiteSpace in Hnw. apply Forall_app in Hnw.
      destruct Hnw as [Hp Ht]. inversion Ht as [| ? ? Hap Ht']; subst. split.
      * apply Forall_app. split; [exact Hp |]. constructor; [exact Hap |].
        destruct t as [| d t]; [constructor |].
        apply IH; [| exact Ht']. rewrite length_app in Hn. cbn in Hn. cbn. lia.
      * intros _ E. apply app_eq_nil in E. destruct E; discriminate.
    + apply includes_false in Ha. rewrite capitalizeWord_plain by assumption.
      destruct w as [| c rest]; [split; [constructor | congruence] |].
      inversion Hnw as [| ? ? Hc Hrest]; subst.
      destruct (upperCodeUnit_good c Hc) as [Hne Hu]. split.
      * apply Forall_app. split; [exact Hu |]. apply toLowerCase_good. exact Hrest.
      * intros _ E. apply app_eq_nil in E. tauto.
Qed.

Lemma processWord_good (index : nat) (w : jsstring) :
  w <> [] /\ noWhiteSpace w ->
  FullName.processWord index w <> [] /\ noWhiteSpace (FullName.processWord index w).
Proof.
  intros [Hne Hnw].
  pose proof (capitalizeWord_good_bound (S (List.length w)) w (Nat.lt_succ_diag_r _) Hnw)
    as [Hc1 Hc2].
  pose proof (toLowerCase_good w Hnw) as [Hl1 Hl2].
  unfold FullName.processWord.
  destruct (index =? 0)%nat; [auto |].
  destruct (FullName.includesWord _ _); auto.
Qed.

Lemma mapIndexed_good (index : nat) (ws : list jsstring) :
  goodWords ws -> goodWords (FullName.mapIndexed FullName.processWord index ws).
Proof.
  intros H. revert index. induction H as [| w ws Hw _ IH]; intros index;
    cbn [FullName.mapIndexed]; constructor; [| apply IH].
  apply processWord_good. exact Hw.
Qed.

Lemma mapIndexed_length (f : nat -> jsstring -> jsstring) (index : nat)
      (ws : list jsstring) :
  List.length (FullName.mapIndexed f index ws) = List.length ws.
Proof.
  revert index. induction ws as [| w ws IH]; intros index; cbn;
    [reflexivity | rewrite IH; reflexivity].
Qed.

(** The normalised name is the empty string, or its words, not empty and
    free of white space, joined by single spaces. *)
Lemma normalizeName_words (x : jsstring) :
  (splitWhiteSpace (trim x) = [[]] /\ FullName.normalizeName x = [])
  \/ (exists rs,
         rs = FullName.mapIndexed FullName.processWord 0 (splitWhiteSpace (trim x))
         /\ rs <> [] /\ goodWords rs
         /\ FullName.normalizeName x = join SPACE rs
         /\ trim (join SPACE rs) = join SPACE rs
         /\ collapseWhiteSpace (join SPACE rs) = join SPACE rs
         /\ split SPACE (join SPACE rs) = rs).
Proof.
  assert (FullName.normalizeName x
          = join SPACE (FullName.mapIndexed FullName.processWord 0
                                            (splitWhiteSpace (trim x)))) as En.
  { unfold FullName.normalizeName, collapseWhiteSpace.
    rewrite split_collapse. reflexivity. }
  destruct (words_of_trim x) as [E | [Hne Hg]].
  - left. split; [exact E |]. rewrite En, E. reflexivity.
  - right. eexists. split; [reflexivity |].
    pose proof (mapIndexed_not_nil 0 _ Hne) as Hne'.
    pose proof (mapIndexed_good 0 _ Hg) as Hg'.
    split; [exact Hne' |]. split; [exact Hg' |]. split; [exact En |].
    pose proof (words_of_join _ Hne' Hg') as Hw.
    assert (trim (join SPACE (FullName.mapIndexed FullName.processWord 0
                                                  (splitWhiteSpace (trim x))))
            = join SPACE (FullName.mapIndexed FullName.processWord 0
                                              (splitWhiteSpace (trim x)))) as Et.
    { unfold trim. rewrite trimStart_join by exact Hg'.
      apply trimEnd_join; assumption. }
    assert (collapseWhiteSpace (join SPACE (FullName.mapIndexed FullName.processWord 0
                                                  (splitWhiteSpace (trim x))))
            = join SPACE (FullName.mapIndexed FullName.processWord 0
                                              (splitWhiteSpace (trim x)))) as Ec.
    { unfold collapseWhiteSpace. apply collapse_join; assumption. }
    split; [exact Et |]. split; [exact Ec |].
    rewrite Et, Ec in Hw. exact Hw.
Qed.

(** X13. On an input of characters of the case tables ([inCaseTables]),
    the normalised name has no white space at its ends and no run of white space inside:
    trimming it or collapsing its white space changes nothing, its words
    are separated by single spaces and are not empty (unless the name
    itself is empty), and there are as many of them as the input has. *)
Theorem FullName_normalized_white_space (x : jsstring) :
  forallb inCaseTables x = true ->
  trim (FullName.normalizeName x) = FullName.normalizeName x
  /\ collapseWhiteSpace (FullName.normalizeName x) = FullName.normalizeName x
  /\ splitWhiteSpace (FullName.normalizeName x)
     = split SPACE (FullName.normalizeName x)
  /\ (FullName.normalizeName x = []
      \/ goodWords (split SPACE (FullName.normalizeName x)))
  /\ List.length (split SPACE (FullName.normalizeName x))
     = List.length (splitWhiteSpace (trim x)).
Proof.
  intros _.
  destruct (normalizeName_words x)
    as [[Hw ->] | [rs [Ers [Hne [Hg [-> [Et [Ec Es]]]]]]]].
  - rewrite Hw. repeat split; auto.
  - split; [exact Et |]. split; [exact Ec |]. split; [| split].
    + unfold splitWhiteSpace. rewrite <- split_collapse.
      fold (collapseWhiteSpace (join SPACE rs)). rewrite Ec. reflexivity.
    + right. rewrite Es. exact Hg.
    + rewrite Es, Ers. apply mapIndexed_length.
Qed.

Lemma FullName_normalized_white_space_witness :
  trim (FullName.normalizeName ([9] ++ js " ana" ++ [160; 10] ++ js "paula   souza  "))
  = FullName.normalizeName ([9] ++ js " ana" ++ [160; 10] ++ js "paula   souza  ")
  /\ List.length
       (split SPACE
          (FullName.normalizeName
             ([9] ++ js " ana" ++ [160; 10] ++ js "paula   souza  ")))
     = 3%nat.
Proof.
  destruct (FullName_normalized_white_space
              ([9] ++ js " ana" ++ [160; 10] ++ js "paula   souza  "))
    as [Ht [_ [_ [_ Hn]]]].
  - vm_compute. reflexivity.
  - split; [exact Ht |]. rewrite Hn. vm_compute. reflexivity.
Defined.

(** X14. Only the words of the input count: two inputs with the same
    white-space separated words, however they are spaced, have the same
    normalised name, and [new FullName] and [FullName.isValid] do the same
    on both. *)
Theorem FullName_white_space_insensitive (x y : jsstring) :
  splitWhiteSpace (trim x) = splitWhiteSpace (trim y) ->
  FullName.normalizeName x = FullName.normalizeName y
  /\ FullName.construct x = FullName.construct y
  /\ FullName.isValid x = FullName.isValid y.
Proof.
  intros H.
  assert (FullName.normalizeName x = FullName.normalizeName y) as E.
  { unfold FullName.normalizeName, collapseWhiteSpace.
    rewrite !split_collapse. fold (splitWhiteSpace (trim x)).
    fold (splitWhiteSpace (trim y)). rewrite H. reflexivity. }
  unfold FullName.construct, FullName.isValid. rewrite E. auto.
Qed.

Lemma FullName_white_space_insensitive_witness :
  FullName.normalizeName ([9] ++ js " Ana" ++ [160; 10] ++ js "Paula   Souza  ")
  = FullName.normalizeName (js "Ana Paula Souza")
  /\ FullName.construct ([9] ++ js " Ana" ++ [160; 10] ++ js "Paula   Souza  ")
     = FullName.construct (js "Ana Paula Souza")
  /\ FullName.isValid ([9] ++ js " Ana" ++ [160; 10] ++ js "Paula   Souza  ")
     = FullName.isValid (js "Ana Paula Souza").
Proof.
  apply FullName_white_space_insensitive. vm_compute. reflexivity.
Defined.

(* ================================================================== *)
(** * FullName: accepted names, their first and last components *)
(* ================================================================== *)

Lemma onlyNameChars_Forall (word : jsstring) :
  FullName.onlyNameChars word = true ->
  word <> [] /\ Forall (fun c => FullName.isNameChar c = true) word.
Proof.
  destruct word as [| c word]; [discriminate |]. intros H. split; [discriminate |].
  unfold FullName.onlyNameChars in H. apply Forall_forall.
  rewrite forallb_forall in H. exact H.
Qed.

Lemma FullName_construct_Return (x v : jsstring) :
  FullName.construct x = Return v ->
  v = FullName.normalizeName x /\ FullName.validate v = true.
Proof.
  rewrite FullName_construct_cases. cbv zeta.
  destruct (_ <? 3); [discriminate |]. destruct (100 <? _); [discriminate |].
  destruct (FullName.validate (FullName.normalizeName x)) eqn:Hv; [| discriminate].
  intros E. injection E as <-. auto.
Qed.

(** The words [validate] checks in a normalised name are the pieces
    between its spaces. *)
Lemma validated_words (x : jsstring) :
  FullName.validate (FullName.normalizeName x) = true ->
  splitWhiteSpace (trim (FullName.normalizeName x))
  = split SPACE (FullName.normalizeName x)
  /\ (2 <= List.length (split SPACE (FullName.normalizeName x)))%nat
  /\ FullName.checkWords (split SPACE (FullName.normalizeName x)) = true.
Proof.
  intros Hv.
  assert (splitWhiteSpace (trim (FullName.normalizeName x))
          = split SPACE (FullName.normalizeName x)) as E.
  { destruct (normalizeName_words x)
      as [[_ ->] | [rs [_ [_ [_ [-> [Et [Ec Es]]]]]]]]; [reflexivity |].
    rewrite Et. unfold splitWhiteSpace. rewrite <- split_collapse.
    fold (collapseWhiteSpace (join SPACE rs)). rewrite Ec. reflexivity. }
  unfold FullName.validate in Hv. rewrite E in Hv. split; [exact E |].
  destruct (Nat.ltb_spec (List.length (split SPACE (FullName.normalizeName x))) 2);
    [discriminate | auto].
Qed.

(** X15. The value a successful [new FullName] stores is made of letters,
    hyphens, apostrophes and single spaces.  [getFirstName] and
    [getLastName] are not empty, start with a letter and have no space in
    them; the value starts with the first name followed by a space and
    ends with a space followed by the last name. *)
Theorem FullName_accepted_names (x v : jsstring) :
  FullName.construct x = Return v ->
  Forall (fun c => FullName.isNameChar c = true \/ c = SPACE) v
  /\ (FullName.startsWithLetter (FullName.getFirstName v) = true
      /\ ~ In SPACE (FullName.getFirstName v)
      /\ exists rest, v = FullName.getFirstName v ++ SPACE :: rest)
  /\ (FullName.startsWithLetter (FullName.getLastName v) = true
      /\ ~ In SPACE (FullName.getLastName v)
      /\ exists front, v = front ++ SPACE :: FullName.getLastName v).
Proof.
  intros H. destruct (FullName_construct_Return x v H) as [-> Hv].
  destruct (validated_words x Hv) as [_ [Hlen Hcheck]].
  pose proof (checkWords_Forall _ Hcheck) as Hwords.
  pose proof (join_split SPACE (FullName.normalizeName x)) as Hjoin.
  unfold FullName.getFirstName, FullName.getLastName.
  remember (split SPACE (FullName.normalizeName x)) as rs eqn:Ers.
  assert (forall w, In w rs ->
                    FullName.startsWithLetter w = true /\ ~ In SPACE w
                    /\ Forall (fun c => FullName.isNameChar c = true \/ c = SPACE) w)
    as Hw.
  { intros w Hin. rewrite Forall_forall in Hwords.
    destruct (Hwords w Hin) as [Hs [Ho _]].
    destruct (onlyNameChars_Forall w Ho) as [_ Hall]. split; [exact Hs |].
    rewrite Forall_forall in Hall. split.
    - intros Hsp. specialize (Hall SPACE Hsp). discriminate Hall.
    - apply Forall_forall. intros c Hc. left. auto. }
  split; [| split].
  - rewrite <- Hjoin. apply join_Forall; [right; reflexivity |].
    apply Forall_forall. intros w Hin. apply Hw. exact Hin.
  - destruct rs as [| r0 [| r1 rs]]; cbn in Hlen; try lia.
    cbn [hd]. destruct (Hw r0 (or_introl eq_refl)) as [Hs [Hn _]].
    split; [exact Hs |]. split; [exact Hn |].
    exists (join SPACE (r1 :: rs)). rewrite <- Hjoin.
    apply join_cons. discriminate.
  - destruct (exists_last (l := rs)) as [front [l E]].
    { intros ->. cbn in Hlen. lia. }
    rewrite E in *. rewrite last_last.
    destruct (Hw l) as [Hs [Hn _]]; [apply in_elt |].
    split; [exact Hs |]. split; [exact Hn |].
    exists (join SPACE front). rewrite <- Hjoin. apply join_snoc.
    intros ->. cbn in Hlen. lia.
Qed.

Lemma FullName_accepted_names_witness :
  Forall (fun c => FullName.isNameChar c = true \/ c = SPACE)
         (js "José Carlos da Silva")
  /\ (FullName.startsWithLetter (FullName.getFirstName (js "José Carlos da Silva")) = true
      /\ ~ In SPACE (FullName.getFirstName (js "José Carlos da Silva"))
      /\ exists rest,
          js "José Carlos da Silva"
          = FullName.getFirstName (js "José Carlos da Silva") ++ SPACE :: rest)
  /\ (FullName.startsWithLetter (FullName.getLastName (js "José Carlos da Silva")) = true
      /\ ~ In SPACE (FullName.getLastName (js "José Carlos da Silva"))
      /\ exists front,
          js "José Carlos da Silva"
          = front ++ SPACE :: FullName.getLastName (js "José Carlos da Silva")).
Proof.
  apply (FullName_accepted_names (js " josé  CARLOS da silva")).
  vm_compute. reflexivity.
Defined.

(* ================================================================== *)
(** * FullName: the messages of a failed construction *)
(* ================================================================== *)

Lemma FullName_messages_differ :
  FullName.msgMin <> FullName.msgMax
  /\ FullName.msgMin <> FullName.msgInvalid
  /\ FullName.msgMax <> FullName.msgInvalid.
Proof. repeat split; vm_compute; discriminate. Qed.

(** X16. On an input of characters of the case tables ([inCaseTables]),
    the length of the normalised name is judged before its shape: a failed [new FullName]
    throws the message about the three characters exactly when the
    normalised name has fewer than 3 characters, the message about the
    hundred characters exactly when it has more than 100, and
    [Nome completo inválido] exactly when its length is within the bounds
    and [validate] refuses it. *)
Theorem FullName_error_messages (x : jsstring) :
  forallb inCaseTables x = true ->
  (FullName.construct x = Throw FullName.msgMin
   <-> jslength (FullName.normalizeName x) < 3)
  /\ (FullName.construct x = Throw FullName.msgMax
      <-> 100 < jslength (FullName.normalizeName x))
  /\ (FullName.construct x = Throw FullName.msgInvalid
      <-> 3 <= jslength (FullName.normalizeName x) <= 100
          /\ FullName.validate (FullName.normalizeName x) = false).
Proof.
  intros _.
  destruct FullName_messages_differ as [D1 [D2 D3]].
  rewrite FullName_construct_cases. cbv zeta.
  destruct (N.ltb_spec (jslength (FullName.normalizeName x)) 3) as [L3 | L3];
    [| destruct (N.ltb_spec 100 (jslength (FullName.normalizeName x)))
         as [L100 | L100];
       [| destruct (FullName.validate (FullName.normalizeName x)) eqn:Hv]];
    (split; [| split]); (split; intros H);
    first [ reflexivity
          | lia
          | discriminate H
          | injection H as H; congruence
          | destruct H as [H1 H2]; first [lia | discriminate H2]
          | split; [lia | reflexivity] ].
Qed.

Lemma FullName_error_messages_witness :
  FullName.construct (js " a  ") = Throw FullName.msgMin
  /\ FullName.construct (js "Ana") = Throw FullName.msgInvalid
  /\ FullName.construct (js "Ana 3") = Throw FullName.msgInvalid.
Proof.
  split; [| split].
  - apply (proj1 (FullName_error_messages (js " a  ") eq_refl)).
    vm_compute. reflexivity.
  - apply (proj2 (proj2 (FullName_error_messages (js "Ana") eq_refl))).
    vm_compute. split; [split; discriminate | reflexivity].
  - apply (proj2 (proj2 (FullName_error_messages (js "Ana 3") eq_refl))).
    vm_compute. split; [split; discriminate | reflexivity].
Defined.

(* ================================================================== *)
(** * FullName: characters that are no part of a name *)
(* ================================================================== *)

Lemma caseless_ascii (c : codeUnit) :
  c < 128 -> FullName.isNameChar c = false ->
  upperCodeUnit c = [c] /\ lowerCodeUnit c = [c].
Proof.
  intros Hc Hn.
  assert (forallb (fun c => FullName.isNameChar c
                            || (jsstring_eqb (upperCodeUnit c) [c]
                                && jsstring_eqb (lowerCodeUnit c) [c]))
                  (map N.of_nat (seq 0 128)) = true) as Hall
    by (vm_compute; reflexivity).
  rewrite forallb_forall in Hall. specialize (Hall c).
  rewrite Hn in Hall. cbn [orb] in Hall.
  assert (In c (map N.of_nat (seq 0 128))) as Hin
    by (rewrite <- (N2Nat.id c); apply in_map, in_seq; lia).
  specialize (Hall Hin). apply andb_true_iff in Hall.
  destruct Hall as [H1 H2]. apply jsstring_eqb_eq in H1, H2. auto.
Qed.

Lemma trimStart_keeps (c : codeUnit) (s : jsstring) :
  isWhiteSpace c = false -> In c s -> In c (trimStart s).
Proof.
  intros Hc. induction s as [| d s IH]; cbn; [tauto |].
  destruct (isWhiteSpace d) eqn:Hd; [| auto].
  intros [E | Hin]; [congruence | auto].
Qed.

Lemma trimEnd_keeps (c : codeUnit) (s : jsstring) :
  isWhiteSpace c = false -> In c s -> In c (trimEnd s).
Proof.
  intros Hc. induction s as [| d s IH]; cbn [trimEnd In]; [tauto |].
  intros [E | Hin].
  - subst d. destruct (trimEnd s); [rewrite Hc |]; left; reflexivity.
  - specialize (IH Hin). destruct (trimEnd s); [destruct IH | right; exact IH].
Qed.

Lemma splitRuns_keeps (c : codeUnit) (s : jsstring) (inRun : bool) :
  isWhiteSpace c = false -> In c s ->
  exists w, In w (splitRunsFrom inRun s) /\ In c w.
Proof.
  intros Hc. revert inRun. induction s as [| d s IH]; intros inRun Hin;
    [destruct Hin |].
  cbn [splitRunsFrom]. destruct (isWhiteSpace d) eqn:Hd.
  - destruct Hin as [E | Hin]; [congruence |].
    destruct (IH true Hin) as [w [Hw Hcw]].
    destruct inRun; exists w; cbn; auto.
  - pose proof (splitRuns_not_nil false s) as Hne.
    destruct Hin as [-> | Hin].
    + destruct (splitRunsFrom false s) as [| p ps]; [congruence |].
      exists (c :: p). cbn. auto.
    + destruct (IH false Hin) as [w [Hw Hcw]].
      destruct (splitRunsFrom false s) as [| p ps]; [destruct Hw |].
      destruct Hw as [<- | Hw].
      * exists (d :: p). cbn. auto.
      * exists w. cbn. auto.
Qed.

Lemma split_keeps (sep c : codeUnit) (s : jsstring) :
  c <> sep -> In c s -> exists p, In p (split sep s) /\ In c p.
Proof.
  intros Hne. induction s as [| d s IH]; intros Hin; [destruct Hin |].
  cbn [split]. pose proof (split_not_nil sep s) as Hnn.
  destruct (N.eqb_spec d sep) as [-> | Hd].
  - destruct Hin as [E | Hin]; [congruence |].
    destruct (IH Hin) as [p [Hp Hcp]]. exists p. cbn. auto.
  - destruct Hin as [-> | Hin].
    + destruct (split sep s) as [| p ps]; [congruence |].
      exists (c :: p). cbn. auto.
    + destruct (IH Hin) as [w [Hw Hcw]].
      destruct (split sep s) as [| p ps]; [destruct Hw |].
      destruct Hw as [<- | Hw].
      * exists (d :: p). cbn. auto.
      * exists w. cbn. auto.
Qed.

Lemma join_keeps (sep c : codeUnit) (ws : list jsstring) (w : jsstring) :
  In w ws -> In c w -> In c (join sep ws).
Proof.
  intros Hw Hc. induction ws as [| v ws IH]; [destruct Hw |].
  destruct ws as [| v' ws].
  - destruct Hw as [-> | []]. exact Hc.
  - rewrite join_cons by discriminate. apply in_or_app.
    destruct Hw as [-> | Hw]; [left; exact Hc |]. right. right. auto.
Qed.

Lemma capitalizeWord_keeps_bound (n : nat) (c : codeUnit) (w : jsstring) :
  (List.length w < n)%nat ->
  upperCodeUnit c = [c] -> lowerCodeUnit c = [c] ->
  c <> HYPHEN -> c <> APOSTROPHE ->
  In c w -> In c (FullName.capitalizeWord w).
Proof.
  intros Hn Hup Hlow Hh Ha. revert w Hn.
  induction n as [| n IH]; intros w Hn Hin; [lia |].
  destruct (includes HYPHEN w) eqn:Hhy.
  - rewrite capitalizeWord_eq, Hhy. apply includes_In in Hhy.
    destruct (split_keeps HYPHEN c w Hh Hin) as [p [Hp Hcp]].
    apply (join_keeps _ _ _ (FullName.capitalizeWord p)).
    + apply in_map. exact Hp.
    + apply IH; [| exact Hcp].
      pose proof (split_piece_lt HYPHEN w p Hhy Hp). lia.
  - apply includes_false in Hhy.
    destruct (includes APOSTROPHE w) eqn:Hap.
    + apply includes_In in Hap.
      destruct (indexOf_decompose _ _ Hap) as [p [t [-> [Hnp _]]]].
      rewrite capitalizeWord_apostrophe by assumption.
      apply in_app_or in Hin. apply in_or_app.
      destruct Hin as [Hin | [E | Hin]]; [left; exact Hin | congruence |].
      right. right. destruct t as [| d t]; [destruct Hin |].
      apply IH; [| exact Hin]. rewrite length_app in Hn. cbn in Hn. cbn. lia.
    + apply includes_false in Hap. rewrite capitalizeWord_plain by assumption.
      destruct w as [| d rest]; [destruct Hin |]. apply in_or_app.
      destruct Hin as [-> | Hin].
      * left. rewrite Hup. left. reflexivity.
      * right. apply toLowerCase_keeps; assumption.
Qed.

Lemma processWord_keeps (index : nat) (c : codeUnit) (w : jsstring) :
  upperCodeUnit c = [c] -> lowerCodeUnit c = [c] ->
  c <> HYPHEN -> c <> APOSTROPHE ->
  In c w -> In c (FullName.processWord index w).
Proof.
  intros Hup Hlow Hh Ha Hin.
  pose proof (capitalizeWord_keeps_bound (S (List.length w)) c w
                (Nat.lt_succ_diag_r _) Hup Hlow Hh Ha Hin) as Hcap.
  unfold FullName.processWord. destruct (index =? 0)%nat; [exact Hcap |].
  destruct (FullName.includesWord _ _); [| exact Hcap].
  apply toLowerCase_keeps; assumption.
Qed.

Lemma mapIndexed_In (f : nat -> jsstring -> jsstring) (index : nat)
      (ws : list jsstring) (w : jsstring) :
  In w ws -> exists i, In (f i w) (FullName.mapIndexed f index ws).
Proof.
  revert index. induction ws as [| v ws IH]; intros index Hin; [destruct Hin |].
  cbn [FullName.mapIndexed]. destruct Hin as [-> | Hin].
  - exists index. left. reflexivity.
  - destruct (IH (S index) Hin) as [i Hi]. exists i. right. exact Hi.
Qed.

Lemma checkWords_refuses (words : list jsstring) (word : jsstring) :
  In word words -> FullName.onlyNameChars word = false ->
  FullName.checkWords words = false.
Proof.
  intros Hin Ho. induction words as [| w ws IH]; [destruct Hin |].
  cbn [FullName.checkWords].
  destruct ((List.length w =? 1)%nat
            && negb (FullName.includesWord FullName.validSingleCharWords
                                           (toLowerCase w))); [reflexivity |].
  destruct (FullName.startsWithLetter w); [| reflexivity]. cbn [negb].
  destruct Hin as [-> | Hin].
  - rewrite Ho. reflexivity.
  - destruct (FullName.onlyNameChars w); [| reflexivity]. cbn [negb]. auto.
Qed.

Lemma onlyNameChars_refuses (c : codeUnit) (word : jsstring) :
  In c word -> FullName.isNameChar c = false ->
  FullName.onlyNameChars word = false.
Proof.
  intros Hin Hc. destruct word as [| d word]; [reflexivity |].
  unfold FullName.onlyNameChars. apply not_true_iff_false. intros H.
  rewrite forallb_forall in H. specialize (H c Hin). congruence.
Qed.

(** X17. An input with an ASCII character in it that is neither white
    space, nor a letter, a hyphen or an apostrophe (a digit, a commercial
    at, an exclamation mark, ...) is refused: [new FullName] throws and
    [FullName.isValid] is false, wherever the character stands. *)
Theorem FullName_rejects_other_characters (x : jsstring) (c : codeUnit) :
  In c x -> c < 128 ->
  isWhiteSpace c = false -> FullName.isNameChar c = false ->
  (exists m, FullName.construct x = Throw m) /\ FullName.isValid x = false.
Proof.
  intros Hin Hascii Hws Hname.
  destruct (caseless_ascii c Hascii Hname) as [Hup Hlow].
  assert (c <> HYPHEN /\ c <> APOSTROPHE) as [Hh Ha]
    by (split; intros ->; discriminate Hname).
  assert (In c (trim x)) as Htrim
    by (apply trimEnd_keeps, trimStart_keeps; assumption).
  destruct (splitRuns_keeps c (trim x) false Hws Htrim) as [w [Hw Hcw]].
  fold (splitWhiteSpace (trim x)) in Hw.
  assert (FullName.validate (FullName.normalizeName x) = false) as Hval.
  { destruct (normalizeName_words x)
      as [[E _] | [rs [Ers [_ [_ [En [Et [Ec Es]]]]]]]].
    - rewrite E in Hw. destruct Hw as [<- | []]. destruct Hcw.
    - destruct (mapIndexed_In FullName.processWord 0 _ w Hw) as [i Hi].
      rewrite <- Ers in Hi.
      unfold FullName.validate. rewrite En, Et.
      unfold splitWhiteSpace. rewrite <- split_collapse.
      fold (collapseWhiteSpace (join SPACE rs)). rewrite Ec, Es.
      destruct (List.length rs <? 2)%nat; [reflexivity |].
      apply (checkWords_refuses rs (FullName.processWord i w) Hi).
      apply (onlyNameChars_refuses c); [| exact Hname].
      apply processWord_keeps; assumption. }
  assert (exists m, FullName.construct x = Throw m) as Hthrow.
  { rewrite FullName_construct_cases. cbv zeta. rewrite Hval.
    destruct (_ <? 3); [eauto |]. destruct (100 <? _); eauto. }
  split; [exact Hthrow |].
  unfold FullName.isValid. rewrite safeParse_success_all.
  unfold FullName.schema. cbn [forallb passes]. rewrite Hval.
  rewrite !andb_false_r. reflexivity.
Qed.

Lemma FullName_rejects_other_characters_witness :
  (exists m, FullName.construct (js "João Silva123") = Throw m)
  /\ FullName.isValid (js "João Silva123") = false.
Proof.
  apply (FullName_rejects_other_characters (js "João Silva123") 50).
  - vm_compute. tauto.
  - reflexivity.
  - reflexivity.
  - reflexivity.
Defined.

(* ================================================================== *)
(** * FullName: [capitalizeWord] piece by piece *)
(* ================================================================== *)

Lemma capitalizeWord_as_join (w : jsstring) :
  join HYPHEN (map FullName.capitalizeWord (split HYPHEN w))
  = FullName.capitalizeWord w.
Proof.
  destruct (includes HYPHEN w) eqn:Hh.
  - rewrite (capitalizeWord_eq w), Hh. reflexivity.
  - apply includes_false in Hh. rewrite split_no_sep by exact Hh. reflexivity.
Qed.

(* ================================================================== *)
(** * FullName: normalising changes the case of letters and nothing else *)
(* ================================================================== *)










(* ================================================================== *)
(** * The case tables: what the proofs use of them *)
(* ================================================================== *)

Lemma capitalizePlain_cons (c : codeUnit) (rest : jsstring) :
  capitalizePlain (c :: rest) = upperCodeUnit c ++ toLowerCase rest.
Proof.
  unfold capitalizePlain, toUpperCase, charAt0, substringFrom. cbn.
  rewrite app_nil_r. reflexivity.
Qed.

Lemma lowerFixed_all (c : codeUnit) :
  toLowerCase (lowerCodeUnit c) = lowerCodeUnit c.
Proof.
  apply jsstring_eqb_eq. revert c. apply (case_fact lowerFixed).
  - vm_compute. reflexivity.
  - intros c _ Hl _ _. unfold lowerFixed. apply jsstring_eqb_eq.
    rewrite Hl. unfold toLowerCase. cbn [flat_map]. rewrite Hl. reflexivity.
Qed.

Lemma capitalFixed_all (c : codeUnit) :
  capitalizePlain (upperCodeUnit c) = upperCodeUnit c
  <-> growsInUpperCase c = false.
Proof.
  assert (capitalFixed c = true) as H.
  { revert c. apply (case_fact capitalFixed).
    - vm_compute. reflexivity.
    - intros c Hu _ Hg _. unfold capitalFixed. rewrite Hu, Hg.
      rewrite capitalizePlain_cons, Hu. cbn [toLowerCase flat_map app].
      replace (jsstring_eqb [c] [c]) with true
        by (symmetry; apply jsstring_eqb_eq; reflexivity).
      reflexivity. }
  unfold capitalFixed in H. apply eqb_prop in H.
  rewrite <- jsstring_eqb_eq, H. destruct (growsInUpperCase c); cbn; split; congruence.
Qed.

Lemma connectorSafe_all (c : codeUnit) :
  toLowerCase (upperCodeUnit c) = lowerCodeUnit c
  \/ startsConnector (toLowerCase (upperCodeUnit c)) = false.
Proof.
  assert (connectorSafe c = true) as H.
  { revert c. apply (case_fact connectorSafe).
    - vm_compute. reflexivity.
    - intros c Hu Hl _ _. unfold connectorSafe. rewrite Hu.
      unfold toLowerCase. cbn [flat_map]. rewrite Hl. cbn [app].
      replace (jsstring_eqb [c] [c]) with true
        by (symmetry; apply jsstring_eqb_eq; reflexivity).
      reflexivity. }
  unfold connectorSafe in H. apply orb_true_iff in H.
  destruct H as [H | H]; [left; apply jsstring_eqb_eq; exact H |].
  right. apply negb_true_iff. exact H.
Qed.

Lemma images_all (c : codeUnit) :
  upperCodeUnit c <> [] /\ lowerCodeUnit c <> []
  /\ (forall d, In d (upperCodeUnit c) \/ In d (lowerCodeUnit c) ->
                d = c \/ 65 <= d).
Proof.
  assert (imagesAreLetters c = true) as H.
  { revert c. apply (case_fact imagesAreLetters).
    - vm_compute. reflexivity.
    - intros c Hu Hl _ _. unfold imagesAreLetters. rewrite Hu, Hl.
      cbn. rewrite N.eqb_refl. reflexivity. }
  unfold imagesAreLetters in H. rewrite !andb_true_iff in H.
  destruct H as [[H1 H2] H3]. split; [| split].
  - intros E. rewrite E in H1. discriminate H1.
  - intros E. rewrite E in H2. discriminate H2.
  - intros d Hd. rewrite forallb_forall in H3.
    specialize (H3 d ltac:(apply in_or_app; exact Hd)).
    apply orb_true_iff in H3. destruct H3 as [E | E].
    + left. apply N.eqb_eq. exact E.
    + right. apply N.leb_le. exact E.
Qed.

(* ================================================================== *)
(** * The case of a string, and its hyphens and apostrophes *)
(* ================================================================== *)

Lemma toLowerCase_twice_all (s : jsstring) :
  toLowerCase (toLowerCase s) = toLowerCase s.
Proof.
  induction s as [| c s IH]; [reflexivity |].
  change (toLowerCase (c :: s)) with (lowerCodeUnit c ++ toLowerCase s).
  rewrite toLowerCase_app, IH, lowerFixed_all. reflexivity.
Qed.

Lemma toLowerCase_no_mark (sep : codeUnit) (s : jsstring) :
  sep < 65 -> ~ In sep s -> ~ In sep (toLowerCase s).
Proof.
  intros Hsep Hs Hin. unfold toLowerCase in Hin. apply in_flat_map in Hin.
  destruct Hin as [c [Hc Hd]].
  destruct (images_all c) as [_ [_ H]].
  destruct (H sep (or_intror Hd)) as [-> | Hge]; [contradiction | lia].
Qed.

Lemma capitalizePlain_no_mark (sep : codeUnit) (s : jsstring) :
  sep < 65 -> ~ In sep s -> ~ In sep (capitalizePlain s).
Proof.
  intros Hsep Hs. destruct s as [| c rest]; [exact Hs |].
  rewrite capitalizePlain_cons. intros Hin. apply in_app_or in Hin.
  destruct Hin as [Hin | Hin].
  - destruct (images_all c) as [_ [_ H]].
    destruct (H sep (or_introl Hin)) as [-> | Hge]; [| lia].
    apply Hs. left. reflexivity.
  - revert Hin. apply toLowerCase_no_mark; [exact Hsep |].
    intros Hin. apply Hs. right. exact Hin.
Qed.

Lemma capitalizePlain_twice (s : jsstring) :
  capitalizePlain (capitalizePlain s) = capitalizePlain s
  <-> existsb growsInUpperCase (charAt0 s) = false.
Proof.
  destruct s as [| c rest]; [cbn; tauto |].
  unfold charAt0. cbn [firstn existsb]. rewrite orb_false_r.
  rewrite <- capitalFixed_all. rewrite capitalizePlain_cons.
  destruct (images_all c) as [Hne _].
  destruct (upperCodeUnit c) as [| u us]; [congruence |].
  cbn [app]. rewrite !capitalizePlain_cons, toLowerCase_app, toLowerCase_twice_all.
  rewrite app_assoc.
  change (u :: us ++ toLowerCase rest) with ((u :: us) ++ toLowerCase rest).
  split; intros H.
  - apply app_inv_tail in H. exact H.
  - rewrite H. reflexivity.
Qed.
(* ================================================================== *)
(** * FullName: the two parts of a piece *)
(* ================================================================== *)

Lemma keptPart_capitalizedPart (p : jsstring) :
  keptPart p ++ capitalizedPart p = p.
Proof.
  induction p as [| c p IH]; [reflexivity |]. cbn [keptPart capitalizedPart].
  destruct (includes APOSTROPHE (c :: p)); [| reflexivity].
  cbn [app]. rewrite IH. reflexivity.
Qed.

Lemma parts_no_apostrophe (p : jsstring) :
  ~ In APOSTROPHE p -> keptPart p = [] /\ capitalizedPart p = p.
Proof.
  intros H. apply includes_false in H.
  destruct p as [| c p]; [auto |]. cbn [keptPart capitalizedPart].
  rewrite H. auto.
Qed.

Lemma parts_after_apostrophe (a t : jsstring) :
  keptPart (a ++ APOSTROPHE :: t) = a ++ APOSTROPHE :: keptPart t
  /\ capitalizedPart (a ++ APOSTROPHE :: t) = capitalizedPart t.
Proof.
  induction a as [| c a [IH1 IH2]].
  - cbn [app keptPart capitalizedPart].
    assert (includes APOSTROPHE (APOSTROPHE :: t) = true) as ->
      by (apply includes_In; left; reflexivity).
    auto.
  - cbn [app keptPart capitalizedPart].
    assert (includes APOSTROPHE (c :: a ++ APOSTROPHE :: t) = true) as ->
      by (apply includes_In; right; apply in_elt).
    rewrite IH1, IH2. auto.
Qed.

Lemma capitalizedPart_no_apostrophe (p : jsstring) :
  ~ In APOSTROPHE (capitalizedPart p).
Proof.
  induction p as [| c p IH]; [tauto |]. cbn [capitalizedPart].
  destruct (includes APOSTROPHE (c :: p)) eqn:H; [exact IH |].
  apply includes_false. exact H.
Qed.

Lemma keptPart_end (p : jsstring) :
  keptPart p = [] \/ exists a, keptPart p = a ++ [APOSTROPHE].
Proof.
  induction p as [| c p IH]; [auto |]. cbn [keptPart].
  destruct (includes APOSTROPHE (c :: p)) eqn:H; [| auto]. right.
  destruct IH as [E | [a E]].
  - rewrite E. exists []. cbn [app]. f_equal.
    apply includes_In in H. destruct H as [H | H]; [auto |].
    destruct p as [| d p]; [destruct H |]. cbn [keptPart] in E.
    apply includes_In in H. rewrite H in E. discriminate E.
  - rewrite E. exists (c :: a). reflexivity.
Qed.

Lemma parts_incl (p : jsstring) (c : codeUnit) :
  In c (keptPart p) \/ In c (capitalizedPart p) -> In c p.
Proof.
  intros H. rewrite <- (keptPart_capitalizedPart p). apply in_or_app. exact H.
Qed.

(** The parts of a piece that has been capitalised. *)
Lemma parts_of_capitalizePiece (p : jsstring) :
  keptPart (capitalizePiece p) = keptPart p
  /\ capitalizedPart (capitalizePiece p) = capitalizePlain (capitalizedPart p).
Proof.
  unfold capitalizePiece.
  assert (~ In APOSTROPHE (capitalizePlain (capitalizedPart p))) as Hm.
  { apply capitalizePlain_no_mark; [reflexivity |].
    apply capitalizedPart_no_apostrophe. }
  destruct (parts_no_apostrophe _ Hm) as [Hk Hc].
  destruct (keptPart_end p) as [-> | [a ->]]; [auto |].
  rewrite <- app_assoc. cbn [app].
  destruct (parts_after_apostrophe a (capitalizePlain (capitalizedPart p)))
    as [-> ->].
  rewrite Hk, Hc. auto.
Qed.

(* ================================================================== *)
(** * FullName: [capitalizeWord] in one step *)
(* ================================================================== *)

Lemma capitalizeWord_piece_bound (n : nat) (p : jsstring) :
  (List.length p < n)%nat -> ~ In HYPHEN p ->
  FullName.capitalizeWord p = capitalizePiece p.
Proof.
  revert p. induction n as [| n IH]; intros p Hn Hh; [lia |].
  unfold capitalizePiece.
  destruct (includes APOSTROPHE p) eqn:Ha.
  - apply includes_In in Ha.
    destruct (indexOf_decompose _ _ Ha) as [a [t [-> [Hna _]]]].
    rewrite capitalizeWord_apostrophe by assumption.
    destruct (parts_after_apostrophe a t) as [-> ->].
    rewrite <- app_assoc. cbn [app]. do 2 f_equal.
    destruct t as [| d t]; [reflexivity |].
    apply IH.
    + rewrite length_app in Hn. cbn in Hn. cbn. lia.
    + intros H. apply Hh. apply in_or_app. right. right. exact H.
  - apply includes_false in Ha.
    destruct (parts_no_apostrophe p Ha) as [-> ->].
    rewrite capitalizeWord_plain by assumption.
    destruct p as [| c rest]; [reflexivity |].
    rewrite capitalizePlain_cons. reflexivity.
Qed.

(** Between its hyphens a word is capitalised piece by piece; in a piece,
    what runs up to the last apostrophe is kept as typed, and what follows
    has its first character in upper case and the others in lower case. *)
Lemma capitalizeWord_closed (w : jsstring) :
  FullName.capitalizeWord w = join HYPHEN (map capitalizePiece (split HYPHEN w)).
Proof.
  rewrite <- (capitalizeWord_as_join w). f_equal.
  apply map_ext_in. intros p Hp.
  pose proof (split_pieces_no_sep HYPHEN w) as Hfree.
  rewrite Forall_forall in Hfree.
  apply (capitalizeWord_piece_bound (S (List.length p))); [lia | auto].
Qed.

(** X18. [capitalizeWord] in one step, for every word of characters of
    the case tables: the word is cut at its hyphens; in each piece,
    everything up to and including the last apostrophe is kept exactly as
    typed (no letter of it is raised or lowered), and what follows the last
    apostrophe gets its first character in upper case and its other
    characters in lower case; the pieces are joined by hyphens again. *)
Theorem capitalizeWord_closed_form (word : jsstring) :
  forallb inCaseTables word = true ->
  FullName.capitalizeWord word
  = join HYPHEN
      (map (fun piece =>
              keptPart piece
              ++ toUpperCase (charAt0 (capitalizedPart piece))
              ++ toLowerCase (substringFrom 1 (capitalizedPart piece)))
           (split HYPHEN word))
  /\ (forall piece, In piece (split HYPHEN word) ->
        keptPart piece ++ capitalizedPart piece = piece
        /\ ~ In APOSTROPHE (capitalizedPart piece)
        /\ (keptPart piece = [] /\ ~ In APOSTROPHE piece
            \/ exists before, keptPart piece = before ++ [APOSTROPHE])).
Proof.
  intros _. split; [exact (capitalizeWord_closed word) |].
  intros piece _. split; [apply keptPart_capitalizedPart |].
  split; [apply capitalizedPart_no_apostrophe |].
  destruct (keptPart_end piece) as [E | H]; [left | right; exact H].
  split; [exact E |]. intros Hin.
  destruct piece as [| c piece]; [destruct Hin |].
  cbn [keptPart] in E. apply includes_In in Hin. rewrite Hin in E.
  discriminate E.
Qed.

Lemma capitalizeWord_closed_form_witness :
  FullName.capitalizeWord (js "o'NEIL-mc'dOnald-d'") = js "o'Neil-mc'Donald-d'"
  /\ keptPart (js "mc'dOnald") = js "mc'"
  /\ capitalizedPart (js "mc'dOnald") = js "dOnald".
Proof.
  split; [| split; vm_compute; reflexivity].
  rewrite (proj1 (capitalizeWord_closed_form (js "o'NEIL-mc'dOnald-d'") eq_refl)).
  vm_compute. reflexivity.
Defined.
(* ================================================================== *)
(** * FullName: when capitalising twice is capitalising once *)
(* ================================================================== *)

Lemma capitalizePiece_twice (p : jsstring) :
  capitalizePiece (capitalizePiece p) = capitalizePiece p
  <-> existsb growsInUpperCase (charAt0 (capitalizedPart p)) = false.
Proof.
  rewrite <- capitalizePlain_twice.
  unfold capitalizePiece at 1 3.
  destruct (parts_of_capitalizePiece p) as [-> ->].
  split; intros H.
  - apply app_inv_head in H. exact H.
  - rewrite H. reflexivity.
Qed.

Lemma capitalizePiece_no_hyphen (p : jsstring) :
  ~ In HYPHEN p -> ~ In HYPHEN (capitalizePiece p).
Proof.
  intros Hp Hin. unfold capitalizePiece in Hin. apply in_app_or in Hin.
  destruct Hin as [Hin | Hin].
  - apply Hp. apply parts_incl. left. exact Hin.
  - revert Hin. apply capitalizePlain_no_mark; [reflexivity |].
    intros Hin. apply Hp. apply parts_incl. right. exact Hin.
Qed.

Lemma join_inj (sep : codeUnit) (l1 l2 : list jsstring) :
  l1 <> [] -> l2 <> [] ->
  Forall (fun w => ~ In sep w) l1 -> Forall (fun w => ~ In sep w) l2 ->
  join sep l1 = join sep l2 -> l1 = l2.
Proof.
  intros H1 H2 F1 F2 E.
  rewrite <- (split_join sep l1 H1 F1), <- (split_join sep l2 H2 F2), E.
  reflexivity.
Qed.

Lemma map_twice (f : jsstring -> jsstring) (l : list jsstring) :
  map f (map f l) = map f l <-> Forall (fun x => f (f x) = f x) l.
Proof.
  induction l as [| x l IH]; cbn [map].
  - split; [constructor | reflexivity].
  - split; intros H.
    + injection H as H1 H2. constructor; [exact H1 | apply IH; exact H2].
    + inversion H as [| ? ? H1 H2]; subst. rewrite H1. f_equal.
      apply IH. exact H2.
Qed.

Lemma existsb_flat_map (A B : Type) (g : B -> bool) (h : A -> list B)
      (l : list A) :
  existsb g (flat_map h l) = false
  <-> Forall (fun x => existsb g (h x) = false) l.
Proof.
  induction l as [| x l IH]; cbn [flat_map].
  - split; [constructor | reflexivity].
  - rewrite existsb_app, orb_false_iff, IH. split.
    + intros [H1 H2]. constructor; assumption.
    + intros H. inversion H; subst. auto.
Qed.

(** The first characters of the capitalised parts of a word. *)
Lemma capitalizeWord_twice_iff (w : jsstring) :
  FullName.capitalizeWord (FullName.capitalizeWord w) = FullName.capitalizeWord w
  <-> existsb growsInUpperCase
              (flat_map (fun piece => charAt0 (capitalizedPart piece))
                        (split HYPHEN w)) = false.
Proof.
  rewrite existsb_flat_map.
  pose proof (split_pieces_no_sep HYPHEN w) as Hfree.
  pose proof (split_not_nil HYPHEN w) as Hne.
  assert (Forall (fun p => ~ In HYPHEN p) (map capitalizePiece (split HYPHEN w)))
    as Hfree1.
  { apply Forall_map. eapply Forall_impl; [| exact Hfree].
    intros p Hp. apply capitalizePiece_no_hyphen. exact Hp. }
  assert (Forall (fun p => ~ In HYPHEN p)
                 (map capitalizePiece (map capitalizePiece (split HYPHEN w))))
    as Hfree2.
  { apply Forall_map. eapply Forall_impl; [| exact Hfree1].
    intros p Hp. apply capitalizePiece_no_hyphen. exact Hp. }
  assert (map capitalizePiece (split HYPHEN w) <> []) as Hne1
    by (destruct (split HYPHEN w); [congruence | discriminate]).
  assert (map capitalizePiece (map capitalizePiece (split HYPHEN w)) <> [])
    as Hne2
    by (destruct (split HYPHEN w); [congruence | discriminate]).
  rewrite (capitalizeWord_closed (FullName.capitalizeWord w)).
  rewrite (capitalizeWord_closed w).
  rewrite (split_join HYPHEN _ Hne1 Hfree1).
  split.
  - intros H. apply join_inj in H; try assumption.
    apply map_twice in H. eapply Forall_impl; [| exact H].
    intros p Hp. apply capitalizePiece_twice. exact Hp.
  - intros H. f_equal. apply map_twice. eapply Forall_impl; [| exact H].
    intros p Hp. apply capitalizePiece_twice. exact Hp.
Qed.

(* ================================================================== *)
(** * FullName: a capitalised word is a connector only if the word is *)
(* ================================================================== *)

Lemma charAt0_app (a b : jsstring) : a <> [] -> charAt0 (a ++ b) = charAt0 a.
Proof. destruct a as [| c a]; [congruence | reflexivity]. Qed.

Lemma toLowerCase_not_nil (s : jsstring) : s <> [] -> toLowerCase s <> [].
Proof.
  destruct s as [| c s]; [congruence |]. intros _ E.
  change (toLowerCase (c :: s)) with (lowerCodeUnit c ++ toLowerCase s) in E.
  apply app_eq_nil in E. destruct (images_all c) as [_ [H _]]. tauto.
Qed.

Lemma connector_marks (word : jsstring) (c : codeUnit) :
  In word FullName.lowerCaseWords -> In c word -> isAsciiLower c = true.
Proof.
  intros Hw Hc. pose proof (lowerCaseWords_letters word Hw) as H.
  rewrite Forall_forall in H. auto.
Qed.

Lemma capitalizeWord_connector (w : jsstring) :
  In (toLowerCase (FullName.capitalizeWord w)) FullName.lowerCaseWords ->
  In (toLowerCase w) FullName.lowerCaseWords.
Proof.
  intros Hyes.
  destruct (includes HYPHEN w) eqn:Hh.
  { exfalso. apply includes_In in Hh.
    destruct (split_two HYPHEN w Hh) as [p [q [ps E]]].
    rewrite capitalizeWord_closed, E in Hyes. cbn [map] in Hyes.
    rewrite join_cons in Hyes by discriminate.
    assert (In HYPHEN (toLowerCase
                         (capitalizePiece p
                          ++ HYPHEN :: join HYPHEN (capitalizePiece q
                                                    :: map capitalizePiece ps))))
      as Hin by (apply toLowerCase_keeps; [reflexivity | apply in_elt]).
    pose proof (connector_marks _ _ Hyes Hin) as Hl. discriminate Hl. }
  apply includes_false in Hh.
  rewrite capitalizeWord_closed, (split_no_sep HYPHEN w Hh) in Hyes.
  cbn [map join] in Hyes.
  destruct (includes APOSTROPHE w) eqn:Ha.
  { exfalso. apply includes_In in Ha.
    assert (In APOSTROPHE (capitalizePiece w)) as Hin.
    { unfold capitalizePiece. apply in_or_app. left.
      destruct (keptPart_end w) as [E | [a E]].
      - exfalso. apply (capitalizedPart_no_apostrophe w).
        pose proof (keptPart_capitalizedPart w) as Hw. rewrite E in Hw.
        cbn [app] in Hw. rewrite Hw. exact Ha.
      - rewrite E. apply in_elt. }
    apply (toLowerCase_keeps APOSTROPHE) in Hin; [| reflexivity].
    pose proof (connector_marks _ _ Hyes Hin) as Hl. discriminate Hl. }
  apply includes_false in Ha.
  unfold capitalizePiece in Hyes.
  destruct (parts_no_apostrophe w Ha) as [Hk Hc]. rewrite Hk, Hc in Hyes.
  cbn [app] in Hyes.
  destruct w as [| c rest]; [exact Hyes |].
  rewrite capitalizePlain_cons, toLowerCase_app, toLowerCase_twice_all in Hyes.
  change (toLowerCase (c :: rest)) with (lowerCodeUnit c ++ toLowerCase rest).
  destruct (connectorSafe_all c) as [E | E]; [rewrite <- E; exact Hyes |].
  exfalso. unfold startsConnector in E.
  assert (existsb (fun w => jsstring_eqb
                              (firstn (List.length (toLowerCase (upperCodeUnit c))) w)
                              (toLowerCase (upperCodeUnit c)))
                  FullName.lowerCaseWords = true) as Hex.
  { apply existsb_exists. eexists. split; [exact Hyes |].
    apply jsstring_eqb_eq. rewrite firstn_app, Nat.sub_diag, firstn_all.
    cbn [firstn]. apply app_nil_r. }
  congruence.
Qed.

Lemma grows_lower (c : codeUnit) :
  growsInUpperCase c = true ->
  exists d, In d (lowerCodeUnit c) /\ isAsciiLower d = false.
Proof.
  intros H. unfold growsInUpperCase in H. apply existsb_exists in H.
  destruct H as [g [Hin E]]. apply N.eqb_eq in E. subst g.
  assert (forallb (fun g => existsb (fun d => negb (isAsciiLower d))
                                    (lowerCodeUnit g))
                  growingLetters = true) as Hall
    by (vm_compute; reflexivity).
  rewrite forallb_forall in Hall. specialize (Hall c Hin).
  apply existsb_exists in Hall. destruct Hall as [d [Hd Ha]].
  exists d. split; [exact Hd |]. apply negb_true_iff. exact Ha.
Qed.

Lemma heads_incl (w : jsstring) (c : codeUnit) :
  In c (flat_map (fun piece => charAt0 (capitalizedPart piece)) (split HYPHEN w)) ->
  In c w.
Proof.
  intros H. apply in_flat_map in H. destruct H as [p [Hp Hc]].
  assert (In c p) as Hcp.
  { apply parts_incl. right. unfold charAt0 in Hc.
    destruct (capitalizedPart p) as [| d t]; [destruct Hc |].
    cbn in Hc. destruct Hc as [<- | []]. left. reflexivity. }
  rewrite <- (join_split HYPHEN w). apply (join_keeps _ _ _ p); assumption.
Qed.

Lemma processWord_twice_iff (index : nat) (w : jsstring) :
  FullName.processWord index (FullName.processWord index w)
  = FullName.processWord index w
  <-> existsb growsInUpperCase
              (flat_map (fun piece => charAt0 (capitalizedPart piece))
                        (split HYPHEN w)) = false.
Proof.
  unfold FullName.processWord.
  destruct (index =? 0)%nat; [apply capitalizeWord_twice_iff |].
  destruct (FullName.includesWord FullName.lowerCaseWords (toLowerCase w)) eqn:Hc.
  - rewrite toLowerCase_twice_all, Hc. split; [intros _ | reflexivity].
    apply not_true_iff_false. intros Hex. apply existsb_exists in Hex.
    destruct Hex as [c [Hin Hg]]. apply heads_incl in Hin.
    destruct (grows_lower c Hg) as [d [Hd Ha]].
    assert (In d (toLowerCase w)) as Hin'
      by (unfold toLowerCase; apply in_flat_map; eauto).
    apply includesWord_In in Hc.
    pose proof (connector_marks _ _ Hc Hin'). congruence.
  - assert (FullName.includesWord FullName.lowerCaseWords
              (toLowerCase (FullName.capitalizeWord w)) = false) as ->.
    { apply not_true_iff_false. intros H. apply includesWord_In in H.
      apply capitalizeWord_connector in H. apply includesWord_In in H.
      congruence. }
    apply capitalizeWord_twice_iff.
Qed.

Lemma mapIndexed_twice_iff (index : nat) (ws : list jsstring) :
  FullName.mapIndexed FullName.processWord index
    (FullName.mapIndexed FullName.processWord index ws)
  = FullName.mapIndexed FullName.processWord index ws
  <-> Forall (fun w =>
                existsb growsInUpperCase
                  (flat_map (fun piece => charAt0 (capitalizedPart piece))
                            (split HYPHEN w)) = false) ws.
Proof.
  revert index. induction ws as [| w ws IH]; intros index;
    cbn [FullName.mapIndexed].
  - split; [constructor | reflexivity].
  - split; intros H.
    + injection H as H1 H2. constructor.
      * apply (processWord_twice_iff index). exact H1.
      * apply (IH (S index)). exact H2.
    + inversion H as [| ? ? H1 H2]; subst. f_equal.
      * apply processWord_twice_iff. exact H1.
      * apply IH. exact H2.
Qed.

Lemma goodWords_no_space (ws : list jsstring) :
  goodWords ws -> Forall (fun w => ~ In SPACE w) ws.
Proof.
  intros H. eapply Forall_impl; [| exact H]. intros w [_ Hnw] Hin.
  unfold noWhiteSpace in Hnw. rewrite Forall_forall in Hnw.
  specialize (Hnw SPACE Hin). discriminate Hnw.
Qed.

(** Normalising twice is normalising once exactly when no capitalised
    part starts with a character that grows in upper case. *)
Lemma normalizeName_twice_iff (x : jsstring) :
  FullName.normalizeName (FullName.normalizeName x) = FullName.normalizeName x
  <-> growingCapital x = false.
Proof.
  unfold growingCapital, capitalizedHeads. rewrite existsb_flat_map.
  rewrite <- (mapIndexed_twice_iff 0).
  destruct (normalizeName_words x)
    as [[Hw Hn] | [rs [Ers [Hne [Hg [Hn [Et [Ec Es]]]]]]]].
  - rewrite Hw, Hn. cbn. tauto.
  - rewrite <- Ers, Hn.
    assert (FullName.normalizeName (join SPACE rs)
            = join SPACE (FullName.mapIndexed FullName.processWord 0 rs)) as E.
    { unfold FullName.normalizeName. rewrite Et, Ec, Es. reflexivity. }
    rewrite E. split; intros H.
    + apply join_inj in H; [exact H | | exact Hne | |].
      * apply mapIndexed_not_nil. exact Hne.
      * apply goodWords_no_space. apply mapIndexed_good. exact Hg.
      * apply goodWords_no_space. exact Hg.
    + rewrite H. reflexivity.
Qed.

(* ================================================================== *)
(** * FullName: the accepted inputs lie in the case tables *)
(* ================================================================== *)

Lemma join_incl (sep : codeUnit) (ws : list jsstring) (w : jsstring) :
  In w ws -> incl w (join sep ws).
Proof. intros Hw c Hc. exact (join_keeps sep c ws w Hw Hc). Qed.

(** A character of a word is found again in the processed word: as it
    was, or in upper case, or in lower case. *)
Lemma processWord_trace (index : nat) (w : jsstring) (c : codeUnit) :
  In c w -> c <> HYPHEN ->
  In c (FullName.processWord index w)
  \/ incl (upperCodeUnit c) (FullName.processWord index w)
  \/ incl (lowerCodeUnit c) (FullName.processWord index w).
Proof.
  intros Hin Hh.
  assert (incl (lowerCodeUnit c) (toLowerCase w)) as Hlow.
  { intros d Hd. unfold toLowerCase. apply in_flat_map. eauto. }
  assert (In c (FullName.capitalizeWord w)
          \/ incl (upperCodeUnit c) (FullName.capitalizeWord w)
          \/ incl (lowerCodeUnit c) (FullName.capitalizeWord w)) as Hcap.
  { rewrite capitalizeWord_closed.
    destruct (split_keeps HYPHEN c w Hh Hin) as [p [Hp Hcp]].
    assert (incl (capitalizePiece p)
                 (join HYPHEN (map capitalizePiece (split HYPHEN w)))) as Hj
      by (apply join_incl, in_map; exact Hp).
    rewrite <- (keptPart_capitalizedPart p) in Hcp. apply in_app_or in Hcp.
    unfold capitalizePiece in Hj.
    destruct Hcp as [Hk | Hk].
    - left. apply Hj. apply in_or_app. left. exact Hk.
    - destruct (capitalizedPart p) as [| d r]; [destruct Hk |].
      rewrite capitalizePlain_cons in Hj. destruct Hk as [-> | Hk].
      + right. left. intros e He. apply Hj. apply in_or_app. right.
        apply in_or_app. left. exact He.
      + right. right. intros e He. apply Hj. apply in_or_app. right.
        apply in_or_app. right. unfold toLowerCase. apply in_flat_map. eauto. }
  unfold FullName.processWord. destruct (index =? 0)%nat; [exact Hcap |].
  destruct (FullName.includesWord _ _); [| exact Hcap]. right. right. exact Hlow.
Qed.

Lemma outsideLeavesTrace_all (c : codeUnit) : outsideLeavesTrace c = true.
Proof.
  revert c. apply case_fact.
  - vm_compute. reflexivity.
  - intros c Hu Hl _ Hge. unfold outsideLeavesTrace. rewrite Hu, Hl.
    cbn [existsb].
    assert (FullName.isNameChar c = false) as ->.
    { unfold FullName.isNameChar, FullName.isLetter, APOSTROPHE, HYPHEN.
      apply not_true_iff_false. intros E. bool_arith. lia. }
    cbn [negb andb orb]. rewrite !andb_true_r.
    destruct (inCaseTables c) eqn:Hd; [reflexivity |]. cbn [orb].
    apply negb_true_iff. apply not_true_iff_false. intros Hw.
    unfold inCaseTables in Hd. unfold isWhiteSpace in Hw. bool_arith. lia.
Qed.

(** An input with a character outside the case tables is refused. *)
Lemma outside_refused (x : jsstring) (c : codeUnit) :
  In c x -> inCaseTables c = false ->
  FullName.validate (FullName.normalizeName x) = false.
Proof.
  intros Hin Hd. pose proof (outsideLeavesTrace_all c) as H.
  unfold outsideLeavesTrace in H. rewrite Hd in H. cbn [orb] in H.
  rewrite !andb_true_iff in H. destruct H as [[[Hname Hws] Hup] Hlow].
  apply negb_true_iff in Hname, Hws.
  apply existsb_exists in Hup, Hlow.
  destruct Hup as [u [Hu Hun]]. destruct Hlow as [l [Hl Hln]].
  apply negb_true_iff in Hun, Hln.
  assert (c <> HYPHEN) as Hh by (intros ->; discriminate Hname).
  assert (In c (trim x)) as Htrim
    by (apply trimEnd_keeps, trimStart_keeps; assumption).
  destruct (splitRuns_keeps c (trim x) false Hws Htrim) as [w [Hw Hcw]].
  fold (splitWhiteSpace (trim x)) in Hw.
  destruct (normalizeName_words x)
    as [[E _] | [rs [Ers [_ [_ [En [Et [Ec Es]]]]]]]].
  - rewrite E in Hw. destruct Hw as [<- | []]. destruct Hcw.
  - destruct (mapIndexed_In FullName.processWord 0 _ w Hw) as [i Hi].
    rewrite <- Ers in Hi.
    unfold FullName.validate. rewrite En, Et.
    unfold splitWhiteSpace. rewrite <- split_collapse.
    fold (collapseWhiteSpace (join SPACE rs)). rewrite Ec, Es.
    destruct (List.length rs <? 2)%nat; [reflexivity |].
    apply (checkWords_refuses rs (FullName.processWord i w) Hi).
    destruct (processWord_trace i w c Hcw Hh) as [H | [H | H]].
    + exact (onlyNameChars_refuses c _ H Hname).
    + exact (onlyNameChars_refuses u _ (H u Hu) Hun).
    + exact (onlyNameChars_refuses l _ (H l Hl) Hln).
Qed.

Lemma accepted_inCaseTables (x v : jsstring) :
  FullName.construct x = Return v -> forallb inCaseTables x = true.
Proof.
  intros H. destruct (FullName_construct_Return x v H) as [-> Hv].
  apply forallb_forall. intros c Hin.
  destruct (inCaseTables c) eqn:Hc; [reflexivity |]. exfalso.
  rewrite (outside_refused x c Hin Hc) in Hv. discriminate Hv.
Qed.

(** C5, as the code has it.  On an input of characters of the case tables
    (all of the Basic Multilingual Plane but the capital sigma and the few
    letters whose case depends on the version of Unicode), normalising the
    normalised name gives the normalised name exactly when no capitalised
    part (what follows the last apostrophe of a piece between hyphens of a
    word) starts with a character whose upper case is two or three
    letters: the sharp s, U+0149, U+0587, a Greek vowel with iota
    subscript, or a ligature U+FB00..U+FB06, U+FB13..U+FB17.  Every input
    [new FullName] accepts is such an input, and its stored value is its
    own normalised form under the same condition.  [new FullName] stores
    [Maria da Silva] for [maria DA silva] and [De Souza Pereira] for
    [de souza pereira]. *)
Theorem FullName_normalize_idempotent :
  (forall x : jsstring,
      forallb inCaseTables x = true ->
      (FullName.normalizeName (FullName.normalizeName x) = FullName.normalizeName x
       <-> growingCapital x = false))
  /\ (forall x v : jsstring,
         FullName.construct x = Return v ->
         forallb inCaseTables x = true
         /\ (FullName.normalizeName v = v <-> growingCapital x = false))
  /\ FullName.construct (js "maria DA silva") = Return (js "Maria da Silva")
  /\ FullName.construct (js "de souza pereira") = Return (js "De Souza Pereira").
Proof.
  split; [intros x _; apply normalizeName_twice_iff |].
  split; [| split; vm_compute; reflexivity].
  intros x v H. split; [exact (accepted_inCaseTables x v H) |].
  destruct (FullName_construct_Return x v H) as [-> _].
  apply normalizeName_twice_iff.
Qed.

Lemma FullName_normalize_idempotent_witness :
  FullName.normalizeName (FullName.normalizeName (js "  ßx'y  ſilva-ıvan de x'ßy'z "))
  = FullName.normalizeName (js "  ßx'y  ſilva-ıvan de x'ßy'z ")
  /\ FullName.normalizeName (js "  ßx'y  ſilva-ıvan de x'ßy'z ")
     = js "ßx'Y Silva-Ivan de x'ßy'Z"
  /\ FullName.normalizeName (FullName.normalizeName (js "łukasz ИВАН-петров"))
     = FullName.normalizeName (js "łukasz ИВАН-петров")
  /\ FullName.normalizeName (js "łukasz ИВАН-петров") = js "Łukasz Иван-Петров"
  /\ FullName.normalizeName (FullName.normalizeName (js "x'ßa silva"))
     <> FullName.normalizeName (js "x'ßa silva").
Proof.
  split; [| split; [| split; [| split]]].
  - apply (proj1 FullName_normalize_idempotent
                 (js "  ßx'y  ſilva-ıvan de x'ßy'z ")); vm_compute; reflexivity.
  - vm_compute. reflexivity.
  - apply (proj1 FullName_normalize_idempotent (js "łukasz ИВАН-петров"));
      vm_compute; reflexivity.
  - vm_compute. reflexivity.
  - intros H.
    apply (proj1 FullName_normalize_idempotent (js "x'ßa silva")) in H;
      [| vm_compute; reflexivity].
    vm_compute in H. discriminate H.
Defined.
(* ================================================================== *)
(** * FullName: a name that ends in a connector is judged by the words
      before it *)
(* ================================================================== *)

Lemma checkWords_app (a b : list jsstring) :
  FullName.checkWords (a ++ b) = FullName.checkWords a && FullName.checkWords b.
Proof.
  induction a as [| w a IH]; [reflexivity |].
  cbn [app FullName.checkWords].
  destruct ((List.length w =? 1)%nat
            && negb (FullName.includesWord FullName.validSingleCharWords
                                           (toLowerCase w))); [reflexivity |].
  destruct (negb (FullName.startsWithLetter w)); [reflexivity |].
  destruct (negb (FullName.onlyNameChars w)); [reflexivity |]. exact IH.
Qed.

(** Every connector passes the tests [validate] makes on a word. *)
Lemma connector_checks (word : jsstring) :
  In word FullName.lowerCaseWords ->
  FullName.checkWords [word] = true /\ word <> [].
Proof.
  intros H.
  assert (forallb (fun w => FullName.checkWords [w]
                            && negb (jsstring_eqb w []))
                  FullName.lowerCaseWords = true) as Hall
    by (vm_compute; reflexivity).
  rewrite forallb_forall in Hall. specialize (Hall word H).
  apply andb_true_iff in Hall. destruct Hall as [H1 H2]. split; [exact H1 |].
  intros ->. discriminate H2.
Qed.

(** What [validate] sees of a normalised name. *)
Lemma validate_normalized (x : jsstring) :
  FullName.validate (FullName.normalizeName x)
  = if (List.length (splitWhiteSpace (trim x)) <? 2)%nat then false
    else FullName.checkWords
           (FullName.mapIndexed FullName.processWord 0 (splitWhiteSpace (trim x))).
Proof.
  destruct (normalizeName_words x)
    as [[Hw Hn] | [rs [Ers [_ [_ [Hn [Et [Ec Es]]]]]]]].
  - rewrite Hw, Hn. reflexivity.
  - unfold FullName.validate. rewrite Hn, Et.
    unfold splitWhiteSpace at 1 2. rewrite <- !split_collapse.
    fold (collapseWhiteSpace (join SPACE rs)). rewrite Ec, Es.
    rewrite Ers at 1. rewrite mapIndexed_length. rewrite <- Ers.
    fold (splitWhiteSpace (trim x)). reflexivity.
Qed.

Lemma join_not_nil (rs : list jsstring) :
  rs <> [] -> goodWords rs -> join SPACE rs <> [].
Proof. intros Hne Hg. apply (trimEnd_join rs Hne Hg). Qed.

(** The name whose words are [before] and then a connector [w]. *)
Lemma ends_in_connector (x : jsstring) (before : list jsstring) (w : jsstring) :
  split SPACE (collapseWhiteSpace (trim x)) = before ++ [w] ->
  before <> [] ->
  In (toLowerCase w) FullName.lowerCaseWords ->
  FullName.normalizeName x
  = join SPACE (FullName.mapIndexed FullName.processWord 0 before)
    ++ SPACE :: toLowerCase w
  /\ FullName.getLastName (FullName.normalizeName x) = toLowerCase w
  /\ 3 <= jslength (FullName.normalizeName x)
  /\ FullName.validate (FullName.normalizeName x)
     = FullName.checkWords (FullName.mapIndexed FullName.processWord 0 before).
Proof.
  intros Hwords Hne Hconn.
  assert (splitWhiteSpace (trim x) = before ++ [w]) as Hws.
  { unfold splitWhiteSpace. rewrite <- split_collapse. exact Hwords. }
  assert (FullName.processWord (0 + List.length before) w = toLowerCase w) as Hpw.
  { unfold FullName.processWord.
    destruct before as [| b before]; [congruence |].
    cbn [List.length Nat.add Nat.eqb].
    apply includesWord_In in Hconn. rewrite Hconn. reflexivity. }
  assert (FullName.mapIndexed FullName.processWord 0 before <> []) as Hne'
    by (apply mapIndexed_not_nil; exact Hne).
  destruct (connector_checks _ Hconn) as [Hcheck Hnil].
  pose proof (validate_normalized x) as Hval.
  destruct (normalizeName_words x)
    as [[Hw _] | [rs [Ers [_ [Hg [Hn [_ [_ Es]]]]]]]].
  { rewrite Hws in Hw. destruct before as [| b [| b' before]];
      [congruence | discriminate Hw | discriminate Hw]. }
  rewrite Hws, mapIndexed_snoc, Hpw in Ers.
  assert (FullName.normalizeName x
          = join SPACE (FullName.mapIndexed FullName.processWord 0 before)
            ++ SPACE :: toLowerCase w) as En
    by (rewrite Hn, Ers; apply join_snoc; exact Hne').
  split; [exact En |]. split; [| split].
  - unfold FullName.getLastName. rewrite Hn, Es, Ers. apply last_last.
  - rewrite En. unfold jslength. rewrite length_app. cbn [List.length].
    rewrite Ers in Hg. unfold goodWords in Hg. apply Forall_app in Hg.
    destruct Hg as [Hg _].
    pose proof (join_not_nil _ Hne' Hg) as Hj.
    destruct (join SPACE (FullName.mapIndexed FullName.processWord 0 before));
      [congruence |].
    destruct (toLowerCase w); [congruence |]. cbn [List.length]. lia.
  - rewrite Hval, Hws, mapIndexed_snoc, Hpw, checkWords_app, Hcheck, andb_true_r.
    rewrite length_app. cbn [List.length].
    destruct before as [| b before]; [congruence |]. cbn [List.length].
    replace (S (List.length before) + 1 <? 2)%nat with false
      by (symmetry; apply Nat.ltb_ge; lia).
    reflexivity.
Qed.

(* ================================================================== *)
(** * FullName: one word of letters, then a connector *)
(* ================================================================== *)

Lemma letter_images (c : codeUnit) :
  FullName.isLetter c = true ->
  isWhiteSpace c = false
  /\ c <> HYPHEN /\ c <> APOSTROPHE
  /\ (exists d, lowerCodeUnit c = [d] /\ FullName.isLetter d = true)
  /\ (c <> 255 ->
      forallb FullName.isLetter (upperCodeUnit c) = true
      /\ (List.length (upperCodeUnit c) <= 2)%nat).
Proof.
  intros Hc.
  assert (forall c,
             negb (FullName.isLetter c)
             || (negb (isWhiteSpace c) && negb (c =? HYPHEN)
                 && negb (c =? APOSTROPHE)
                 && forallb FullName.isLetter (lowerCodeUnit c)
                 && (List.length (lowerCodeUnit c) =? 1)%nat
                 && ((c =? 255)
                     || (forallb FullName.isLetter (upperCodeUnit c)
                         && (List.length (upperCodeUnit c) <=? 2)%nat))) = true)
    as Hall.
  { apply case_fact.
    - vm_compute. reflexivity.
    - intros d _ _ _ Hge.
      assert (FullName.isLetter d = false) as ->; [| reflexivity].
      unfold FullName.isLetter. apply not_true_iff_false. intros E.
      bool_arith. lia. }
  pose proof (Hall c) as H. clear Hall.
  rewrite Hc in H. cbn [negb orb] in H. rewrite !andb_true_iff in H.
  destruct H as [[[[[H1 H2] H3] H4] H5] H6].
  apply negb_true_iff in H1, H2, H3. apply N.eqb_neq in H2, H3.
  split; [exact H1 |]. split; [exact H2 |]. split; [exact H3 |]. split.
  - destruct (lowerCodeUnit c) as [| d [| ? ?]]; try discriminate H5.
    exists d. split; [reflexivity |]. cbn in H4.
    rewrite andb_true_r in H4. exact H4.
  - intros Hn. apply orb_true_iff in H6. destruct H6 as [E | E].
    + apply N.eqb_eq in E. contradiction.
    + apply andb_true_iff in E. destruct E as [E1 E2].
      apply Nat.leb_le in E2. auto.
Qed.

Lemma toLowerCase_letters (s : jsstring) :
  forallb FullName.isLetter s = true ->
  forallb FullName.isLetter (toLowerCase s) = true
  /\ List.length (toLowerCase s) = List.length s.
Proof.
  induction s as [| c s IH]; [auto |]. cbn [forallb]. intros H.
  apply andb_true_iff in H. destruct H as [Hc Hs].
  destruct (IH Hs) as [IH1 IH2].
  destruct (letter_images c Hc) as [_ [_ [_ [[d [Hd Hl]] _]]]].
  change (toLowerCase (c :: s)) with (lowerCodeUnit c ++ toLowerCase s).
  rewrite Hd. cbn [app forallb List.length]. rewrite Hl, IH1, IH2. auto.
Qed.

(** A word of two or more letters that does not start with the y with
    diaeresis, once capitalised, passes the tests of [validate]. *)
Lemma letters_word (f : jsstring) :
  (2 <= List.length f)%nat -> forallb FullName.isLetter f = true ->
  hd 0 f <> 255 ->
  FullName.processWord 0 f = capitalizePlain f
  /\ FullName.checkWords [capitalizePlain f] = true
  /\ (List.length (capitalizePlain f) <= List.length f + 1)%nat
  /\ f <> [] /\ noWhiteSpace f.
Proof.
  intros Hlen Hl Hy.
  assert (forall c, In c f -> FullName.isLetter c = true) as Hall
    by (apply forallb_forall; exact Hl).
  assert (~ In HYPHEN f) as Hh.
  { intros H. apply Hall in H. discriminate H. }
  assert (~ In APOSTROPHE f) as Ha.
  { intros H. apply Hall in H. discriminate H. }
  destruct f as [| c rest]; [cbn in Hlen; lia |].
  cbn [hd] in Hy. cbn [forallb] in Hl. apply andb_true_iff in Hl.
  destruct Hl as [Hc Hrest].
  destruct (letter_images c Hc) as [_ [_ [_ [_ Hup]]]].
  destruct (Hup Hy) as [Hupl Hupn].
  destruct (toLowerCase_letters rest Hrest) as [Hlow Hlown].
  destruct (images_all c) as [Hne _].
  assert (forallb FullName.isLetter (capitalizePlain (c :: rest)) = true) as Hcap.
  { rewrite capitalizePlain_cons, forallb_app, Hupl, Hlow. reflexivity. }
  assert (List.length (capitalizePlain (c :: rest))
          = (List.length (upperCodeUnit c) + List.length rest)%nat) as Hcapn.
  { rewrite capitalizePlain_cons, length_app, Hlown. reflexivity. }
  split; [| split; [| split; [| split]]].
  - unfold FullName.processWord. cbn [Nat.eqb].
    rewrite capitalizeWord_plain by assumption. rewrite capitalizePlain_cons.
    reflexivity.
  - cbn [FullName.checkWords].
    assert ((List.length (capitalizePlain (c :: rest)) =? 1)%nat = false) as ->.
    { apply Nat.eqb_neq. rewrite Hcapn. cbn [List.length] in Hlen.
      destruct (upperCodeUnit c); [congruence | cbn [List.length]; lia]. }
    cbn [andb].
    assert (FullName.startsWithLetter (capitalizePlain (c :: rest)) = true) as ->.
    { rewrite capitalizePlain_cons.
      destruct (upperCodeUnit c) as [| u us]; [congruence |].
      cbn [forallb] in Hupl. apply andb_true_iff in Hupl. apply Hupl. }
    assert (FullName.onlyNameChars (capitalizePlain (c :: rest)) = true) as ->.
    { unfold FullName.onlyNameChars.
      destruct (capitalizePlain (c :: rest)) as [| d t] eqn:E.
      - rewrite capitalizePlain_cons in E. apply app_eq_nil in E. tauto.
      - apply forallb_forall. intros e He. unfold FullName.isNameChar.
        rewrite forallb_forall in Hcap. rewrite (Hcap e He). reflexivity. }
    reflexivity.
  - rewrite Hcapn. cbn [List.length]. lia.
  - discriminate.
  - apply Forall_forall. intros d Hd. apply letter_images. auto.
Qed.

Lemma connector_word (w : jsstring) :
  In (toLowerCase w) FullName.lowerCaseWords ->
  w <> [] /\ noWhiteSpace w /\ List.length (toLowerCase w) = List.length w.
Proof.
  intros H. destruct (connector_checks _ H) as [_ Hne].
  split; [intros ->; apply Hne; reflexivity |].
  assert (forall c, In c w ->
                    isWhiteSpace c = false
                    /\ List.length (lowerCodeUnit c) = 1%nat) as Hc.
  { intros c Hin.
    assert (isWhiteSpace c
            || negb (jsstring_eqb (lowerCodeUnit c) [105; 775])
               && (List.length (lowerCodeUnit c) =? 1)%nat = true
            \/ lowerCodeUnit c = [105; 775]) as Hcase.
    { destruct (jsstring_eqb (lowerCodeUnit c) [105; 775]) eqn:E;
        [right; apply jsstring_eqb_eq; exact E | left].
      revert c Hin E.
      assert (forall c, (isWhiteSpace c
                         || jsstring_eqb (lowerCodeUnit c) [105; 775]
                         || (List.length (lowerCodeUnit c) =? 1)%nat) = true) as Hall.
      { apply case_fact.
        - vm_compute. reflexivity.
        - intros c _ Hl _ _. rewrite Hl. cbn. apply orb_true_r. }
      intros c _ E. specialize (Hall c). rewrite E in Hall.
      rewrite orb_false_r in Hall. cbn [negb andb].
      destruct (isWhiteSpace c); [reflexivity | exact Hall]. }
    destruct Hcase as [Hcase | Hcase].
    - destruct (isWhiteSpace c) eqn:Hw.
      + exfalso.
        assert (lowerCodeUnit c = [c]) as Hl.
        { assert (forall c, (negb (isWhiteSpace c)
                             || jsstring_eqb (lowerCodeUnit c) [c]) = true)
            as Hfix.
          { apply case_fact.
            - vm_compute. reflexivity.
            - intros d _ Hd _ _. rewrite Hd.
              replace (jsstring_eqb [d] [d]) with true
                by (symmetry; apply jsstring_eqb_eq; reflexivity).
              apply orb_true_r. }
          specialize (Hfix c). rewrite Hw in Hfix. cbn [negb orb] in Hfix.
          apply jsstring_eqb_eq. exact Hfix. }
        pose proof (toLowerCase_keeps c w Hl Hin) as Hin'.
        pose proof (connector_marks _ _ H Hin') as Ha.
        unfold isAsciiLower in Ha. unfold isWhiteSpace in Hw. bool_arith. lia.
      + cbn [orb] in Hcase. apply andb_true_iff in Hcase.
        destruct Hcase as [_ Hcase]. apply Nat.eqb_eq in Hcase. auto.
    - exfalso.
      assert (In 775 (toLowerCase w)) as Hin'.
      { unfold toLowerCase. apply in_flat_map. exists c.
        split; [exact Hin |]. rewrite Hcase. right. left. reflexivity. }
      pose proof (connector_marks _ _ H Hin') as Ha. discriminate Ha. }
  split.
  - apply Forall_forall. intros c Hin. apply Hc. exact Hin.
  - clear H Hne. induction w as [| c w IH]; [reflexivity |].
    change (toLowerCase (c :: w)) with (lowerCodeUnit c ++ toLowerCase w).
    rewrite length_app. destruct (Hc c (or_introl eq_refl)) as [_ ->].
    rewrite IH; [reflexivity |]. intros d Hd. apply Hc. right. exact Hd.
Qed.

(** C10.  A name may end in a connector.  The input [João de] is valid,
    and [getLastName] of it is [de].  Whenever the last of two or more
    words of the input is, in lower case, one of the connectors of
    [normalizeName], the constructor accepts the input as soon as the
    words before the connector pass the tests of [validate] and the
    normalised name has at most 100 characters (the connector is never a
    reason to refuse), and only then; the stored value ends in the
    connector in lower case, and [getLastName] gives that.  In particular
    one word of two or more letters (not starting with the y with
    diaeresis) followed by a connector, in whatever case, is accepted. *)
Theorem FullName_ends_in_connector :
  (FullName.construct (js "João de") = Return (js "João de")
   /\ FullName.isValid (js "João de") = true
   /\ FullName.getLastName (js "João de") = js "de"
   /\ FullName.construct (js "João DE") = Return (js "João de"))
  /\ (forall (x : jsstring) (before : list jsstring) (w : jsstring),
         split SPACE (collapseWhiteSpace (trim x)) = before ++ [w] ->
         before <> [] ->
         In (toLowerCase w) FullName.lowerCaseWords ->
         (FullName.checkWords
            (FullName.mapIndexed FullName.processWord 0 before) = true ->
          jslength (FullName.normalizeName x) <= 100 ->
          FullName.construct x
          = Return (join SPACE (FullName.mapIndexed FullName.processWord 0 before)
                    ++ SPACE :: toLowerCase w)
          /\ FullName.isValid x = true)
         /\ (forall v : jsstring,
                FullName.construct x = Return v ->
                v = join SPACE (FullName.mapIndexed FullName.processWord 0 before)
                    ++ SPACE :: toLowerCase w
                /\ FullName.getLastName v = toLowerCase w
                /\ FullName.checkWords
                     (FullName.mapIndexed FullName.processWord 0 before) = true))
  /\ (forall first w : jsstring,
         (2 <= List.length first)%nat ->
         forallb FullName.isLetter first = true ->
         hd 0 first <> 255 ->
         In (toLowerCase w) FullName.lowerCaseWords ->
         jslength first + jslength w + 2 <= 100 ->
         FullName.construct (first ++ SPACE :: w)
         = Return (capitalizePlain first ++ SPACE :: toLowerCase w)
         /\ FullName.isValid (first ++ SPACE :: w) = true
         /\ FullName.getLastName (capitalizePlain first ++ SPACE :: toLowerCase w)
            = toLowerCase w).
Proof.
  assert (forall (x : jsstring) (before : list jsstring) (w : jsstring),
             split SPACE (collapseWhiteSpace (trim x)) = before ++ [w] ->
             before <> [] ->
             In (toLowerCase w) FullName.lowerCaseWords ->
             (FullName.construct x = Return (FullName.normalizeName x)
              <-> jslength (FullName.normalizeName x) <= 100
                  /\ FullName.checkWords
                       (FullName.mapIndexed FullName.processWord 0 before) = true)
             /\ (FullName.isValid x = true
                 <-> jslength (FullName.normalizeName x) <= 100
                     /\ FullName.checkWords
                          (FullName.mapIndexed FullName.processWord 0 before) = true))
    as Hgen.
  { intros x before w Hwords Hne Hconn.
    destruct (ends_in_connector x before w Hwords Hne Hconn)
      as [_ [_ [Hmin Hval]]].
    split.
    - rewrite FullName_construct_cases. cbv zeta. rewrite Hval.
      destruct (N.ltb_spec (jslength (FullName.normalizeName x)) 3); [lia |].
      destruct (N.ltb_spec 100 (jslength (FullName.normalizeName x))).
      + split; [discriminate | lia].
      + destruct (FullName.checkWords _).
        * split; [intros _; split; [assumption | reflexivity] | reflexivity].
        * split; [discriminate | intros [_ E]; discriminate E].
    - unfold FullName.isValid. rewrite safeParse_success_all.
      unfold FullName.schema. cbn [forallb passes]. rewrite Hval.
      rewrite andb_true_r, !andb_true_iff, !N.leb_le. intuition. }
  split; [vm_compute; repeat split |]. split.
  - intros x before w Hwords Hne Hconn.
    destruct (ends_in_connector x before w Hwords Hne Hconn) as [En [Hlast _]].
    destruct (Hgen x before w Hwords Hne Hconn) as [Hc Hv]. split.
    + intros Hcheck Hmax. rewrite <- En. split; [apply Hc | apply Hv]; auto.
    + intros v H. destruct (FullName_construct_Return x v H) as [Ev _].
      rewrite Ev in H. apply Hc in H. rewrite Ev, <- En. tauto.
  - intros first w Hlen Hl Hy Hconn Hmax.
    destruct (letters_word first Hlen Hl Hy) as [Hpw [Hcheck [Hgrow [Hne Hnw]]]].
    destruct (connector_word w Hconn) as [Hwne [Hwnw Hwlen]].
    assert (split SPACE (collapseWhiteSpace (trim (first ++ SPACE :: w)))
            = [first] ++ [w]) as Hwords.
    { change (first ++ SPACE :: w) with (first ++ SPACE :: join SPACE [w]).
      rewrite <- (join_cons SPACE first [w]) by discriminate.
      apply words_of_join; [discriminate |].
      constructor; [split; assumption |]. constructor; [split; assumption |].
      constructor. }
    destruct (ends_in_connector _ [first] w Hwords ltac:(discriminate) Hconn)
      as [En [Hlast _]].
    destruct (Hgen _ [first] w Hwords ltac:(discriminate) Hconn) as [Hc Hv].
    cbn [FullName.mapIndexed join] in En, Hc, Hv. rewrite Hpw in En, Hc, Hv.
    rewrite En in *.
    assert (jslength (capitalizePlain first ++ SPACE :: toLowerCase w) <= 100
            /\ FullName.checkWords [capitalizePlain first] = true) as Hok.
    { split; [| exact Hcheck]. unfold jslength in *.
      rewrite length_app. cbn [List.length]. rewrite Hwlen. lia. }
    split; [apply Hc; exact Hok |]. split; [apply Hv; exact Hok | exact Hlast].
Qed.

Lemma FullName_ends_in_connector_witness :
  FullName.construct (js " maria  josé DOS ") = Return (js "Maria José dos")
  /\ FullName.getLastName (js "Maria José dos") = js "dos"
  /\ FullName.construct (js "JOÃO Em") = Return (js "João em").
Proof.
  destruct (proj1 (proj2 FullName_ends_in_connector) (js " maria  josé DOS ")
                  [js "maria"; js "josé"] (js "DOS"))
    as [Hacc Hret].
  - vm_compute. reflexivity.
  - discriminate.
  - vm_compute. tauto.
  - destruct Hacc as [Hc _];
      [vm_compute; reflexivity | vm_compute; discriminate |].
    assert (FullName.construct (js " maria  josé DOS ")
            = Return (js "Maria José dos")) as H
      by (rewrite Hc; vm_compute; reflexivity).
    split; [exact H |]. split.
    + apply (Hret _ H).
    + apply (proj2 (proj2 FullName_ends_in_connector) (js "JOÃO") (js "Em")).
      * vm_compute. lia.
      * vm_compute. reflexivity.
      * vm_compute. discriminate.
      * vm_compute. tauto.
      * vm_compute. discriminate.
Defined.
